(** * RegexMatcher: the backtracking matcher of icu4c/source/i18n/rematch.cpp

    A shallow embedding of class [RegexMatcher] (the matcher facade, the
    replacement expander and the bytecode interpreter [MatchAt]) together
    with the properties of the engine stated in the specification.

    Conventions of the embedding
    - [int32_t] indices are [Z]; a UTF-16 string is a [list Z] of code units.
    - [UVector32] (the backtrack stack and the two capture vectors) is a
      [list Z]; the top of the stack is the END of the list, as in the vector.
    - [U_ASSERT] is compiled out (release build): an assertion never stops
      the program.  A memory access outside an array that the C++ performs
      unchecked is a [Fault].
    - The dispatch loop of [MatchAt] and the find loop of [replaceAll] need
      not terminate; they take a [fuel] bound and answer [OutOfFuel] when it
      is exhausted.  Loops that always terminate carry their own bound.
    - Memory is unbounded: [reserveBlock] never fails, so [MatchAt] never
      changes the [UErrorCode] it is given. *)

From stdpp Require Import base list numbers.

Local Open Scope Z_scope.

(* ------------------------------------------------------------------------- *)
(** ** Error codes (unicode/utypes.h) *)

Inductive UErrorCode :=
| U_USING_DEFAULT_WARNING      (* some warning: not a failure      *)
| U_ZERO_ERROR
| U_INDEX_OUTOFBOUNDS_ERROR
| U_MEMORY_ALLOCATION_ERROR
| U_REGEX_INVALID_STATE.

Definition U_FAILURE (e : UErrorCode) : bool :=
  match e with
  | U_USING_DEFAULT_WARNING | U_ZERO_ERROR => false
  | _ => true
  end.

(* ------------------------------------------------------------------------- *)
(** ** Results of code that may fault or run for ever *)

Inductive fault :=
| StackUnderflow      (* popBlock on a stack holding fewer cells than asked *)
| BadPatternIndex     (* pat[patIdx] outside the compiled pattern           *)
| BadIndex.           (* unchecked access outside a capture or set vector   *)

Inductive result (A : Type) :=
| Ret (a : A)
| Fault (f : fault)
| OutOfFuel.
Arguments Ret {A} a.
Arguments Fault {A} f.
Arguments OutOfFuel {A}.

#[global] Instance result_ret : MRet result := @Ret.
#[global] Instance result_bind : MBind result := fun A B f r =>
  match r with
  | Ret a => f a
  | Fault e => Fault e
  | OutOfFuel => OutOfFuel
  end.

(* ------------------------------------------------------------------------- *)
(** ** Unicode character properties (unicode/uchar.h)

    The character database is not part of the matcher; the engine only
    consumes the three functions below, so they are an interface. *)

Class UnicodeData := {
  u_charType       : Z -> Z;
  u_isdigit        : Z -> bool;
  u_charDigitValue : Z -> Z
}.

(** Modelled from the spec: the general categories the engine needs
    (enum UCharCategory of uchar.h, which is not among the sources). *)
Definition U_LOWERCASE_LETTER     : Z := 2.
Definition U_NON_SPACING_MARK     : Z := 6.
Definition U_ENCLOSING_MARK       : Z := 7.
Definition U_DECIMAL_DIGIT_NUMBER : Z := 9.
Definition U_SPACE_SEPARATOR      : Z := 12.
Definition U_CONTROL_CHAR         : Z := 15.

(** A UnicodeSet is consumed through [contains] only. *)
Definition UnicodeSet := Z -> bool.
Definition contains (s : UnicodeSet) (c : Z) : bool := s c.

(* ------------------------------------------------------------------------- *)
(** ** UTF-16 primitives (unicode/utf16.h, UnicodeString) *)

Module UTF16.

(** Modelled from the spec: surrogate tests and pair composition of utf16.h. *)
Definition U16_IS_LEAD (c : Z) : bool := (0xD800 <=? c) && (c <=? 0xDBFF).
Definition U16_IS_TRAIL (c : Z) : bool := (0xDC00 <=? c) && (c <=? 0xDFFF).
Definition U16_GET_SUPPLEMENTARY (lead trail : Z) : Z :=
  (lead - 0xD800) * 0x400 + (trail - 0xDC00) + 0x10000.

Definition length32 (s : list Z) : Z := Z.of_nat (length s).

(** Modelled from the spec: UnicodeString::charAt; an index outside the
    string reads kInvalidUChar = 0xFFFF. *)
Definition charAt (s : list Z) (i : Z) : Z :=
  if i <? 0 then 0xFFFF else default 0xFFFF (s !! Z.to_nat i).

(** Modelled from the spec: nextCodePoint(buf, idx, len) -> (cp, newIdx),
    the macro U16_NEXT: reads one code point at [i], advancing past a
    lead/trail surrogate pair when present. *)
Definition U16_NEXT (s : list Z) (i len : Z) : Z * Z :=
  let c := charAt s i in
  let i1 := i + 1 in
  if U16_IS_LEAD c && (i1 <? len) && U16_IS_TRAIL (charAt s i1)
  then (U16_GET_SUPPLEMENTARY c (charAt s i1), i1 + 1)
  else (c, i1).

(** Modelled from the spec: UnicodeString::char32At, the code point that
    contains the code unit at [i] (0xFFFF outside the string). *)
Definition char32At (s : list Z) (i : Z) : Z :=
  if (0 <=? i) && (i <? length32 s) then
    let c := charAt s i in
    if U16_IS_LEAD c then
      if (i + 1 <? length32 s) && U16_IS_TRAIL (charAt s (i + 1))
      then U16_GET_SUPPLEMENTARY c (charAt s (i + 1)) else c
    else if U16_IS_TRAIL c then
      if (0 <? i) && U16_IS_LEAD (charAt s (i - 1))
      then U16_GET_SUPPLEMENTARY (charAt s (i - 1)) c else c
    else c
  else 0xFFFF.

Definition U16_FWD_1 (s : list Z) (i len : Z) : Z :=
  if U16_IS_LEAD (charAt s i) && (i + 1 <? len) && U16_IS_TRAIL (charAt s (i + 1))
  then i + 2 else i + 1.

Definition U16_BACK_1 (s : list Z) (i : Z) : Z :=
  if U16_IS_TRAIL (charAt s (i - 1)) && (0 <? i - 1) && U16_IS_LEAD (charAt s (i - 2))
  then i - 2 else i - 1.

Fixpoint U16_FWD_N (s : list Z) (i len : Z) (n : nat) : Z :=
  match n with
  | O => i
  | S n' => if i <? len then U16_FWD_N s (U16_FWD_1 s i len) len n' else i
  end.

Fixpoint U16_BACK_N (s : list Z) (i : Z) (n : nat) : Z :=
  match n with
  | O => i
  | S n' => if 0 <? i then U16_BACK_N s (U16_BACK_1 s i) n' else i
  end.

(** Modelled from the spec: moveIndex(idx, delta) advances (or retreats) by
    |delta| code points, respecting surrogate pairs; the index is pinned to
    the string first (UnicodeString::moveIndex32). *)
Definition moveIndex32 (s : list Z) (index delta : Z) : Z :=
  let len := length32 s in
  let index := if index <? 0 then 0 else if len <? index then len else index in
  if 0 <? delta then U16_FWD_N s index len (Z.to_nat delta)
  else U16_BACK_N s index (Z.to_nat (- delta)).

(** Modelled from the spec: the substring constructor and append-range of
    UnicodeString, [len] code units from [start], both pinned to the
    string. *)
Definition substr (s : list Z) (start len : Z) : list Z :=
  take (Z.to_nat len) (drop (Z.to_nat start) s).

End UTF16.
Import UTF16.

(* ------------------------------------------------------------------------- *)
(** ** The compiled pattern (regeximp.h, RegexPattern) *)

Inductive urx_type :=
| URX_BACKTRACK | URX_END | URX_ONECHAR | URX_STRING | URX_STRING_LEN
| URX_STATE_SAVE | URX_NOP | URX_START_CAPTURE | URX_END_CAPTURE
| URX_STATIC_SETREF | URX_SETREF | URX_DOTANY | URX_JMP | URX_FAIL
| URX_BACKSLASH_A | URX_BACKSLASH_B | URX_BACKSLASH_D | URX_BACKSLASH_G
| URX_BACKSLASH_X | URX_BACKSLASH_Z | URX_DOTANY_ALL | URX_CARET | URX_DOLLAR.

(** Modelled from the spec: the opcode tags of regeximp.h (the header is not
    among the sources).  A 32-bit instruction word holds the tag in its high
    8 bits and the operand in its low 24 bits. *)
Definition urx_code (t : urx_type) : Z :=
  match t with
  | URX_BACKTRACK => 1 | URX_END => 2 | URX_ONECHAR => 3 | URX_STRING => 4
  | URX_STRING_LEN => 5 | URX_STATE_SAVE => 6 | URX_NOP => 7
  | URX_START_CAPTURE => 8 | URX_END_CAPTURE => 9 | URX_STATIC_SETREF => 10
  | URX_SETREF => 11 | URX_DOTANY => 12 | URX_JMP => 13 | URX_FAIL => 14
  | URX_BACKSLASH_A => 15 | URX_BACKSLASH_B => 16 | URX_BACKSLASH_D => 17
  | URX_BACKSLASH_G => 18 | URX_BACKSLASH_X => 20 | URX_BACKSLASH_Z => 21
  | URX_DOTANY_ALL => 22 | URX_CARET => 23 | URX_DOLLAR => 24
  end.

Definition urx_types : list urx_type :=
  [URX_BACKTRACK; URX_END; URX_ONECHAR; URX_STRING; URX_STRING_LEN;
   URX_STATE_SAVE; URX_NOP; URX_START_CAPTURE; URX_END_CAPTURE;
   URX_STATIC_SETREF; URX_SETREF; URX_DOTANY; URX_JMP; URX_FAIL;
   URX_BACKSLASH_A; URX_BACKSLASH_B; URX_BACKSLASH_D; URX_BACKSLASH_G;
   URX_BACKSLASH_X; URX_BACKSLASH_Z; URX_DOTANY_ALL; URX_CARET; URX_DOLLAR].

(** Modelled from the spec: the helper TYPE(w) of regeximp.h; [None] is a
    tag no [case] of the dispatch switch names. *)
Definition URX_TYPE (op : Z) : option urx_type :=
  let tag := Z.shiftr (op mod 2 ^ 32) 24 in
  List.find (fun t => urx_code t =? tag) urx_types.

(** Modelled from the spec: the helper VAL(w) of regeximp.h. *)
Definition URX_VAL (op : Z) : Z := Z.land op 0xFFFFFF.

(** Modelled from the spec: URX_BUILD of regeximp.h, used to write patterns. *)
Definition URX_BUILD (t : urx_type) (val : Z) : Z :=
  Z.lor (Z.shiftl (urx_code t) 24) val.

(** Modelled from the spec: NEG_SET is a single high bit within the operand
    of STATIC_SETREF; WORD_SET is the well-known index of the word set. *)
Definition URX_NEG_SET    : Z := 0x800000.
Definition URX_ISWORD_SET : Z := 1.

Record RegexPattern := {
  fCompiledPat      : list Z;
  fLiteralText      : list Z;
  fSets             : list UnicodeSet;
  fStaticSets       : Z -> UnicodeSet;
  fNumCaptureGroups : Z;
  fMaxCaptureDigits : Z
}.

(* ------------------------------------------------------------------------- *)
(** ** UVector32 *)

Module UVector32.

(** [elementAti] is range-checked and answers 0 outside the vector. *)
Definition elementAti (v : list Z) (i : Z) : Z :=
  if i <? 0 then 0 else default 0 (v !! Z.to_nat i).

(** [setElementAt] is range-checked and does nothing outside the vector. *)
Definition setElementAt (v : list Z) (elem : Z) (i : Z) : list Z :=
  if i <? 0 then v else <[Z.to_nat i := elem]> v.

(** Modelled from the spec: popBlock(n) returns a view of the top [n] cells
    and logically removes them.  With fewer than [n] cells there is no such
    view: [None]. *)
Definition popBlock (v : list Z) (size : Z) : option (list Z * list Z) :=
  if (0 <=? size) && (size <=? Z.of_nat (length v))
  then let keep := (length v - Z.to_nat size)%nat in
       Some (take keep v, drop keep v)
  else None.

(** Modelled from the spec: reserveBlock(n) returns a writable view of [n]
    newly allocated top cells; [block] is what the caller writes there.
    Memory is unbounded in this model: the vector can always grow, and the
    status that a failed allocation would set stays as it was. *)
Definition reserveBlock (v : list Z) (block : list Z) : list Z := v ++ block.

End UVector32.
Import UVector32.

(* ------------------------------------------------------------------------- *)
(** ** The matcher object *)

Record RegexMatcher := mkMatcher {
  fPattern        : RegexPattern;
  fInput          : list Z;
  fInputLength    : Z;
  fMatch          : bool;
  fMatchStart     : Z;
  fMatchEnd       : Z;
  fLastMatchEnd   : Z;
  fBackTrackStack : list Z;
  fCaptureStarts  : list Z;
  fCaptureEnds    : list Z
}.

Definition set_starts (m : RegexMatcher) (cs : list Z) : RegexMatcher :=
  mkMatcher (fPattern m) (fInput m) (fInputLength m) (fMatch m) (fMatchStart m)
            (fMatchEnd m) (fLastMatchEnd m) (fBackTrackStack m) cs (fCaptureEnds m).

Definition set_ends (m : RegexMatcher) (ce : list Z) : RegexMatcher :=
  mkMatcher (fPattern m) (fInput m) (fInputLength m) (fMatch m) (fMatchStart m)
            (fMatchEnd m) (fLastMatchEnd m) (fBackTrackStack m) (fCaptureStarts m) ce.

Definition set_stack (m : RegexMatcher) (stk : list Z) : RegexMatcher :=
  mkMatcher (fPattern m) (fInput m) (fInputLength m) (fMatch m) (fMatchStart m)
            (fMatchEnd m) (fLastMatchEnd m) stk (fCaptureStarts m) (fCaptureEnds m).

Definition set_match (m : RegexMatcher) (b : bool) (mstart mend lastEnd : Z) : RegexMatcher :=
  mkMatcher (fPattern m) (fInput m) (fInputLength m) b mstart mend lastEnd
            (fBackTrackStack m) (fCaptureStarts m) (fCaptureEnds m).

(** for (i=0; i<=fNumCaptureGroups; i++) fCaptureStarts->setElementAt(-1, i) *)
Definition clearStarts (pat : RegexPattern) (cs : list Z) : list Z :=
  foldl (fun v i => setElementAt v (-1) (Z.of_nat i)) cs
        (seq 0 (Z.to_nat (fNumCaptureGroups pat + 1))).

(** RegexMatcher &RegexMatcher::reset() *)
Definition reset (m : RegexMatcher) : RegexMatcher :=
  set_starts (set_match m false 0 0 0) (clearStarts (fPattern m) (fCaptureStarts m)).

(** RegexMatcher &RegexMatcher::reset(const UnicodeString &input) *)
Definition reset_input (m : RegexMatcher) (input : list Z) : RegexMatcher :=
  reset (mkMatcher (fPattern m) input (length32 input) (fMatch m) (fMatchStart m)
                   (fMatchEnd m) (fLastMatchEnd m) (fBackTrackStack m)
                   (fCaptureStarts m) (fCaptureEnds m)).

(** The constructor; the C++ leaves the input unbound (NULL), which the
    model renders as the empty subject. *)
Definition new_RegexMatcher (pat : RegexPattern) : RegexMatcher :=
  let slots := Z.to_nat (fNumCaptureGroups pat + 1) in
  reset (mkMatcher pat [] 0 false 0 0 0 [] (replicate slots (-1)) (replicate slots (-1))).

(** RegexPattern::matcher(input): a matcher bound to [input]. *)
Definition matcher (pat : RegexPattern) (input : list Z) : RegexMatcher :=
  reset_input (new_RegexMatcher pat) input.

Definition groupCount (m : RegexMatcher) : Z := fNumCaptureGroups (fPattern m).

(** int32_t RegexMatcher::start(int group, UErrorCode &err) const *)
Definition start (m : RegexMatcher) (group : Z) (err : UErrorCode) : Z * UErrorCode :=
  if U_FAILURE err then (-1, err)
  else if negb (fMatch m) then (-1, U_REGEX_INVALID_STATE)
  else if (group <? 0) || (fNumCaptureGroups (fPattern m) <? group)
  then (-1, U_INDEX_OUTOFBOUNDS_ERROR)
  else if group =? 0 then (fMatchStart m, err)
  else (elementAti (fCaptureStarts m) group, err).

(** int32_t RegexMatcher::end(int group, UErrorCode &err) const *)
Definition end_ (m : RegexMatcher) (group : Z) (err : UErrorCode) : Z * UErrorCode :=
  if U_FAILURE err then (-1, err)
  else if negb (fMatch m) then (-1, U_REGEX_INVALID_STATE)
  else if (group <? 0) || (fNumCaptureGroups (fPattern m) <? group)
  then (-1, U_INDEX_OUTOFBOUNDS_ERROR)
  else if group =? 0 then (fMatchEnd m, err)
  else
    let s := elementAti (fCaptureStarts m) group in
    if negb (s =? -1) then (elementAti (fCaptureEnds m) group, err) else (-1, err).

(** UnicodeString RegexMatcher::group(int32_t groupNum, UErrorCode &status) const *)
Definition group (m : RegexMatcher) (groupNum : Z) (status : UErrorCode)
  : list Z * UErrorCode :=
  let '(s, status) := start m groupNum status in
  let '(e, status) := end_ m groupNum status in
  if U_FAILURE status then ([], status)
  else if s <? 0 then ([], status)
  else (substr (fInput m) s (e - s), status).

(** UnicodeString &RegexMatcher::appendTail(UnicodeString &dest) *)
Definition appendTail (m : RegexMatcher) (dest : list Z) : list Z :=
  let len := fInputLength m - fMatchEnd m in
  if 0 <? len then dest ++ substr (fInput m) (fMatchEnd m) len else dest.

(* ------------------------------------------------------------------------- *)
(** ** The backtrack frame *)

(** The cells STATE_SAVE writes for the capture groups:
    for (i=fNumCaptureGroups; i>0; i--) { *sp++ = fCapStarts[i]; *sp++ = fCapEnds[i]; } *)
Fixpoint saveCaptures (i : nat) (cs ce : list Z) : list Z :=
  match i with
  | O => []
  | S i' => elementAti cs (Z.of_nat i) :: elementAti ce (Z.of_nat i) :: saveCaptures i' cs ce
  end.

(** The cells backTrack reads back:
    for (i=fNumCaptureGroups; i>=1; i--) { fCapStarts[i] = *sp++; fCapEnds[i] = *sp++; } *)
Fixpoint restoreCaptures (i : nat) (cs ce sp : list Z) : option (list Z * list Z * list Z) :=
  match i with
  | O => Some (cs, ce, sp)
  | S i' =>
      match sp with
      | s :: e :: sp' => restoreCaptures i' (<[i := s]> cs) (<[i := e]> ce) sp'
      | _ => None
      end
  end.

Definition fCaptureStateSize (pat : RegexPattern) : Z := fNumCaptureGroups pat * 2 + 2.

(** case URX_STATE_SAVE: the frame pushed for continuation [opValue]. *)
Definition stateSave (m : RegexMatcher) (opValue inputIdx : Z) : RegexMatcher :=
  let n := Z.to_nat (fNumCaptureGroups (fPattern m)) in
  let block := saveCaptures n (fCaptureStarts m) (fCaptureEnds m) ++ [opValue; inputIdx] in
  set_stack m (reserveBlock (fBackTrackStack m) block).

(** void RegexMatcher::backTrack(int32_t &inputIdx, int32_t &patIdx):
    the matcher after the pop, then the new inputIdx and patIdx.  There is no
    test for an empty stack: [None] is the read of a frame that is not
    there. *)
Definition backTrack (m : RegexMatcher) : option (RegexMatcher * Z * Z) :=
  match popBlock (fBackTrackStack m) (fCaptureStateSize (fPattern m)) with
  | None => None
  | Some (rest, sp) =>
      let n := Z.to_nat (fNumCaptureGroups (fPattern m)) in
      match restoreCaptures n (fCaptureStarts m) (fCaptureEnds m) sp with
      | Some (cs, ce, patIdx :: inputIdx :: _) =>
          Some (set_stack (set_ends (set_starts m cs) ce) rest, inputIdx, patIdx)
      | _ => None
      end
  end.

(* ------------------------------------------------------------------------- *)
(** ** The match engine *)

Inductive step_result :=
| Next (m : RegexMatcher) (inputIdx patIdx : Z)     (* break out of the switch *)
| Break (isMatch : bool) (m : RegexMatcher) (inputIdx : Z)  (* goto breakFromLoop *)
| Abort (f : fault).

(** A call of backTrack(inputIdx, patIdx) followed by [break]. *)
Definition doBackTrack (m : RegexMatcher) : step_result :=
  match backTrack m with
  | Some (m', inputIdx, patIdx) => Next m' inputIdx patIdx
  | None => Abort StackUnderflow
  end.

Definition isLineTerminator (c : Z) : bool :=
  (c =? 0x0a) || (c =? 0x0d) || (c =? 0x0c) || (c =? 0x85) || (c =? 0x2028) || (c =? 0x2029).

(** case URX_DOLLAR: [true] is the [break] that lets the match go on,
    [false] a call of backTrack. *)
Definition dollarTest (input : list Z) (inputIdx inputLen : Z) : bool :=
  if inputIdx <? inputLen - 2 then false
  else if inputLen <=? inputIdx then true
  else if (inputIdx =? inputLen - 1) && isLineTerminator (char32At input inputIdx) then true
  else if (inputIdx =? inputLen - 2)
          && ((char32At input inputIdx =? 0x0d) && (char32At input (inputIdx + 1) =? 0x0a))
  then true
  else false.

Section Engine.
Context `{UnicodeData}.

Definition isCombining (ctype : Z) : bool :=
  (ctype =? U_NON_SPACING_MARK) || (ctype =? U_ENCLOSING_MARK).

(** The backward scan of isWordBoundary; the first round pins a position
    outside the subject to it, every other round moves [prevPos] back by at
    least one unit, so one more than the start position bounds the rounds. *)
Fixpoint prevIsWord (n : nat) (m : RegexMatcher) (prevPos : Z) : bool :=
  match n with
  | O => false
  | S n' =>
      if prevPos =? 0 then false
      else
        let prevPos := moveIndex32 (fInput m) prevPos (-1) in
        let prevChar := char32At (fInput m) prevPos in
        let prevCType := u_charType prevChar in
        if negb (isCombining prevCType)
        then contains (fStaticSets (fPattern m) URX_ISWORD_SET) prevChar
        else prevIsWord n' m prevPos
  end.

(** UBool RegexMatcher::isWordBoundary(int32_t pos) *)
Definition isWordBoundary (m : RegexMatcher) (pos : Z) : bool :=
  if fInputLength m <=? pos then false
  else
    let c := char32At (fInput m) pos in
    let ctype := u_charType c in
    if isCombining ctype then false
    else
      let cIsWord := contains (fStaticSets (fPattern m) URX_ISWORD_SET) c in
      let prevCIsWord := prevIsWord (S (Z.to_nat pos)) m pos in
      xorb cIsWord prevCIsWord.

(** The inner loop of URX_BACKSLASH_X; every round but the last moves
    [inputIdx] forward, so the length of the subject bounds the rounds. *)
Fixpoint skipCombining (n : nat) (m : RegexMatcher) (inputIdx : Z) : Z :=
  match n with
  | O => inputIdx
  | S n' =>
      let c := char32At (fInput m) inputIdx in
      let ctype := u_charType c in
      if negb (isCombining ctype) then inputIdx
      else
        let inputIdx := moveIndex32 (fInput m) inputIdx 1 in
        if fInputLength m <=? inputIdx then inputIdx
        else skipCombining n' m inputIdx
  end.

(** Modelled from the spec: u_strncmp(...) == 0 for the STRING opcode:
    [len] code units of the subject from [inputIdx] equal
    literalText[offset..offset+len]. *)
Definition stringEq (input lit : list Z) (inputIdx offset len : Z) : bool :=
  bool_decide (substr input inputIdx len = substr lit offset len).

(** One round of the dispatch loop of MatchAt: fetch, decode, switch. *)
Definition MatchAt_step (m : RegexMatcher) (inputIdx patIdx : Z) : step_result :=
  let pat := fCompiledPat (fPattern m) in
  let input := fInput m in
  let inputLen := length32 input in
  if patIdx <? 0 then Abort BadPatternIndex else
  match pat !! Z.to_nat patIdx with
  | None => Abort BadPatternIndex
  | Some op =>
    let opType := URX_TYPE op in
    let opValue := URX_VAL op in
    let patIdx := patIdx + 1 in
    match opType with
    | Some URX_NOP => Next m inputIdx patIdx

    | Some URX_BACKTRACK => doBackTrack m

    | Some URX_ONECHAR =>
        if inputIdx <? fInputLength m then
          let '(c, inputIdx) := U16_NEXT input inputIdx (fInputLength m) in
          if c =? opValue then Next m inputIdx patIdx else doBackTrack m
        else doBackTrack m

    | Some URX_STRING =>
        let stringStartIdx := opValue in
        match pat !! Z.to_nat patIdx with
        | None => Abort BadPatternIndex
        | Some op =>
            let patIdx := patIdx + 1 in
            let stringLen := URX_VAL op in
            let stringEndIndex := inputIdx + stringLen in
            if (stringEndIndex <=? inputLen)
               && stringEq input (fLiteralText (fPattern m)) inputIdx stringStartIdx stringLen
            then Next m stringEndIndex patIdx
            else doBackTrack m
        end

    | Some URX_STATE_SAVE => Next (stateSave m opValue inputIdx) inputIdx patIdx

    | Some URX_END => Break true m inputIdx

    | Some URX_START_CAPTURE =>
        if opValue <? Z.of_nat (length (fCaptureStarts m))
        then Next (set_starts m (<[Z.to_nat opValue := inputIdx]> (fCaptureStarts m))) inputIdx patIdx
        else Abort BadIndex

    | Some URX_END_CAPTURE =>
        if opValue <? Z.of_nat (length (fCaptureEnds m))
        then Next (set_ends m (<[Z.to_nat opValue := inputIdx]> (fCaptureEnds m))) inputIdx patIdx
        else Abort BadIndex

    | Some URX_DOLLAR =>
        if dollarTest input inputIdx inputLen then Next m inputIdx patIdx
        else doBackTrack m

    | Some URX_CARET =>
        if negb (inputIdx =? 0) then doBackTrack m else Next m inputIdx patIdx

    | Some URX_BACKSLASH_A =>
        if negb (inputIdx =? 0) then doBackTrack m else Next m inputIdx patIdx

    | Some URX_BACKSLASH_B =>
        let success := isWordBoundary m inputIdx in
        let success := xorb success (negb (opValue =? 0)) in
        if negb success then doBackTrack m else Next m inputIdx patIdx

    | Some URX_BACKSLASH_D =>
        if fInputLength m <=? inputIdx then doBackTrack m
        else
          let c := char32At input inputIdx in
          let ctype := u_charType c in
          let success := (ctype =? U_DECIMAL_DIGIT_NUMBER) in
          let success := xorb success (negb (opValue =? 0)) in
          if success then Next m (moveIndex32 input inputIdx 1) patIdx
          else doBackTrack m

    | Some URX_BACKSLASH_G =>
        if negb ((fMatch m && (inputIdx =? fMatchEnd m))
                 || (negb (fMatch m) && (inputIdx =? 0)))
        then doBackTrack m else Next m inputIdx patIdx

    | Some URX_BACKSLASH_X =>
        if fInputLength m <=? inputIdx then doBackTrack m
        else
          let c := char32At input inputIdx in
          let inputIdx := moveIndex32 input inputIdx 1 in
          if (c =? 0x0d) && (char32At input inputIdx =? 0x0a)
          then Next m (moveIndex32 input inputIdx 1) patIdx
          else
            let ctype := u_charType c in
            if negb (ctype =? U_CONTROL_CHAR)
            then Next m (skipCombining (S (length input)) m inputIdx) patIdx
            else Next m inputIdx patIdx

    | Some URX_BACKSLASH_Z =>
        if inputIdx <? inputLen then doBackTrack m else Next m inputIdx patIdx

    | Some URX_STATIC_SETREF =>
        let success := (Z.land opValue URX_NEG_SET =? URX_NEG_SET) in
        let opValue := Z.land opValue (Z.lnot URX_NEG_SET) in
        if inputIdx <? fInputLength m then
          let '(c, inputIdx) := U16_NEXT input inputIdx (fInputLength m) in
          let s := fStaticSets (fPattern m) opValue in
          let success := if contains s c then negb success else success in
          if negb success then doBackTrack m else Next m inputIdx patIdx
        else
          if negb success then doBackTrack m else Next m inputIdx patIdx

    | Some URX_SETREF =>
        if inputIdx <? fInputLength m then
          let '(c, inputIdx) := U16_NEXT input inputIdx (fInputLength m) in
          match fSets (fPattern m) !! Z.to_nat opValue with
          | None => Abort BadIndex
          | Some s => if contains s c then Next m inputIdx patIdx else doBackTrack m
          end
        else doBackTrack m

    | Some URX_DOTANY =>
        if fInputLength m <=? inputIdx then doBackTrack m
        else
          let '(c, inputIdx) := U16_NEXT input inputIdx (fInputLength m) in
          if (Z.land c 0x7f <=? 0x29) && isLineTerminator c
          then doBackTrack m
          else Next m inputIdx patIdx

    | Some URX_DOTANY_ALL =>
        if fInputLength m <=? inputIdx then doBackTrack m
        else
          let c := char32At input inputIdx in
          let inputIdx := moveIndex32 input inputIdx 1 in
          if isLineTerminator c then
            let nextc := char32At input inputIdx in
            if (c =? 0x0d) && (nextc =? 0x0a)
            then Next m (moveIndex32 input inputIdx 1) patIdx
            else Next m inputIdx patIdx
          else Next m inputIdx patIdx

    | Some URX_JMP => Next m inputIdx opValue

    | Some URX_FAIL => Break false m inputIdx

    (* default: U_ASSERT(FALSE), which is compiled out *)
    | Some URX_STRING_LEN | None => Next m inputIdx patIdx
    end
  end.

(** for (;;) { ... } of MatchAt: isMatch, the matcher and inputIdx at
    breakFromLoop.  The test [if (U_FAILURE(status)) break;] that ends each
    round never fires: status is no failure on entry and only an allocation
    failure of reserveBlock could change it. *)
Fixpoint MatchAt_loop (fuel : nat) (m : RegexMatcher) (inputIdx patIdx : Z)
  : result (bool * RegexMatcher * Z) :=
  match fuel with
  | O => OutOfFuel
  | S fuel' =>
      match MatchAt_step m inputIdx patIdx with
      | Next m' inputIdx' patIdx' => MatchAt_loop fuel' m' inputIdx' patIdx'
      | Break isMatch m' inputIdx' => Ret (isMatch, m', inputIdx')
      | Abort f => Fault f
      end
  end.

(** The bookkeeping after breakFromLoop. *)
Definition finishMatch (isMatch : bool) (m : RegexMatcher) (startIdx inputIdx : Z)
  : RegexMatcher :=
  if isMatch then set_match m true startIdx inputIdx (fMatchEnd m)
  else set_match m false (fMatchStart m) (fMatchEnd m) (fLastMatchEnd m).

(** void RegexMatcher::MatchAt(int32_t startIdx, UErrorCode &status) *)
Definition MatchAt (fuel : nat) (m : RegexMatcher) (startIdx : Z) (status : UErrorCode)
  : result RegexMatcher :=
  if U_FAILURE status then Ret m
  else
    let m := set_starts m (clearStarts (fPattern m) (fCaptureStarts m)) in
    '(isMatch, m, inputIdx) ← MatchAt_loop fuel m startIdx 0;
    Ret (finishMatch isMatch m startIdx inputIdx).

(** The scan of find(): at most one attempt per start position.  MatchAt
    leaves the status as it was (see [MatchAt_loop]), so the test
    [if (U_FAILURE(status)) return FALSE;] after the attempt never fires. *)
Fixpoint find_loop (n : nat) (fuel : nat) (m : RegexMatcher) (startPos : Z)
  : result (bool * RegexMatcher) :=
  if startPos <? fInputLength m then
    match n with
    | O => Ret (false, m)
    | S n' =>
        m ← MatchAt fuel m startPos U_ZERO_ERROR;
        if fMatch m then Ret (true, m)
        else find_loop n' fuel m (moveIndex32 (fInput m) startPos 1)
    end
  else Ret (false, m).

(** UBool RegexMatcher::find() *)
Definition find (fuel : nat) (m : RegexMatcher) : result (bool * RegexMatcher) :=
  find_loop (Z.to_nat (fInputLength m - fMatchEnd m)) fuel m (fMatchEnd m).

(** UBool RegexMatcher::find(int32_t start, UErrorCode &status) *)
Definition find_from (fuel : nat) (m : RegexMatcher) (start : Z) (status : UErrorCode)
  : result (bool * RegexMatcher * UErrorCode) :=
  if U_FAILURE status then Ret (false, m, status)
  else if (start <? 0) || (fInputLength m <=? start)
  then Ret (false, m, U_INDEX_OUTOFBOUNDS_ERROR)
  else
    let m := reset m in
    '(b, m) ← find_loop (Z.to_nat (fInputLength m - start)) fuel m start;
    Ret (b, m, status).

(** UBool RegexMatcher::lookingAt(UErrorCode &status) *)
Definition lookingAt (fuel : nat) (m : RegexMatcher) (status : UErrorCode)
  : result (bool * RegexMatcher) :=
  if U_FAILURE status then Ret (false, m)
  else
    m ← MatchAt fuel (reset m) 0 status;
    Ret (fMatch m, m).

(** UBool RegexMatcher::matches(UErrorCode &status) *)
Definition matches (fuel : nat) (m : RegexMatcher) (status : UErrorCode)
  : result (bool * RegexMatcher) :=
  if U_FAILURE status then Ret (false, m)
  else
    m ← MatchAt fuel (reset m) 0 status;
    let success := fMatch m && (fMatchEnd m =? fInputLength m) in
    Ret (success, m).

(* ------------------------------------------------------------------------- *)
(** ** Replacement *)

Definition BACKSLASH  : Z := 0x5c.
Definition DOLLARSIGN : Z := 0x24.

(** [int32_t] arithmetic of the group-number accumulator. *)
Definition int32 (z : Z) : Z := (z + 2 ^ 31) mod 2 ^ 32 - 2 ^ 31.

(** The digit scan after a '$': the new replIdx, numDigits and groupNum.
    Every round consumes a code point, so the length of the replacement
    bounds the rounds. *)
Fixpoint scanGroupNum (n : nat) (maxDigits : Z) (repl : list Z)
         (replIdx numDigits groupNum : Z) : Z * Z * Z :=
  match n with
  | O => (replIdx, numDigits, groupNum)
  | S n' =>
      if length32 repl <=? replIdx then (replIdx, numDigits, groupNum)
      else
        let digitC := char32At repl replIdx in
        if negb (u_isdigit digitC) then (replIdx, numDigits, groupNum)
        else
          let replIdx := moveIndex32 repl replIdx 1 in
          let groupNum := int32 (groupNum * 10 + u_charDigitValue digitC) in
          let numDigits := numDigits + 1 in
          if maxDigits <=? numDigits then (replIdx, numDigits, groupNum)
          else scanGroupNum n' maxDigits repl replIdx numDigits groupNum
  end.

Inductive repl_step :=
| ReplNext (replIdx : Z) (dest : list Z)             (* continue *)
| ReplBreak (dest : list Z) (status : UErrorCode).   (* break    *)

(** One round of the scan of the replacement text in appendReplacement. *)
Definition replIter (m : RegexMatcher) (repl : list Z) (replIdx : Z)
           (dest : list Z) (status : UErrorCode) : repl_step :=
  let replLen := length32 repl in
  let c := charAt repl replIdx in
  let replIdx := replIdx + 1 in
  if c =? BACKSLASH then
    if replLen <=? replIdx then ReplBreak dest status
    else ReplNext (replIdx + 1) (dest ++ [charAt repl replIdx])
  else if negb (c =? DOLLARSIGN) then ReplNext replIdx (dest ++ [c])
  else
    let '(replIdx, numDigits, groupNum) :=
      scanGroupNum (length repl) (fMaxCaptureDigits (fPattern m)) repl replIdx 0 0 in
    if numDigits =? 0 then ReplNext replIdx (dest ++ [DOLLARSIGN])
    else
      let '(g, status) := group m groupNum status in
      let dest := dest ++ g in
      if U_FAILURE status then ReplBreak dest status
      else ReplNext replIdx dest.

(** while (replIdx<replLen) { ... }; every round consumes at least one code
    unit, so the length of the replacement bounds the rounds. *)
Fixpoint replLoop (n : nat) (m : RegexMatcher) (repl : list Z) (replIdx : Z)
         (dest : list Z) (status : UErrorCode) : list Z * UErrorCode :=
  if replIdx <? length32 repl then
    match n with
    | O => (dest, status)
    | S n' =>
        match replIter m repl replIdx dest status with
        | ReplNext replIdx dest => replLoop n' m repl replIdx dest status
        | ReplBreak dest status => (dest, status)
        end
    end
  else (dest, status).

(** RegexMatcher &RegexMatcher::appendReplacement(dest, replacement, status);
    the matcher itself is left as it is. *)
Definition appendReplacement (m : RegexMatcher) (dest repl : list Z) (status : UErrorCode)
  : list Z * UErrorCode :=
  if U_FAILURE status then (dest, status)
  else if negb (fMatch m) then (dest, U_REGEX_INVALID_STATE)
  else
    let len := fMatchStart m - fLastMatchEnd m in
    let dest := if 0 <? len then dest ++ substr (fInput m) (fLastMatchEnd m) len else dest in
    replLoop (length repl) m repl 0 dest status.

(** for (reset(); find(); ) { appendReplacement(...); if (U_FAILURE(status)) break; } *)
Fixpoint replaceAll_loop (n : nat) (fuel : nat) (m : RegexMatcher)
         (dest repl : list Z) (status : UErrorCode)
  : result (list Z * RegexMatcher * UErrorCode) :=
  match n with
  | O => OutOfFuel
  | S n' =>
      '(found, m) ← find fuel m;
      if (found : bool) then
        let '(dest, status) := appendReplacement m dest repl status in
        if U_FAILURE status then Ret (dest, m, status)
        else replaceAll_loop n' fuel m dest repl status
      else Ret (dest, m, status)
  end.

(** UnicodeString RegexMatcher::replaceAll(replacement, status) *)
Definition replaceAll (fuel : nat) (m : RegexMatcher) (repl : list Z) (status : UErrorCode)
  : result (list Z * RegexMatcher * UErrorCode) :=
  if U_FAILURE status then Ret (fInput m, m, status)
  else
    '(dest, m, status) ← replaceAll_loop fuel fuel (reset m) [] repl status;
    Ret (appendTail m dest, m, status).

(** UnicodeString RegexMatcher::replaceFirst(replacement, status) *)
Definition replaceFirst (fuel : nat) (m : RegexMatcher) (repl : list Z) (status : UErrorCode)
  : result (list Z * RegexMatcher * UErrorCode) :=
  if U_FAILURE status then Ret (fInput m, m, status)
  else
    '(found, m) ← find fuel (reset m);
    if negb (found : bool) then Ret (fInput m, m, status)
    else
      let '(dest, status) := appendReplacement m [] repl status in
      Ret (appendTail m dest, m, status).

End Engine.

(* ------------------------------------------------------------------------- *)
(** ** Sample data for concrete runs *)

(** Character properties of the Basic Latin block and of the combining
    diacritical marks U+0300..U+036F, as the Unicode database has them. *)
Definition sample_charType (c : Z) : Z :=
  if (0x30 <=? c) && (c <=? 0x39) then U_DECIMAL_DIGIT_NUMBER
  else if (0x61 <=? c) && (c <=? 0x7a) then U_LOWERCASE_LETTER
  else if (0x41 <=? c) && (c <=? 0x5a) then 1
  else if c =? 0x20 then U_SPACE_SEPARATOR
  else if ((0 <=? c) && (c <? 0x20)) || ((0x7f <=? c) && (c <=? 0x9f)) then U_CONTROL_CHAR
  else if (0x300 <=? c) && (c <=? 0x36f) then U_NON_SPACING_MARK
  else 0.

Definition sample_data : UnicodeData := {|
  u_charType := sample_charType;
  u_isdigit := fun c => sample_charType c =? U_DECIMAL_DIGIT_NUMBER;
  u_charDigitValue := fun c => if sample_charType c =? U_DECIMAL_DIGIT_NUMBER then c - 0x30 else -1
|}.

(** The word set \w restricted to Basic Latin: letters, digits, underscore. *)
Definition sample_wordSet : UnicodeSet := fun c =>
  ((0x30 <=? c) && (c <=? 0x39)) || ((0x61 <=? c) && (c <=? 0x7a))
  || ((0x41 <=? c) && (c <=? 0x5a)) || (c =? 0x5f).

Definition sample_staticSets (k : Z) : UnicodeSet :=
  if k =? URX_ISWORD_SET then sample_wordSet else fun _ => false.

(** A compiled pattern with [n] capture groups and no user sets. *)
Definition sample_pattern (code lit : list Z) (n : Z) : RegexPattern := {|
  fCompiledPat := code;
  fLiteralText := lit;
  fSets := [];
  fStaticSets := sample_staticSets;
  fNumCaptureGroups := n;
  fMaxCaptureDigits := 1
|}.

(** The head every compiled pattern starts with: a bottom frame whose
    continuation is the FAIL at index 2, so that backing out of the last
    alternative ends the attempt. *)
Definition prologue : list Z :=
  [URX_BUILD URX_STATE_SAVE 2; URX_BUILD URX_JMP 3; URX_BUILD URX_FAIL 0].

(** The patterns of the concrete runs, as a compiler lays them out. *)

(** [a] *)
Definition pat_a : RegexPattern :=
  sample_pattern (prologue ++ [URX_BUILD URX_ONECHAR 0x61; URX_BUILD URX_END 0]) [] 0.

(** [a] without the head of a compiled pattern: no bottom frame. *)
Definition pat_a_bare : RegexPattern :=
  sample_pattern [URX_BUILD URX_ONECHAR 0x61; URX_BUILD URX_END 0] [] 0.

(** The empty pattern: it matches the empty string everywhere. *)
Definition pat_empty : RegexPattern :=
  sample_pattern (prologue ++ [URX_BUILD URX_END 0]) [] 0.

(** [\b] *)
Definition pat_wordb : RegexPattern :=
  sample_pattern (prologue ++ [URX_BUILD URX_BACKSLASH_B 0; URX_BUILD URX_END 0]) [] 0.

(** [^.$] *)
Definition pat_line : RegexPattern :=
  sample_pattern (prologue ++ [URX_BUILD URX_CARET 0; URX_BUILD URX_DOTANY 0;
                               URX_BUILD URX_DOLLAR 0; URX_BUILD URX_END 0]) [] 0.

(** [(a)(b)] *)
Definition pat_ab : RegexPattern :=
  sample_pattern
    (prologue ++ [URX_BUILD URX_START_CAPTURE 1; URX_BUILD URX_ONECHAR 0x61;
                  URX_BUILD URX_END_CAPTURE 1; URX_BUILD URX_START_CAPTURE 2;
                  URX_BUILD URX_ONECHAR 0x62; URX_BUILD URX_END_CAPTURE 2;
                  URX_BUILD URX_END 0]) [] 2.

(** [(a)|(b)] *)
Definition pat_a_or_b : RegexPattern :=
  sample_pattern
    (prologue ++ [URX_BUILD URX_STATE_SAVE 8; URX_BUILD URX_START_CAPTURE 1;
                  URX_BUILD URX_ONECHAR 0x61; URX_BUILD URX_END_CAPTURE 1;
                  URX_BUILD URX_JMP 11; URX_BUILD URX_START_CAPTURE 2;
                  URX_BUILD URX_ONECHAR 0x62; URX_BUILD URX_END_CAPTURE 2;
                  URX_BUILD URX_END 0]) [] 2.

(** [abc], a literal string *)
Definition pat_abc : RegexPattern :=
  sample_pattern (prologue ++ [URX_BUILD URX_STRING 0; URX_BUILD URX_STRING_LEN 3;
                               URX_BUILD URX_END 0]) [0x61; 0x62; 0x63] 0.

(** [(.)(.)] *)
Definition pat_dot_dot : RegexPattern :=
  sample_pattern
    (prologue ++ [URX_BUILD URX_START_CAPTURE 1; URX_BUILD URX_DOTANY 0;
                  URX_BUILD URX_END_CAPTURE 1; URX_BUILD URX_START_CAPTURE 2;
                  URX_BUILD URX_DOTANY 0; URX_BUILD URX_END_CAPTURE 2;
                  URX_BUILD URX_END 0]) [] 2.

(** [\X] *)
Definition pat_X : RegexPattern :=
  sample_pattern (prologue ++ [URX_BUILD URX_BACKSLASH_X 0; URX_BUILD URX_END 0]) [] 0.

(** [.] in dot-matches-all mode *)
Definition pat_dotall : RegexPattern :=
  sample_pattern (prologue ++ [URX_BUILD URX_DOTANY_ALL 0; URX_BUILD URX_END 0]) [] 0.

(** What a search observes: the answer and the bounds of the match. *)
Definition outcome (r : result (bool * RegexMatcher)) : option (bool * Z * Z) :=
  match r with
  | Ret (b, m) => Some (b, fMatchStart m, fMatchEnd m)
  | _ => None
  end.

(** What a replacement observes: the string and the status. *)
Definition replaced (r : result (list Z * RegexMatcher * UErrorCode))
  : option (list Z * UErrorCode) :=
  match r with
  | Ret (dest, _, status) => Some (dest, status)
  | _ => None
  end.

(** The matcher a call that returns leaves behind ([m] itself otherwise). *)
Definition state_after (m : RegexMatcher) (r : result RegexMatcher) : RegexMatcher :=
  match r with Ret m' => m' | _ => m end.

(** The subject "a b" under [\b]. *)
Definition m_wordb : RegexMatcher := matcher pat_wordb [0x61; 0x20; 0x62].

(** The subject "a" under [a], before and after MatchAt(0). *)
Definition m_a : RegexMatcher := matcher pat_a [0x61].
Definition m_a_matched : RegexMatcher :=
  state_after m_a (@MatchAt sample_data 8 m_a 0 U_ZERO_ERROR).

(** The subject "b" under [a]: at the ONECHAR that fails, above the bottom
    frame, and after the backTrack that follows. *)
Definition m_b_at_onechar : RegexMatcher := stateSave (matcher pat_a [0x62]) 2 0.
Definition m_b_backtracked : RegexMatcher := set_stack m_b_at_onechar [].

(** The subject "b" under the bare [a]: no frame on the stack. *)
Definition m_b_bare : RegexMatcher := matcher pat_a_bare [0x62].

(** The subject "a" under the empty pattern, and the empty subject. *)
Definition m_empty_pat : RegexMatcher := matcher pat_empty [0x61].
Definition m_empty_input : RegexMatcher := matcher pat_empty [].
Definition m_empty_input_matched : RegexMatcher :=
  state_after m_empty_input (@MatchAt sample_data 8 (reset m_empty_input) 0 U_ZERO_ERROR).

(** The subject "ab" under [(a)(b)], before and after matches(). *)
Definition m_ab : RegexMatcher := matcher pat_ab [0x61; 0x62].
Definition m_ab_matched : RegexMatcher :=
  state_after m_ab (@MatchAt sample_data 16 (reset m_ab) 0 U_ZERO_ERROR).

(** The subject "b" under [(a)|(b)] after matches(): group 1 took no part. *)
Definition m_a_or_b_matched : RegexMatcher :=
  state_after (matcher pat_a_or_b [0x62])
              (@MatchAt sample_data 16 (reset (matcher pat_a_or_b [0x62])) 0 U_ZERO_ERROR).

(** The subject "a\n" under [^.$]. *)
Definition m_line : RegexMatcher := matcher pat_line [0x61; 0x0a].

(** The replacement text "x$1y$7z". *)
Definition repl_x1y7z : list Z := [0x78; DOLLARSIGN; 0x31; 0x79; DOLLARSIGN; 0x37; 0x7a].

(** const UnicodeString &RegexMatcher::input() const *)
Definition input (m : RegexMatcher) : list Z := fInput m.

(** const RegexPattern &RegexMatcher::pattern() const *)
Definition pattern (m : RegexMatcher) : RegexPattern := fPattern m.

(** [\W], the negated word set *)
Definition pat_nonword : RegexPattern :=
  sample_pattern
    (prologue ++ [URX_BUILD URX_STATIC_SETREF (Z.lor URX_NEG_SET URX_ISWORD_SET);
                  URX_BUILD URX_END 0]) [] 0.

(** The empty subject under [\W]. *)
Definition m_nonword_empty : RegexMatcher := matcher pat_nonword [].

(** The subject "a", U+0301, " " under [\b]: a letter with a combining
    acute accent, then a space. *)
Definition m_mark : RegexMatcher := matcher pat_wordb [0x61; 0x301; 0x20].

(** The subject "b" under [a], before and after a find() that fails. *)
Definition m_b : RegexMatcher := matcher pat_a [0x62].
Definition m_b_searched : RegexMatcher :=
  match @find sample_data 8 (reset m_b) with Ret (_, m') => m' | _ => m_b end.

(* ------------------------------------------------------------------------- *)
(** ** Vocabulary of the statements *)

(** The fields a round of the interpreter never writes. *)
Definition same_binding (m m' : RegexMatcher) : Prop :=
  fPattern m' = fPattern m /\ fInput m' = fInput m
  /\ fInputLength m' = fInputLength m /\ fMatch m' = fMatch m
  /\ fMatchStart m' = fMatchStart m /\ fMatchEnd m' = fMatchEnd m
  /\ fLastMatchEnd m' = fLastMatchEnd m.

(** The number of cells on the backtrack stack. *)
Definition depth (m : RegexMatcher) : Z := Z.of_nat (length (fBackTrackStack m)).

(** The DOLLAR anchor as the specification words it: succeed at the end of
    the input, or one unit before the end when the code point there is a
    line terminator, or two units before the end when the last two code
    units are CR LF; fail anywhere else. *)
Definition DOLLAR_spec (input : list Z) (inputIdx inputLength : Z) : bool :=
  (inputIdx =? inputLength)
  || ((inputIdx =? inputLength - 1) && isLineTerminator (char32At input inputIdx))
  || ((inputIdx =? inputLength - 2)
      && (charAt input inputIdx =? 0x0d) && (charAt input (inputIdx + 1) =? 0x0a)).

(** The text between the previous match and this one, which
    appendReplacement copies to [dest] before it reads the replacement. *)
Definition betweenText (m : RegexMatcher) : list Z :=
  if 0 <? fMatchStart m - fLastMatchEnd m
  then substr (fInput m) (fLastMatchEnd m) (fMatchStart m - fLastMatchEnd m)
  else [].

(** [replReaches m repl status i d i' d']: the scan of the replacement text
    that is at the head of its loop with replIdx = [i] and dest = [d] comes
    back to the head of the loop with replIdx = [i'] and dest = [d']. *)
Inductive replReaches `{UnicodeData} (m : RegexMatcher) (repl : list Z) (status : UErrorCode)
  : Z -> list Z -> Z -> list Z -> Prop :=
| replReaches_here i d : replReaches m repl status i d i d
| replReaches_round i d i1 d1 i2 d2 :
    i < length32 repl ->
    replIter m repl i d status = ReplNext i1 d1 ->
    replReaches m repl status i1 d1 i2 d2 ->
    replReaches m repl status i d i2 d2.

(** A matcher on the same pattern and subject as [m]. *)
Definition same_subject (m m' : RegexMatcher) : Prop :=
  fPattern m' = fPattern m /\ fInput m' = fInput m
  /\ fInputLength m' = fInputLength m.

(** The stack is a pile of frames of [size] cells whose saved input index,
    the top cell, is a position of the subject. *)
Inductive frames_in_range (size len : Z) : list Z -> Prop :=
| frames_none : frames_in_range size len []
| frames_push stk fr i :
    frames_in_range size len stk ->
    Z.of_nat (length (fr ++ [i])) = size ->
    0 <= i <= len ->
    frames_in_range size len (stk ++ fr ++ [i]).

(** [rounds m i p pushes pops b m' i']: the dispatch loop entered with the
    matcher [m], inputIdx [i] and patIdx [p] comes to breakFromLoop with
    isMatch [b], the matcher [m'] and inputIdx [i'], after [pushes] rounds
    that dispatched a STATE_SAVE, [pops] rounds that called backTrack, and
    any number of rounds that left the stack as it was. *)
Inductive rounds `{UnicodeData}
  : RegexMatcher -> Z -> Z -> nat -> nat -> bool -> RegexMatcher -> Z -> Prop :=
| rounds_break m i p b m' i' :
    MatchAt_step m i p = Break b m' i' ->
    rounds m i p 0 0 b m' i'
| rounds_STATE_SAVE m i p op pushes pops b m' i' :
    0 <= p ->
    fCompiledPat (fPattern m) !! Z.to_nat p = Some op ->
    URX_TYPE op = Some URX_STATE_SAVE ->
    rounds (stateSave m (URX_VAL op) i) i (p + 1) pushes pops b m' i' ->
    rounds m i p (S pushes) pops b m' i'
| rounds_backTrack m i p m1 i1 p1 pushes pops b m' i' :
    MatchAt_step m i p = doBackTrack m ->
    backTrack m = Some (m1, i1, p1) ->
    rounds m1 i1 p1 pushes pops b m' i' ->
    rounds m i p pushes (S pops) b m' i'
| rounds_other m i p m1 i1 p1 pushes pops b m' i' :
    MatchAt_step m i p = Next m1 i1 p1 ->
    fBackTrackStack m1 = fBackTrackStack m ->
    rounds m1 i1 p1 pushes pops b m' i' ->
    rounds m i p pushes pops b m' i'.

(** A capture slot or a saved cell: -1 (no part) or a position of the
    subject. *)
Definition cell_ok (len c : Z) : Prop := -1 <= c <= len.

(** The stack is a pile of frames as STATE_SAVE lays them out: the capture
    cells, all [cell_ok], then a pattern index, then an input position
    inside the subject. *)
Inductive frames_ok (size len : Z) : list Z -> Prop :=
| frames_ok_none : frames_ok size len []
| frames_ok_push stk caps p i :
    frames_ok size len stk ->
    Forall (cell_ok len) caps ->
    Z.of_nat (length caps) + 2 = size ->
    0 <= i <= len ->
    frames_ok size len (stk ++ caps ++ [p; i]).

(** The state of a matcher that the public operations keep: the input
    length is the length of the subject, the stack is a pile of whole
    frames with their positions inside the subject, the capture vectors
    have N+1 slots that are -1 or positions of the subject, and the bounds
    of the match are positions of the subject. *)
Record matcher_ok (m : RegexMatcher) : Prop := {
  ok_length  : fInputLength m = length32 (fInput m);
  ok_groups  : 0 <= fNumCaptureGroups (fPattern m);
  ok_stack   : frames_ok (fCaptureStateSize (fPattern m)) (fInputLength m) (fBackTrackStack m);
  ok_nstarts : Z.of_nat (length (fCaptureStarts m)) = fNumCaptureGroups (fPattern m) + 1;
  ok_nends   : Z.of_nat (length (fCaptureEnds m)) = fNumCaptureGroups (fPattern m) + 1;
  ok_starts  : Forall (cell_ok (fInputLength m)) (fCaptureStarts m);
  ok_ends    : Forall (cell_ok (fInputLength m)) (fCaptureEnds m);
  ok_mstart  : 0 <= fMatchStart m <= fInputLength m;
  ok_mend    : 0 <= fMatchEnd m <= fInputLength m;
  ok_mlast   : 0 <= fLastMatchEnd m <= fInputLength m
}.

(** Every match attempt on the subject of [m] returns, and a successful
    attempt is never empty: it ends after its start position.  The attempts
    are those of every matcher in order on the same pattern and subject,
    whatever its stack and its capture vectors hold. *)
Definition attempts_return_nonempty `{UnicodeData} (m : RegexMatcher) : Prop :=
  forall m' p,
    same_subject m m' ->
    matcher_ok m' ->
    0 <= p < fInputLength m ->
    exists fuel m'',
      MatchAt fuel m' p U_ZERO_ERROR = Ret m''
      /\ (fMatch m'' = true -> p < fMatchEnd m'').

(** The stack is a pile of frames of [size] cells whose saved input index
    is at or after [lo]. *)
Inductive frames_at_or_after (size lo : Z) : list Z -> Prop :=
| frames_after_none : frames_at_or_after size lo []
| frames_after_push stk fr i :
    frames_at_or_after size lo stk ->
    Z.of_nat (length (fr ++ [i])) = size ->
    lo <= i ->
    frames_at_or_after size lo (stk ++ fr ++ [i]).

(** The opcodes that take a character of the subject: ONECHAR, SETREF,
    DOTANY, DOTANY_ALL, BACKSLASH_D, BACKSLASH_X, and STATIC_SETREF without
    the negation flag. *)
Definition takes_a_char (op : Z) : bool :=
  match URX_TYPE op with
  | Some URX_ONECHAR | Some URX_SETREF | Some URX_DOTANY | Some URX_DOTANY_ALL
  | Some URX_BACKSLASH_D | Some URX_BACKSLASH_X => true
  | Some URX_STATIC_SETREF => negb (Z.land (URX_VAL op) URX_NEG_SET =? URX_NEG_SET)
  | _ => false
  end.

(** The code unit at [i] is no surrogate: it is a code point by itself. *)
Definition single_unit (s : list Z) (i : Z) : Prop :=
  U16_IS_LEAD (charAt s i) = false /\ U16_IS_TRAIL (charAt s i) = false.

(** A text written as a replacement that stands for itself: a backslash
    before every backslash and every dollar sign. *)
Definition escape (t : list Z) : list Z :=
  flat_map (fun c => if (c =? BACKSLASH) || (c =? DOLLARSIGN) then [BACKSLASH; c] else [c]) t.

(* ========================================================================= *)
(** * Properties *)

(** ** The backtrack frame: STATE_SAVE and backTrack *)

Lemma elementAti_lookup (v : list Z) (i : nat) :
  elementAti v (Z.of_nat i) = default 0 (v !! i).
Proof.
  unfold elementAti. destruct (Z.ltb_spec (Z.of_nat i) 0); [lia|].
  by rewrite Nat2Z.id.
Qed.

Lemma length_saveCaptures (n : nat) (cs ce : list Z) :
  length (saveCaptures n cs ce) = (2 * n)%nat.
Proof. induction n as [|n IH]; simpl; [done|]. rewrite IH. lia. Qed.

Lemma popBlock_app (stk block : list Z) :
  popBlock (stk ++ block) (Z.of_nat (length block)) = Some (stk, block).
Proof.
  unfold popBlock. rewrite length_app, Nat2Z.id.
  replace (length stk + length block - length block)%nat with (length stk) by lia.
  rewrite take_app_length, drop_app_length.
  destruct (Z.leb_spec 0 (Z.of_nat (length block))); [|lia].
  destruct (Z.leb_spec (Z.of_nat (length block)) (Z.of_nat (length stk + length block)));
    [done|lia].
Qed.

Lemma popBlock_Some (stk rest sp : list Z) (size : Z) :
  popBlock stk size = Some (rest, sp) ->
  0 <= size /\ stk = rest ++ sp /\ Z.of_nat (length sp) = size.
Proof.
  unfold popBlock.
  destruct (Z.leb_spec 0 size); simpl; [|done].
  destruct (Z.leb_spec size (Z.of_nat (length stk))); [|done].
  intros [= <- <-]. rewrite take_drop, length_drop. split_and!; [done|done|lia].
Qed.

Lemma popBlock_None (stk : list Z) (size : Z) :
  Z.of_nat (length stk) < size -> popBlock stk size = None.
Proof.
  intros Hlt. unfold popBlock.
  destruct (Z.leb_spec size (Z.of_nat (length stk))); [lia|].
  by rewrite andb_false_r.
Qed.

(** What the restore loop of backTrack leaves in the capture vectors when
    it reads the cells that the save loop of STATE_SAVE wrote. *)
Lemma restoreCaptures_saveCaptures (n : nat) (cs ce cs' ce' rest : list Z) :
  exists cs2 ce2,
    restoreCaptures n cs' ce' (saveCaptures n cs ce ++ rest) = Some (cs2, ce2, rest)
    /\ length cs2 = length cs' /\ length ce2 = length ce'
    /\ (forall j, (1 <= j <= n)%nat -> (j < length cs')%nat ->
                  cs2 !! j = Some (default 0 (cs !! j)))
    /\ (forall j, (1 <= j <= n)%nat -> (j < length ce')%nat ->
                  ce2 !! j = Some (default 0 (ce !! j)))
    /\ (forall j, (j = 0 \/ n < j)%nat -> cs2 !! j = cs' !! j)
    /\ (forall j, (j = 0 \/ n < j)%nat -> ce2 !! j = ce' !! j).
Proof.
  revert cs' ce'. induction n as [|n IH]; intros cs' ce'.
  - exists cs', ce'. simpl. split_and!; try done; intros; lia.
  - cbn [saveCaptures restoreCaptures app].
    destruct (IH (<[S n := elementAti cs (Z.of_nat (S n))]> cs')
                 (<[S n := elementAti ce (Z.of_nat (S n))]> ce'))
      as (cs2 & ce2 & Heq & Hlc & Hle & Hcs & Hce & Hcs' & Hce').
    exists cs2, ce2. rewrite !length_insert in *.
    split_and!; try done.
    + intros j Hj Hlt. destruct (decide (j = S n)) as [->|Hne].
      * rewrite Hcs' by lia. rewrite list_lookup_insert_eq by done.
        by rewrite elementAti_lookup.
      * apply Hcs; lia.
    + intros j Hj Hlt. destruct (decide (j = S n)) as [->|Hne].
      * rewrite Hce' by lia. rewrite list_lookup_insert_eq by done.
        by rewrite elementAti_lookup.
      * apply Hce; lia.
    + intros j Hj. rewrite Hcs' by lia. apply list_lookup_insert_ne. lia.
    + intros j Hj. rewrite Hce' by lia. apply list_lookup_insert_ne. lia.
Qed.

Lemma restoreCaptures_length (n : nat) (cs ce sp cs2 ce2 sp2 : list Z) :
  restoreCaptures n cs ce sp = Some (cs2, ce2, sp2) ->
  length cs2 = length cs /\ length ce2 = length ce.
Proof.
  revert cs ce sp. induction n as [|n IH]; intros cs ce sp; simpl.
  - by intros [= -> -> ->].
  - destruct sp as [|s [|e sp']]; try done.
    intros Hr. apply IH in Hr. by rewrite !length_insert in Hr.
Qed.

Lemma fCaptureStateSize_frame (m : RegexMatcher) (opValue inputIdx : Z) :
  0 <= fNumCaptureGroups (fPattern m) ->
  Z.of_nat (length (saveCaptures (Z.to_nat (fNumCaptureGroups (fPattern m)))
                                 (fCaptureStarts m) (fCaptureEnds m)
                    ++ [opValue; inputIdx]))
  = fCaptureStateSize (fPattern m).
Proof.
  intros HN. rewrite length_app, length_saveCaptures. unfold fCaptureStateSize.
  simpl. lia.
Qed.

(** [C5] STATE_SAVE(target) followed by backTrack, with no stack operation
    in between (capture slots and input position may have changed), puts
    every captureStarts[g] and captureEnds[g], g in 1..N, back to its value
    at the STATE_SAVE, gives inputIdx its value at the STATE_SAVE and makes
    patIdx the target; the stack is the one from before the STATE_SAVE. *)
Theorem stateSave_backTrack_roundtrip
        (m m' : RegexMatcher) (target inputIdx : Z) :
  0 <= fNumCaptureGroups (fPattern m) ->
  fPattern m' = fPattern m ->
  fBackTrackStack m' = fBackTrackStack (stateSave m target inputIdx) ->
  fNumCaptureGroups (fPattern m) < Z.of_nat (length (fCaptureStarts m')) ->
  fNumCaptureGroups (fPattern m) < Z.of_nat (length (fCaptureEnds m')) ->
  exists m2,
    backTrack m' = Some (m2, inputIdx, target)
    /\ fBackTrackStack m2 = fBackTrackStack m
    /\ same_binding m' m2
    /\ forall g, 1 <= g <= fNumCaptureGroups (fPattern m) ->
         elementAti (fCaptureStarts m2) g = elementAti (fCaptureStarts m) g
         /\ elementAti (fCaptureEnds m2) g = elementAti (fCaptureEnds m) g.
Proof.
  intros HN Hpat Hstk Hls Hle.
  unfold backTrack. rewrite Hstk, Hpat. unfold stateSave, reserveBlock. simpl.
  rewrite <- (fCaptureStateSize_frame m target inputIdx HN), popBlock_app.
  set (n := Z.to_nat (fNumCaptureGroups (fPattern m))).
  destruct (restoreCaptures_saveCaptures n (fCaptureStarts m) (fCaptureEnds m)
              (fCaptureStarts m') (fCaptureEnds m') [target; inputIdx])
    as (cs2 & ce2 & Heq & _ & _ & Hcs & Hce & _).
  rewrite Heq. eexists. split_and!; [done|done|by repeat split|].
  intros g Hg. replace g with (Z.of_nat (Z.to_nat g)) by lia.
  rewrite !elementAti_lookup. simpl.
  rewrite Hcs, Hce by lia. done.
Qed.


(** ** Invariants of one round of the dispatch loop *)

Lemma same_binding_refl m : same_binding m m.
Proof. by repeat split. Qed.

Lemma same_binding_trans m1 m2 m3 :
  same_binding m1 m2 -> same_binding m2 m3 -> same_binding m1 m3.
Proof. unfold same_binding. intros; destruct_and!; split_and!; congruence. Qed.

Lemma backTrack_inv m m' i p :
  backTrack m = Some (m', i, p) ->
  same_binding m m'
  /\ depth m' = depth m - fCaptureStateSize (fPattern m)
  /\ length (fCaptureStarts m') = length (fCaptureStarts m)
  /\ length (fCaptureEnds m') = length (fCaptureEnds m).
Proof.
  unfold backTrack.
  destruct (popBlock _ _) as [[rest sp]|] eqn:Hpop; [|done].
  destruct (restoreCaptures _ _ _ _) as [[[cs ce] [|p' [|i' sp']]]|] eqn:Hr; try done.
  intros [= <- <- <-].
  apply popBlock_Some in Hpop as (Hsz & Hstk & Hlen).
  apply restoreCaptures_length in Hr as [Hcs Hce].
  split_and!; [by repeat split| |done|done].
  unfold depth. simpl. rewrite Hstk, length_app. lia.
Qed.

Lemma stateSave_inv m v i :
  0 <= fNumCaptureGroups (fPattern m) ->
  same_binding m (stateSave m v i)
  /\ depth (stateSave m v i) = depth m + fCaptureStateSize (fPattern m)
  /\ fCaptureStarts (stateSave m v i) = fCaptureStarts m
  /\ fCaptureEnds (stateSave m v i) = fCaptureEnds m.
Proof.
  intros HN. split_and!; [by repeat split| |done|done].
  unfold depth, stateSave, reserveBlock. simpl.
  rewrite length_app, Nat2Z.inj_add, fCaptureStateSize_frame by done. done.
Qed.

Section StepInv.
Context `{UnicodeData}.

Ltac step_cases :=
  unfold MatchAt_step, doBackTrack;
  repeat (case_match; try done).

Lemma MatchAt_step_Break m i p b m' i' :
  MatchAt_step m i p = Break b m' i' -> m' = m /\ i' = i.
Proof. step_cases; intros [= <- <- <-]; done. Qed.

Lemma MatchAt_step_Next m i p m' i' p' :
  0 <= fNumCaptureGroups (fPattern m) ->
  MatchAt_step m i p = Next m' i' p' ->
  same_binding m m'
  /\ (exists d, (d = -1 \/ d = 0 \/ d = 1)
                /\ depth m' = depth m + d * fCaptureStateSize (fPattern m)).
Proof.
  intros HN. step_cases; intros [= <- <- <-];
    try (split; [by repeat split | exists 0; split; [tauto | unfold depth; simpl; lia]]);
    try (match goal with
         | Hb : backTrack _ = Some _ |- _ =>
             apply backTrack_inv in Hb as (Hsb & Hd & _); split; [done|];
             exists (-1); split; [tauto | lia]
         end).
  match goal with
  | |- context [stateSave m ?v i] =>
      destruct (stateSave_inv m v i HN) as (Hsb & Hd & _)
  end.
  split; [done|]. exists 1. split; [tauto | lia].
Qed.

Lemma MatchAt_loop_inv fuel m i p b m' i' :
  0 <= fNumCaptureGroups (fPattern m) ->
  MatchAt_loop fuel m i p = Ret (b, m', i') ->
  same_binding m m'
  /\ exists k, depth m' = depth m + k * fCaptureStateSize (fPattern m).
Proof.
  revert m i p. induction fuel as [|fuel IH]; intros m i p HN; simpl; [done|].
  destruct (MatchAt_step m i p) as [m1 i1 p1|b1 m1 i1|f] eqn:Hstep; [| |done].
  - intros Hloop.
    apply MatchAt_step_Next in Hstep as (Hsb & d & _ & Hd); [|done].
    assert (Hpat : fPattern m1 = fPattern m) by apply Hsb.
    apply IH in Hloop as (Hsb' & k & Hk); [|by rewrite Hpat].
    split; [by eapply same_binding_trans|].
    exists (k + d). rewrite Hk, Hd, Hpat. lia.
  - intros [= -> -> ->]. apply MatchAt_step_Break in Hstep as [-> _].
    split; [apply same_binding_refl|]. exists 0. lia.
Qed.

End StepInv.

(** ** MatchAt as a whole *)

Section Interpreter.
Context `{UnicodeData}.

Lemma MatchAt_Ret fuel m startIdx status m' :
  MatchAt fuel m startIdx status = Ret m' ->
  (U_FAILURE status = true /\ m' = m)
  \/ (U_FAILURE status = false
      /\ exists isMatch m1 inputIdx,
           MatchAt_loop fuel (set_starts m (clearStarts (fPattern m) (fCaptureStarts m)))
                        startIdx 0 = Ret (isMatch, m1, inputIdx)
           /\ m' = finishMatch isMatch m1 startIdx inputIdx).
Proof.
  unfold MatchAt. destruct (U_FAILURE status); [intros [= <-]; by left|].
  destruct (MatchAt_loop _ _ _ _) as [[[b m1] i]| |] eqn:Hloop; simpl; try done.
  intros [= <-]. right. split; [done|]. by exists b, m1, i.
Qed.

Lemma depth_finishMatch b m s i : depth (finishMatch b m s i) = depth m.
Proof. by destruct b. Qed.

(** What a round that goes on does to the stack: it is the dispatch of a
    STATE_SAVE, or a call of backTrack, or the stack is as it was. *)
Lemma MatchAt_step_stack m i p m1 i1 p1 :
  MatchAt_step m i p = Next m1 i1 p1 ->
  (exists op, 0 <= p /\ fCompiledPat (fPattern m) !! Z.to_nat p = Some op
              /\ URX_TYPE op = Some URX_STATE_SAVE
              /\ m1 = stateSave m (URX_VAL op) i /\ i1 = i /\ p1 = p + 1)
  \/ (MatchAt_step m i p = doBackTrack m /\ backTrack m = Some (m1, i1, p1))
  \/ fBackTrackStack m1 = fBackTrackStack m.
Proof.
  intros Hstep.
  assert (Hbt : MatchAt_step m i p = doBackTrack m ->
                MatchAt_step m i p = doBackTrack m /\ backTrack m = Some (m1, i1, p1)).
  { intros Heq. split; [done|]. rewrite Heq in Hstep. unfold doBackTrack in Hstep.
    destruct (backTrack m) as [[[m2 i2] p2]|]; [|done]. by injection Hstep as -> -> ->. }
  revert Hstep Hbt. unfold MatchAt_step.
  destruct (Z.ltb_spec p 0) as [|Hp]; [done|].
  destruct (fCompiledPat (fPattern m) !! Z.to_nat p) as [op|] eqn:Hop; [|done].
  destruct (URX_TYPE op) as [[]|] eqn:Hty;
    repeat case_match; try done;
    try (intros _ Hbt; right; left; by apply Hbt);
    try (intros [= <- <- <-] _; right; right; done).
  intros [= <- <- <-] _. left. by exists op.
Qed.

Lemma stateSave_frame m v i :
  0 <= fNumCaptureGroups (fPattern m) ->
  exists frame,
    fBackTrackStack (stateSave m v i) = fBackTrackStack m ++ frame
    /\ Z.of_nat (length frame) = fCaptureStateSize (fPattern m).
Proof.
  intros HN. eexists. split; [reflexivity|]. by apply fCaptureStateSize_frame.
Qed.

Lemma backTrack_frame m m1 i p :
  backTrack m = Some (m1, i, p) ->
  exists frame,
    fBackTrackStack m = fBackTrackStack m1 ++ frame
    /\ Z.of_nat (length frame) = fCaptureStateSize (fPattern m).
Proof.
  unfold backTrack.
  destruct (popBlock _ _) as [[rest sp]|] eqn:Hpop; [|done].
  destruct (restoreCaptures _ _ _ _) as [[[cs ce] [|p' [|i' sp']]]|] eqn:Hr; try done.
  intros [= <- <- <-]. simpl.
  apply popBlock_Some in Hpop as (_ & Hstk & Hlen). by exists sp.
Qed.

Lemma MatchAt_loop_rounds fuel m i p b m' i' :
  MatchAt_loop fuel m i p = Ret (b, m', i') ->
  exists pushes pops, rounds m i p pushes pops b m' i'.
Proof.
  revert m i p. induction fuel as [|fuel IH]; intros m i p; simpl; [done|].
  destruct (MatchAt_step m i p) as [m1 i1 p1|b1 m1 i1|f] eqn:Hstep; [| |done].
  - intros Hloop. apply IH in Hloop as (pushes & pops & Hrounds).
    destruct (MatchAt_step_stack _ _ _ _ _ _ Hstep)
      as [(op & Hp & Hop & Hty & -> & -> & ->)|[[Hdo Hbt]|Hsame]].
    + exists (S pushes), pops. by eapply rounds_STATE_SAVE.
    + exists pushes, (S pops). by eapply rounds_backTrack.
    + exists pushes, pops. by eapply rounds_other.
  - intros [= -> -> ->]. exists 0%nat, 0%nat. by apply rounds_break.
Qed.

Lemma rounds_depth m i p pushes pops b m' i' :
  rounds m i p pushes pops b m' i' ->
  0 <= fNumCaptureGroups (fPattern m) ->
  fPattern m' = fPattern m
  /\ depth m' = depth m
                + (Z.of_nat pushes - Z.of_nat pops) * fCaptureStateSize (fPattern m).
Proof.
  induction 1 as [m i p b m' i' Hbr
                 |m i p op pushes pops b m' i' Hp Hop Hty _ IH
                 |m i p m1 i1 p1 pushes pops b m' i' Hdo Hbt _ IH
                 |m i p m1 i1 p1 pushes pops b m' i' Hstep Hsame _ IH]; intros HN.
  - apply MatchAt_step_Break in Hbr as [-> _]. split; [done|lia].
  - destruct (stateSave_inv m (URX_VAL op) i HN) as ((Hpat & _) & Hd & _).
    destruct IH as [Hp' Hd']; [by rewrite Hpat|].
    split; [congruence|]. rewrite Hd', Hd, Hpat. lia.
  - apply backTrack_inv in Hbt as ((Hpat & _) & Hd & _).
    destruct IH as [Hp' Hd']; [by rewrite Hpat|].
    split; [congruence|]. rewrite Hd', Hd, Hpat. lia.
  - apply MatchAt_step_Next in Hstep as ((Hpat & _) & _); [|done].
    destruct IH as [Hp' Hd']; [by rewrite Hpat|].
    split; [congruence|]. rewrite Hd', Hpat. unfold depth. rewrite Hsame. lia.
Qed.

Lemma MatchAt_step_STATE_SAVE m i p op :
  0 <= p ->
  fCompiledPat (fPattern m) !! Z.to_nat p = Some op ->
  URX_TYPE op = Some URX_STATE_SAVE ->
  MatchAt_step m i p = Next (stateSave m (URX_VAL op) i) i (p + 1).
Proof.
  intros Hp Hop Hty. unfold MatchAt_step.
  destruct (Z.ltb_spec p 0); [lia|]. by rewrite Hop, Hty.
Qed.

(** The counts of a run are its own: a round is a STATE_SAVE, a backTrack
    or a round that leaves the stack alone in one way only. *)
Lemma rounds_counts m i p pushes pops b m' i' pushes2 pops2 b2 m2 i2 :
  rounds m i p pushes pops b m' i' ->
  rounds m i p pushes2 pops2 b2 m2 i2 ->
  0 <= fNumCaptureGroups (fPattern m) ->
  pushes = pushes2 /\ pops = pops2.
Proof.
  intros Hrun. revert pushes2 pops2 b2 m2 i2.
  induction Hrun as [m i p b m' i' Hbr
                    |m i p op pushes pops b m' i' Hp Hop Hty _ IH
                    |m i p m1 i1 p1 pushes pops b m' i' Hdo Hbt _ IH
                    |m i p m1 i1 p1 pushes pops b m' i' Hstep Hsame _ IH];
    intros pushes2 pops2 b2 m2 i2 Hrun2 HN.
  - inversion Hrun2 as [| ? ? ? op2 ? ? ? ? ? Hp2 Hop2 Hty2 Hrest
                        | ? ? ? m3 i3 p3 ? ? ? ? ? Hdo2 Hbt2 Hrest
                        | ? ? ? m3 i3 p3 ? ? ? ? ? Hstep2 Hsame2 Hrest]; subst.
    + done.
    + rewrite (MatchAt_step_STATE_SAVE _ _ _ _ Hp2 Hop2 Hty2) in Hbr. done.
    + rewrite Hdo2 in Hbr. unfold doBackTrack in Hbr. by rewrite Hbt2 in Hbr.
    + by rewrite Hstep2 in Hbr.
  - pose proof (MatchAt_step_STATE_SAVE _ i _ _ Hp Hop Hty) as Hstep.
    destruct (stateSave_inv m (URX_VAL op) i HN) as ((Hpat & _) & Hd & _).
    assert (Hsize : 2 <= fCaptureStateSize (fPattern m)) by (unfold fCaptureStateSize; lia).
    inversion Hrun2 as [? ? ? ? ? ? Hbr2
                        | ? ? ? op2 ? ? ? ? ? Hp2 Hop2 Hty2 Hrest
                        | ? ? ? m3 i3 p3 ? ? ? ? ? Hdo2 Hbt2 Hrest
                        | ? ? ? m3 i3 p3 ? ? ? ? ? Hstep2 Hsame2 Hrest]; subst.
    + by rewrite Hstep in Hbr2.
    + rewrite Hop in Hop2. injection Hop2 as <-.
      destruct (IH _ _ _ _ _ Hrest) as [-> ->]; [by rewrite Hpat|done].
    + rewrite Hstep in Hdo2. unfold doBackTrack in Hdo2. rewrite Hbt2 in Hdo2.
      injection Hdo2 as <- _ _. apply backTrack_inv in Hbt2 as (_ & Hd2 & _).
      lia.
    + rewrite Hstep in Hstep2. injection Hstep2 as <- _ _.
      unfold depth in Hd. rewrite Hsame2 in Hd. lia.
  - pose proof (backTrack_inv _ _ _ _ Hbt) as ((Hpat & _) & Hd & _).
    assert (Hsize : 2 <= fCaptureStateSize (fPattern m)) by (unfold fCaptureStateSize; lia).
    assert (Hstep : MatchAt_step m i p = Next m1 i1 p1).
    { rewrite Hdo. unfold doBackTrack. by rewrite Hbt. }
    inversion Hrun2 as [? ? ? ? ? ? Hbr2
                        | ? ? ? op2 ? ? ? ? ? Hp2 Hop2 Hty2 Hrest
                        | ? ? ? m3 i3 p3 ? ? ? ? ? Hdo2 Hbt2 Hrest
                        | ? ? ? m3 i3 p3 ? ? ? ? ? Hstep2 Hsame2 Hrest]; subst.
    + by rewrite Hstep in Hbr2.
    + rewrite (MatchAt_step_STATE_SAVE _ i _ _ Hp2 Hop2 Hty2) in Hstep.
      injection Hstep as <- _ _.
      destruct (stateSave_inv m (URX_VAL op2) i HN) as (_ & Hd2 & _). lia.
    + rewrite Hbt in Hbt2. injection Hbt2 as <- <- <-.
      destruct (IH _ _ _ _ _ Hrest) as [-> ->]; [by rewrite Hpat|done].
    + rewrite Hstep in Hstep2. injection Hstep2 as <- _ _.
      unfold depth in Hd. rewrite Hsame2 in Hd. lia.
  - pose proof (MatchAt_step_Next _ _ _ _ _ _ HN Hstep) as ((Hpat & _) & _).
    assert (Hsize : 2 <= fCaptureStateSize (fPattern m)) by (unfold fCaptureStateSize; lia).
    inversion Hrun2 as [? ? ? ? ? ? Hbr2
                        | ? ? ? op2 ? ? ? ? ? Hp2 Hop2 Hty2 Hrest
                        | ? ? ? m3 i3 p3 ? ? ? ? ? Hdo2 Hbt2 Hrest
                        | ? ? ? m3 i3 p3 ? ? ? ? ? Hstep2 Hsame2 Hrest]; subst.
    + by rewrite Hstep in Hbr2.
    + rewrite (MatchAt_step_STATE_SAVE _ i _ _ Hp2 Hop2 Hty2) in Hstep.
      injection Hstep as <- _ _.
      destruct (stateSave_inv m (URX_VAL op2) i HN) as (_ & Hd2 & _).
      unfold depth in Hd2. rewrite Hsame in Hd2. lia.
    + rewrite Hdo2 in Hstep. unfold doBackTrack in Hstep. rewrite Hbt2 in Hstep.
      injection Hstep as <- _ _. apply backTrack_inv in Hbt2 as (_ & Hd2 & _).
      unfold depth in Hd2. rewrite Hsame in Hd2. lia.
    + rewrite Hstep in Hstep2. injection Hstep2 as <- <- <-.
      destruct (IH _ _ _ _ _ Hrest) as [-> ->]; [by rewrite Hpat|done].
Qed.

(** [C2, as amended] MatchAt never unwinds the backtrack stack.  Every
    round of the dispatch loop that goes on is the dispatch of a STATE_SAVE,
    which puts a frame of captureStateSize cells on top of the stack, or a
    call of backTrack, which takes the top captureStateSize cells off, or
    leaves the stack as it is; END and FAIL, which leave the loop, and the
    bookkeeping after the loop leave it as it is too.  So when MatchAt
    returns (every STATE_SAVE having got its cells: memory is unbounded
    here), the depth of the stack is the depth at the call plus
    captureStateSize times (rounds that dispatched a STATE_SAVE minus rounds
    that called backTrack), a difference that need not be zero; the two
    counts are those of the run and of no other way to read it. *)
Theorem MatchAt_depth_mod_frame fuel m startIdx status m' :
  0 <= fNumCaptureGroups (fPattern m) ->
  MatchAt fuel m startIdx status = Ret m' ->
  (exists pushes pops : nat,
     ((U_FAILURE status = true /\ m' = m /\ pushes = 0%nat /\ pops = 0%nat)
      \/ (U_FAILURE status = false
          /\ exists isMatch m1 i1,
               rounds (set_starts m (clearStarts (fPattern m) (fCaptureStarts m)))
                      startIdx 0 pushes pops isMatch m1 i1
               /\ m' = finishMatch isMatch m1 startIdx i1
               /\ fBackTrackStack m' = fBackTrackStack m1
               /\ (forall pushes2 pops2 isMatch2 m2 i2,
                     rounds (set_starts m (clearStarts (fPattern m) (fCaptureStarts m)))
                            startIdx 0 pushes2 pops2 isMatch2 m2 i2 ->
                     pushes2 = pushes /\ pops2 = pops)))
     /\ depth m' = depth m
                   + (Z.of_nat pushes - Z.of_nat pops) * fCaptureStateSize (fPattern m))
  /\ (forall m0 i p m1 i1 p1,
        MatchAt_step m0 i p = Next m1 i1 p1 ->
        (exists op, 0 <= p /\ fCompiledPat (fPattern m0) !! Z.to_nat p = Some op
                    /\ URX_TYPE op = Some URX_STATE_SAVE
                    /\ m1 = stateSave m0 (URX_VAL op) i /\ i1 = i /\ p1 = p + 1)
        \/ (MatchAt_step m0 i p = doBackTrack m0 /\ backTrack m0 = Some (m1, i1, p1))
        \/ fBackTrackStack m1 = fBackTrackStack m0)
  /\ (forall m0 i p isMatch m1 i1,
        MatchAt_step m0 i p = Break isMatch m1 i1 ->
        fBackTrackStack m1 = fBackTrackStack m0)
  /\ (forall m0 opValue i,
        0 <= fNumCaptureGroups (fPattern m0) ->
        exists frame,
          fBackTrackStack (stateSave m0 opValue i) = fBackTrackStack m0 ++ frame
          /\ Z.of_nat (length frame) = fCaptureStateSize (fPattern m0))
  /\ (forall m0 m1 i p,
        backTrack m0 = Some (m1, i, p) ->
        exists frame,
          fBackTrackStack m0 = fBackTrackStack m1 ++ frame
          /\ Z.of_nat (length frame) = fCaptureStateSize (fPattern m0)).
Proof.
  intros HN Hrun. split_and!.
  - apply MatchAt_Ret in Hrun as [[Hst ->]|(Hst & b & m1 & i & Hloop & ->)].
    + exists 0%nat, 0%nat. split; [by left|lia].
    + apply MatchAt_loop_rounds in Hloop as (pushes & pops & Hrounds).
      exists pushes, pops. split.
      * right. split; [done|]. exists b, m1, i. split_and!; [done|done|by destruct b|].
        intros pushes2 pops2 b2 m2 i2 Hrounds2.
        by apply (rounds_counts _ _ _ _ _ _ _ _ _ _ _ _ _ Hrounds2 Hrounds).
      * apply rounds_depth in Hrounds as [_ Hd]; [|done].
        rewrite depth_finishMatch, Hd. done.
  - intros m0 i p m1 i1 p1. apply MatchAt_step_stack.
  - intros m0 i p b m1 i1 Hbr. by apply MatchAt_step_Break in Hbr as [-> _].
  - intros m0 v i. apply stateSave_frame.
  - intros m0 m1 i p. apply backTrack_frame.
Qed.

Lemma backTrack_empty m :
  0 <= fNumCaptureGroups (fPattern m) ->
  fBackTrackStack m = [] -> backTrack m = None.
Proof.
  intros HN Hnil. unfold backTrack. rewrite popBlock_None; [done|].
  rewrite Hnil. unfold fCaptureStateSize. simpl. lia.
Qed.

Lemma MatchAt_step_Break_false m i p m' i' :
  MatchAt_step m i p = Break false m' i' ->
  0 <= p /\ m' = m /\ i' = i
  /\ exists op, fCompiledPat (fPattern m) !! Z.to_nat p = Some op
                /\ URX_TYPE op = Some URX_FAIL.
Proof.
  unfold MatchAt_step.
  destruct (Z.ltb_spec p 0); [done|].
  destruct (fCompiledPat (fPattern m) !! Z.to_nat p) as [op|] eqn:Hop; [|done].
  destruct (URX_TYPE op) as [[]|] eqn:Hty; unfold doBackTrack;
    repeat case_match; try done.
  intros [= <- <-]. split_and!; try done. by exists op.
Qed.

Lemma MatchAt_step_FAIL m i p op :
  0 <= p ->
  fCompiledPat (fPattern m) !! Z.to_nat p = Some op ->
  URX_TYPE op = Some URX_FAIL ->
  MatchAt_step m i p = Break false m i.
Proof.
  intros Hp Hop Hty. unfold MatchAt_step.
  destruct (Z.ltb_spec p 0); [lia|]. by rewrite Hop, Hty.
Qed.

(** [C3, as amended] backTrack has no test for an empty stack: with an
    empty stack there is no frame to pop, and the round that calls it reads
    a frame that is not there (a fault, not a failed match).  backTrack
    never ends the attempt itself: the round goes on at the pattern index
    of the popped frame.  So a round that calls backTrack ends the attempt
    with isMatch = false when the frame it pops holds the index of a FAIL
    (the bottom frame of a compiled pattern), and then the stack was not
    empty. *)
Theorem backTrack_fails_through_FAIL fuel m inputIdx patIdx m' inputIdx' patIdx' op :
  0 <= fNumCaptureGroups (fPattern m) ->
  MatchAt_step m inputIdx patIdx = doBackTrack m ->
  backTrack m = Some (m', inputIdx', patIdx') ->
  0 <= patIdx' ->
  fCompiledPat (fPattern m) !! Z.to_nat patIdx' = Some op ->
  URX_TYPE op = Some URX_FAIL ->
  MatchAt_loop (S (S fuel)) m inputIdx patIdx = Ret (false, m', inputIdx')
  /\ fBackTrackStack m <> []
  /\ (forall m0 isMatch m1 i1, doBackTrack m0 <> Break isMatch m1 i1)
  /\ (forall m0 m1 i1 p1,
        backTrack m0 = Some (m1, i1, p1) -> doBackTrack m0 = Next m1 i1 p1)
  /\ (forall m0,
        0 <= fNumCaptureGroups (fPattern m0) -> fBackTrackStack m0 = [] ->
        backTrack m0 = None /\ doBackTrack m0 = Abort StackUnderflow).
Proof.
  intros HN Hstep Hbt Hp Hop Hty. split_and!.
  - cbn [MatchAt_loop]. rewrite Hstep. unfold doBackTrack. rewrite Hbt.
    apply backTrack_inv in Hbt as ((Hpat & _) & _).
    rewrite (MatchAt_step_FAIL m' inputIdx' patIdx' op); [done|done| |done].
    by rewrite Hpat.
  - intros Hnil. by rewrite backTrack_empty in Hbt.
  - intros m0 b m1 i1. unfold doBackTrack.
    by destruct (backTrack m0) as [[[m2 i2] p2]|].
  - intros m0 m1 i1 p1 Hbt0. unfold doBackTrack. by rewrite Hbt0.
  - intros m0 HN0 Hnil. unfold doBackTrack. by rewrite backTrack_empty.
Qed.
End Interpreter.

(** ** The DOLLAR anchor *)

Section Dollar.
Context `{UnicodeData}.

Lemma U16_GET_SUPPLEMENTARY_ge (lead trail : Z) :
  U16_IS_LEAD lead = true -> U16_IS_TRAIL trail = true ->
  0x10000 <= U16_GET_SUPPLEMENTARY lead trail.
Proof.
  unfold U16_IS_LEAD, U16_IS_TRAIL, U16_GET_SUPPLEMENTARY.
  intros [Hl _]%andb_prop [Ht _]%andb_prop. lia.
Qed.

(** A code point below the surrogates is read by char32At exactly where the
    code unit itself is that value. *)
Lemma char32At_eqb_unit (s : list Z) (i c : Z) :
  0 <= c < 0xD800 -> (char32At s i =? c) = (charAt s i =? c).
Proof.
  intros Hc. unfold char32At.
  destruct ((0 <=? i) && (i <? length32 s)) eqn:Hrange.
  - destruct (U16_IS_LEAD (charAt s i)) eqn:Hlead.
    + assert ((charAt s i =? c) = false) as ->.
      { unfold U16_IS_LEAD in Hlead. lia. }
      destruct ((i + 1 <? length32 s) && U16_IS_TRAIL (charAt s (i + 1))) eqn:Hpair.
      * apply andb_prop in Hpair as [_ Htr].
        pose proof (U16_GET_SUPPLEMENTARY_ge _ _ Hlead Htr). lia.
      * unfold U16_IS_LEAD in Hlead. lia.
    + destruct (U16_IS_TRAIL (charAt s i)) eqn:Htrail; [|done].
      assert ((charAt s i =? c) = false) as ->.
      { unfold U16_IS_TRAIL in Htrail. lia. }
      destruct ((0 <? i) && U16_IS_LEAD (charAt s (i - 1))) eqn:Hpair.
      * apply andb_prop in Hpair as [_ Hld].
        pose proof (U16_GET_SUPPLEMENTARY_ge _ _ Hld Htrail). lia.
      * unfold U16_IS_TRAIL in Htrail. lia.
  - unfold charAt. destruct (Z.ltb_spec i 0); [done|].
    rewrite lookup_ge_None_2; [done|].
    unfold length32 in Hrange. lia.
Qed.

Lemma dollarTest_spec (input : list Z) (inputIdx : Z) :
  inputIdx <= length32 input ->
  dollarTest input inputIdx (length32 input)
  = DOLLAR_spec input inputIdx (length32 input).
Proof.
  intros Hle. unfold dollarTest, DOLLAR_spec.
  rewrite !char32At_eqb_unit by lia.
  destruct (Z.ltb_spec inputIdx (length32 input - 2)).
  { assert ((inputIdx =? length32 input) = false) as -> by lia.
    assert ((inputIdx =? length32 input - 1) = false) as -> by lia.
    assert ((inputIdx =? length32 input - 2) = false) as -> by lia.
    done. }
  destruct (Z.leb_spec (length32 input) inputIdx).
  { assert ((inputIdx =? length32 input) = true) as -> by lia. done. }
  assert ((inputIdx =? length32 input) = false) as -> by lia.
  destruct (Z.eqb_spec inputIdx (length32 input - 1)).
  { assert ((inputIdx =? length32 input - 2) = false) as -> by lia.
    simpl. by destruct (isLineTerminator _). }
  simpl. by destruct (inputIdx =? length32 input - 2), (charAt input inputIdx =? 13),
                     (charAt input (inputIdx + 1) =? 10).
Qed.

(** [C7] The DOLLAR opcode lets the match go on exactly when inputIdx is the
    input length, or is one less and the code point there is a line
    terminator, or is two less and the last two code units are CR LF; at
    every other position of the input it backtracks.  The early-exit tests of
    the code agree with this case-by-case definition. *)
Theorem DOLLAR_case_by_case (m : RegexMatcher) (inputIdx patIdx op : Z) :
  0 <= patIdx ->
  fCompiledPat (fPattern m) !! Z.to_nat patIdx = Some op ->
  URX_TYPE op = Some URX_DOLLAR ->
  inputIdx <= length32 (fInput m) ->
  MatchAt_step m inputIdx patIdx
  = (if DOLLAR_spec (fInput m) inputIdx (length32 (fInput m))
     then Next m inputIdx (patIdx + 1) else doBackTrack m)
  /\ (inputIdx < length32 (fInput m) - 2 ->
      MatchAt_step m inputIdx patIdx = doBackTrack m).
Proof.
  intros Hp Hop Hty Hle.
  assert (Hstep : MatchAt_step m inputIdx patIdx
                  = if dollarTest (fInput m) inputIdx (length32 (fInput m))
                    then Next m inputIdx (patIdx + 1) else doBackTrack m).
  { unfold MatchAt_step. destruct (Z.ltb_spec patIdx 0); [lia|].
    by rewrite Hop, Hty. }
  split.
  - by rewrite Hstep, dollarTest_spec.
  - intros Hfar. rewrite Hstep. unfold dollarTest.
    destruct (Z.ltb_spec inputIdx (length32 (fInput m) - 2)); [done|lia].
Qed.

End Dollar.

(** ** The matcher facade *)

Section Facade.
Context `{UnicodeData}.

Lemma MatchAt_step_binding m i p m' i' p' :
  MatchAt_step m i p = Next m' i' p' -> same_binding m m'.
Proof.
  unfold MatchAt_step, doBackTrack.
  repeat case_match; try done; intros [= <- <- <-]; try by repeat split.
  all: match goal with
       | Hb : backTrack _ = Some _ |- _ => by apply backTrack_inv in Hb as (Hsb & _)
       end.
Qed.

Lemma MatchAt_loop_binding fuel m i p b m' i' :
  MatchAt_loop fuel m i p = Ret (b, m', i') -> same_binding m m'.
Proof.
  revert m i p. induction fuel as [|fuel IH]; intros m i p; simpl; [done|].
  destruct (MatchAt_step m i p) as [m1 i1 p1|b1 m1 i1|f] eqn:Hstep; [| |done].
  - intros Hloop. apply MatchAt_step_binding in Hstep.
    apply IH in Hloop. by eapply same_binding_trans.
  - intros [= -> -> ->]. apply MatchAt_step_Break in Hstep as [-> _].
    apply same_binding_refl.
Qed.

(** What a call of MatchAt that returns has written. *)
Lemma MatchAt_result fuel m startIdx status m' :
  U_FAILURE status = false ->
  MatchAt fuel m startIdx status = Ret m' ->
  fPattern m' = fPattern m /\ fInput m' = fInput m
  /\ fInputLength m' = fInputLength m
  /\ (if fMatch m'
      then fMatchStart m' = startIdx /\ fLastMatchEnd m' = fMatchEnd m
      else fMatchStart m' = fMatchStart m /\ fMatchEnd m' = fMatchEnd m
           /\ fLastMatchEnd m' = fLastMatchEnd m).
Proof.
  intros Hst Hrun.
  apply MatchAt_Ret in Hrun as [[Hf _]|(_ & b & m1 & i & Hloop & ->)]; [congruence|].
  apply MatchAt_loop_binding in Hloop as (Hp & Hi & Hl & _ & Hs & He & Hlast).
  simpl in *. destruct b; simpl; split_and!; congruence.
Qed.

(** [C6] matches() resets the matcher, runs the interpreter at position 0
    and answers match && matchEnd == inputLength; hence when matches()
    answers true, matchStart is 0 and matchEnd is the input length. *)
Theorem matches_whole_input fuel m status :
  U_FAILURE status = false ->
  matches fuel m status
  = match MatchAt fuel (reset m) 0 status with
    | Ret m' => Ret (fMatch m' && (fMatchEnd m' =? fInputLength m'), m')
    | Fault f => Fault f
    | OutOfFuel => OutOfFuel
    end
  /\ forall m', matches fuel m status = Ret (true, m') ->
       fMatch m' = true /\ fMatchStart m' = 0 /\ fMatchEnd m' = fInputLength m'
       /\ fInputLength m' = fInputLength m.
Proof.
  intros Hst. unfold matches. rewrite Hst. split.
  - by destruct (MatchAt fuel (reset m) 0 status).
  - intros m'. destruct (MatchAt fuel (reset m) 0 status) as [m1| |] eqn:Hrun; try done.
    simpl. intros [= Hb ->].
    apply andb_prop in Hb as [Hm He].
    apply MatchAt_result in Hrun as (_ & _ & Hlen & Hres); [|done].
    rewrite Hm in Hres. destruct Hres as [Hs _].
    split_and!; [done|done|lia|done].
Qed.

(** [C8] start(g) and end(g) answer -1 with REGEX_INVALID_STATE when there
    is no match; with a match they answer -1 with INDEX_OUTOFBOUNDS when
    g < 0 or g > N; for a valid g they answer the bounds of the whole match
    when g = 0 and otherwise captureStarts[g] and the matching end, both -1
    for a group that took no part (captureStarts[g] = -1).  group(g) is the
    empty string for a group that took no part and otherwise the substring of
    the input over [start(g), end(g)). *)
Theorem start_end_group_contract (m : RegexMatcher) (g : Z) (status : UErrorCode) :
  U_FAILURE status = false ->
  let N := fNumCaptureGroups (fPattern m) in
  let s := elementAti (fCaptureStarts m) g in
  let e := elementAti (fCaptureEnds m) g in
  (fMatch m = false ->
     start m g status = (-1, U_REGEX_INVALID_STATE)
     /\ end_ m g status = (-1, U_REGEX_INVALID_STATE))
  /\ (fMatch m = true -> g < 0 \/ N < g ->
     start m g status = (-1, U_INDEX_OUTOFBOUNDS_ERROR)
     /\ end_ m g status = (-1, U_INDEX_OUTOFBOUNDS_ERROR))
  /\ (fMatch m = true -> g = 0 -> 0 <= N ->
     start m g status = (fMatchStart m, status)
     /\ end_ m g status = (fMatchEnd m, status)
     /\ (0 <= fMatchStart m ->
         group m g status
         = (substr (fInput m) (fMatchStart m) (fMatchEnd m - fMatchStart m), status)))
  /\ (fMatch m = true -> 1 <= g <= N ->
     start m g status = (s, status)
     /\ end_ m g status = ((if s =? -1 then -1 else e), status)
     /\ (s = -1 ->
         start m g status = (-1, status) /\ end_ m g status = (-1, status)
         /\ group m g status = ([], status))
     /\ (0 <= s -> group m g status = (substr (fInput m) s (e - s), status))).
Proof.
  intros Hst N s e. subst N s e. unfold group, start, end_. rewrite !Hst.
  split_and!.
  - by intros ->.
  - intros -> Hg. simpl.
    assert ((g <? 0) || (fNumCaptureGroups (fPattern m) <? g) = true) as -> by lia.
    done.
  - intros -> -> HN. simpl.
    assert ((fNumCaptureGroups (fPattern m) <? 0) = false) as -> by lia.
    simpl. rewrite Hst. split_and!; [done|done|].
    intros Hs. rewrite Hst.
    assert ((fMatchStart m <? 0) = false) as -> by lia. done.
  - intros -> Hg. simpl.
    assert ((g <? 0) || (fNumCaptureGroups (fPattern m) <? g) = false) as -> by lia.
    assert ((g =? 0) = false) as -> by lia.
    destruct (Z.eqb_spec (elementAti (fCaptureStarts m) g) (-1)) as [Hs|Hs]; simpl;
      rewrite Hst; (split; [done|]); (split; [done|]); split.
    + intros _. rewrite Hs. split_and!; try done. by rewrite Hst.
    + intros Hs'. lia.
    + intros Hs'. lia.
    + intros Hs'. rewrite ?Hst.
      assert ((elementAti (fCaptureStarts m) g <? 0) = false) as -> by lia. done.
Qed.

Lemma find_loop_empty n fuel m startPos :
  fInputLength m <= startPos -> find_loop n fuel m startPos = Ret (false, m).
Proof.
  intros Hle.
  assert ((startPos <? fInputLength m) = false) as Hlt by lia.
  destruct n; simpl; by rewrite Hlt.
Qed.

(** [C9] On an empty subject find() answers false for every pattern and
    every amount of interpreter fuel, none included: it never calls MatchAt.
    matches() and lookingAt() do call MatchAt at position 0 (without fuel
    they cannot answer) and answer true when that attempt succeeds on the
    empty string; so find() and matches() can disagree on an empty
    subject. *)
Theorem find_skips_empty_input fuel m status :
  fInputLength m = 0 ->
  0 <= fMatchEnd m ->
  U_FAILURE status = false ->
  find fuel m = Ret (false, m)
  /\ find 0 m = Ret (false, m)
  /\ matches 0 m status = OutOfFuel
  /\ lookingAt 0 m status = OutOfFuel
  /\ (forall m', MatchAt fuel (reset m) 0 status = Ret m' ->
                 fMatch m' = true -> fMatchEnd m' = 0 ->
                 matches fuel m status = Ret (true, m')
                 /\ lookingAt fuel m status = Ret (true, m')
                 /\ find fuel m' = Ret (false, m')).
Proof.
  intros Hlen Hend Hst.
  assert (Hfind : forall k m0, fInputLength m0 = 0 -> 0 <= fMatchEnd m0 ->
                               find k m0 = Ret (false, m0)).
  { intros k m0 Hl He. unfold find. apply find_loop_empty. lia. }
  split_and!; try by apply Hfind.
  - unfold matches, MatchAt. by rewrite Hst.
  - unfold lookingAt, MatchAt. by rewrite Hst.
  - intros m' Hrun Hm He.
    pose proof (MatchAt_result _ _ _ _ _ Hst Hrun) as (_ & _ & Hl & _).
    simpl in Hl. unfold matches, lookingAt. rewrite Hst, Hrun. simpl.
    rewrite Hm, He, Hl, Hlen. split_and!; [done|done|].
    apply Hfind; [by rewrite Hl|lia].
Qed.

End Facade.

(** ** Positions stay inside the subject *)

Lemma U16_NEXT_range s i len c i' :
  i < len -> U16_NEXT s i len = (c, i') -> i < i' <= len.
Proof.
  intros Hlt. unfold U16_NEXT.
  destruct (U16_IS_LEAD (charAt s i)); simpl; [|intros [= <- <-]; lia].
  destruct (Z.ltb_spec (i + 1) len); simpl; [|intros [= <- <-]; lia].
  destruct (U16_IS_TRAIL (charAt s (i + 1))); intros [= <- <-]; lia.
Qed.

Lemma moveIndex32_range s i : 0 <= moveIndex32 s i 1 <= length32 s.
Proof.
  unfold moveIndex32, length32. simpl.
  set (len := Z.of_nat (length s)).
  set (idx := if i <? 0 then 0 else if len <? i then len else i).
  assert (0 <= idx <= len) by (unfold idx, len; repeat case_match; lia).
  destruct (Z.ltb_spec idx len); [|lia].
  unfold U16_FWD_1.
  destruct (U16_IS_LEAD (charAt s idx)); simpl; [|lia].
  destruct (Z.ltb_spec (idx + 1) len); simpl; [|lia].
  destruct (U16_IS_TRAIL (charAt s (idx + 1))); lia.
Qed.

Lemma URX_VAL_nonneg op : 0 <= URX_VAL op.
Proof. unfold URX_VAL. apply Z.land_nonneg. right. lia. Qed.

Section Positions.
Context `{UnicodeData}.

Lemma skipCombining_range n m i :
  0 <= i <= length32 (fInput m) -> 0 <= skipCombining n m i <= length32 (fInput m).
Proof.
  revert i. induction n as [|n IH]; intros i Hi; simpl; [done|].
  destruct (negb _); [done|].
  pose proof (moveIndex32_range (fInput m) i).
  destruct (_ <=? _); [done|]. by apply IH.
Qed.

Lemma restoreCaptures_rest n cs ce sp cs' ce' sp' :
  restoreCaptures n cs ce sp = Some (cs', ce', sp') ->
  sp' = drop (2 * n) sp /\ (2 * n <= length sp)%nat.
Proof.
  revert cs ce sp. induction n as [|n IH]; intros cs ce sp; simpl.
  - intros [= _ _ <-]. split; [done|lia].
  - destruct sp as [|s [|e sp0]]; try done.
    intros Hr. apply IH in Hr as [-> Hle].
    replace (n + S (n + 0))%nat with (S (2 * n)) by lia. simpl. split; [done|lia].
Qed.

Lemma backTrack_frames m m' i p len :
  0 <= fNumCaptureGroups (fPattern m) ->
  frames_in_range (fCaptureStateSize (fPattern m)) len (fBackTrackStack m) ->
  backTrack m = Some (m', i, p) ->
  frames_in_range (fCaptureStateSize (fPattern m)) len (fBackTrackStack m')
  /\ 0 <= i <= len.
Proof.
  intros HN Hfr. unfold backTrack.
  destruct (popBlock _ _) as [[rest sp]|] eqn:Hpop; [|done].
  destruct (restoreCaptures _ _ _ _) as [[[cs ce] [|p' [|i' sp']]]|] eqn:Hr; try done.
  intros [= <- <- <-]. simpl.
  apply popBlock_Some in Hpop as (_ & Hstk & Hlen).
  apply restoreCaptures_rest in Hr as [Hsp Hle].
  inversion Hfr as [Hnil|stk fr i0 Hfr0 Hsize Hi0 Heq].
  - rewrite Hstk in Hnil. symmetry in Hnil. apply app_eq_nil in Hnil as [_ ->].
    simpl in Hlen. unfold fCaptureStateSize in Hlen. lia.
  - rewrite Hstk in Heq. apply app_inj_2 in Heq as [-> Hfr_eq]; [|lia].
    subst sp. split; [done|].
    assert (Hl2 : length (p' :: i' :: sp') = 2%nat).
    { rewrite Hsp, length_drop. unfold fCaptureStateSize in Hlen. lia. }
    destruct sp' as [|? ?]; [|simpl in Hl2; lia].
    assert (Hlast : list.last (fr ++ [i0]) = Some i0) by apply last_snoc.
    rewrite <- (take_drop (2 * Z.to_nat (fNumCaptureGroups (fPattern m))) (fr ++ [i0])) in Hlast.
    rewrite <- Hsp in Hlast. rewrite last_app in Hlast. simpl in Hlast.
    by injection Hlast as ->.
Qed.

Lemma stateSave_frames m v i len :
  0 <= fNumCaptureGroups (fPattern m) ->
  frames_in_range (fCaptureStateSize (fPattern m)) len (fBackTrackStack m) ->
  0 <= i <= len ->
  frames_in_range (fCaptureStateSize (fPattern m)) len (fBackTrackStack (stateSave m v i)).
Proof.
  intros HN Hfr Hi. unfold stateSave, reserveBlock. simpl.
  set (caps := saveCaptures _ _ _).
  replace (caps ++ [v; i]) with ((caps ++ [v]) ++ [i]) by (by rewrite <- app_assoc).
  constructor; [done| |done].
  rewrite <- app_assoc. simpl. by apply fCaptureStateSize_frame.
Qed.

(** A round of the dispatch loop keeps the input position inside the
    subject and the saved positions on the stack with it. *)
Lemma MatchAt_step_position m i p m' i' p' :
  0 <= fNumCaptureGroups (fPattern m) ->
  fInputLength m = length32 (fInput m) ->
  frames_in_range (fCaptureStateSize (fPattern m)) (fInputLength m) (fBackTrackStack m) ->
  0 <= i <= fInputLength m ->
  MatchAt_step m i p = Next m' i' p' ->
  frames_in_range (fCaptureStateSize (fPattern m)) (fInputLength m) (fBackTrackStack m')
  /\ 0 <= i' <= fInputLength m.
Proof.
  intros HN Hwf Hfr Hi.
  pose proof (moveIndex32_range (fInput m)) as Hmove.
  pose proof (skipCombining_range (S (length (fInput m))) m) as Hskip.
  rewrite <- Hwf in Hmove, Hskip.
  unfold MatchAt_step, doBackTrack.
  repeat case_match; try done; intros [= <- <- <-];
    repeat match goal with
      | Hn : U16_NEXT _ _ _ = _ |- _ => apply U16_NEXT_range in Hn; [|lia]
      | Hb : backTrack _ = Some _ |- _ => apply (backTrack_frames _ _ _ _ _ HN Hfr) in Hb
      end;
    try done; try (split; [done|lia]).
  all: try (split; [done|]; first [apply Hmove | apply Hskip; apply Hmove]).
  all: try (split; [by apply stateSave_frames|done]).
  split; [done|].
  match goal with
  | Hs : _ && _ = true |- context [URX_VAL ?op] =>
      apply andb_prop in Hs as [Hs _]; pose proof (URX_VAL_nonneg op); lia
  end.
Qed.

Lemma MatchAt_loop_position fuel m i p b m' i' :
  0 <= fNumCaptureGroups (fPattern m) ->
  fInputLength m = length32 (fInput m) ->
  frames_in_range (fCaptureStateSize (fPattern m)) (fInputLength m) (fBackTrackStack m) ->
  0 <= i <= fInputLength m ->
  MatchAt_loop fuel m i p = Ret (b, m', i') ->
  frames_in_range (fCaptureStateSize (fPattern m)) (fInputLength m) (fBackTrackStack m')
  /\ 0 <= i' <= fInputLength m.
Proof.
  revert m i p. induction fuel as [|fuel IH]; intros m i p HN Hwf Hfr Hi; simpl; [done|].
  destruct (MatchAt_step m i p) as [m1 i1 p1|b1 m1 i1|f] eqn:Hstep; [| |done].
  - intros Hloop.
    pose proof (MatchAt_step_binding _ _ _ _ _ _ Hstep) as (Hp & Hin & Hl & _).
    apply MatchAt_step_position in Hstep as [Hfr1 Hi1]; try done.
    rewrite <- Hp, <- Hl.
    apply (IH m1 i1 p1).
    + by rewrite Hp.
    + by rewrite Hl, Hin.
    + by rewrite Hp, Hl.
    + by rewrite Hl.
    + done.
  - intros [= -> -> ->]. by apply MatchAt_step_Break in Hstep as [-> ->].
Qed.


(** MatchAt keeps the bounds of a match inside the subject when it is called
    inside the subject with every saved position inside it; the stack of a
    new matcher is empty. *)
Lemma MatchAt_position fuel m startIdx status m' :
  0 <= fNumCaptureGroups (fPattern m) ->
  fInputLength m = length32 (fInput m) ->
  frames_in_range (fCaptureStateSize (fPattern m)) (fInputLength m) (fBackTrackStack m) ->
  0 <= startIdx <= fInputLength m ->
  U_FAILURE status = false ->
  MatchAt fuel m startIdx status = Ret m' ->
  frames_in_range (fCaptureStateSize (fPattern m)) (fInputLength m) (fBackTrackStack m')
  /\ (fMatch m' = true -> 0 <= fMatchEnd m' <= fInputLength m).
Proof.
  intros HN Hwf Hfr Hs Hst Hrun.
  apply MatchAt_Ret in Hrun as [[Hf _]|(_ & b & m1 & i & Hloop & ->)]; [congruence|].
  apply MatchAt_loop_position in Hloop as [Hfr1 Hi]; try done.
  destruct b; simpl; [split; [done|]|split; [done|]]; done.
Qed.

End Positions.

(** ** Replacement text *)

Section Replacement.
Context `{UnicodeData}.

Lemma moveIndex32_fwd (s : list Z) (i : Z) :
  0 <= i < length32 s -> i < moveIndex32 s i 1 <= length32 s.
Proof.
  intros Hi. unfold moveIndex32.
  assert ((i <? 0) = false) as -> by lia.
  assert ((length32 s <? i) = false) as -> by lia.
  simpl. assert ((i <? length32 s) = true) as -> by lia.
  unfold U16_FWD_1.
  destruct (U16_IS_LEAD (charAt s i)); simpl; [|lia].
  destruct (Z.ltb_spec (i + 1) (length32 s)); simpl; [|lia].
  destruct (U16_IS_TRAIL (charAt s (i + 1))); lia.
Qed.

Lemma scanGroupNum_ge n maxDigits repl i nd g i' nd' g' :
  0 <= i ->
  scanGroupNum n maxDigits repl i nd g = (i', nd', g') -> i <= i'.
Proof.
  revert i nd g. induction n as [|n IH]; intros i nd g Hi; simpl.
  - intros [= <- <- <-]. lia.
  - destruct (Z.leb_spec (length32 repl) i); [intros [= <- <- <-]; lia|].
    destruct (u_isdigit (char32At repl i)); simpl; [|intros [= <- <- <-]; lia].
    pose proof (moveIndex32_fwd repl i ltac:(lia)).
    destruct (Z.leb_spec maxDigits (nd + 1)); [intros [= <- <- <-]; lia|].
    intros Hscan. apply IH in Hscan; lia.
Qed.

Lemma replIter_Next m repl i d status i1 d1 :
  0 <= i ->
  replIter m repl i d status = ReplNext i1 d1 ->
  i < i1 /\ exists x, d1 = d ++ x.
Proof.
  intros Hi. unfold replIter.
  destruct (charAt repl i =? BACKSLASH).
  { destruct (length32 repl <=? i + 1); [done|].
    intros [= <- <-]. split; [lia|eauto]. }
  destruct (charAt repl i =? DOLLARSIGN); simpl.
  2:{ intros [= <- <-]. split; [lia|eauto]. }
  destruct (scanGroupNum _ _ _ _ _ _) as [[i' nd] g] eqn:Hscan.
  apply scanGroupNum_ge in Hscan; [|lia].
  destruct (nd =? 0). { intros [= <- <-]. split; [lia|eauto]. }
  destruct (group m g status) as [x st].
  destruct (U_FAILURE st); [done|].
  intros [= <- <-]. split; [lia|eauto].
Qed.

Lemma replReaches_prefix m repl status i d i' d' :
  0 <= i -> replReaches m repl status i d i' d' ->
  0 <= i' /\ exists x, d' = d ++ x.
Proof.
  intros Hi Hreach. induction Hreach as [i d|i d i1 d1 i2 d2 Hlt Hit _ IH].
  - split; [done|]. exists []. by rewrite app_nil_r.
  - apply replIter_Next in Hit as (Hlt1 & x & ->); [|done].
    destruct IH as (Hi2 & y & ->); [lia|].
    split; [done|]. exists (x ++ y). by rewrite app_assoc.
Qed.

Lemma replLoop_reaches m repl status i d i' d' n :
  0 <= i -> replReaches m repl status i d i' d' ->
  length32 repl - i <= Z.of_nat n ->
  exists n', length32 repl - i' <= Z.of_nat n'
             /\ replLoop n m repl i d status = replLoop n' m repl i' d' status.
Proof.
  intros Hi Hreach. revert n.
  induction Hreach as [i d|i d i1 d1 i2 d2 Hlt Hit _ IH]; intros n Hn.
  - by exists n.
  - destruct n as [|n]; [lia|].
    pose proof (replIter_Next _ _ _ _ _ _ _ Hi Hit) as (Hlt1 & _).
    destruct (IH ltac:(lia) n ltac:(lia)) as (n' & Hn' & Heq).
    exists n'. split; [done|].
    cbn [replLoop]. assert ((i <? length32 repl) = true) as -> by lia.
    by rewrite Hit.
Qed.

Lemma group_out_of_range m g status :
  U_FAILURE status = false -> fMatch m = true ->
  fNumCaptureGroups (fPattern m) < g ->
  group m g status = ([], U_INDEX_OUTOFBOUNDS_ERROR).
Proof.
  intros Hst Hm Hg. unfold group, start, end_. rewrite Hst, Hm. simpl.
  assert ((g <? 0) || (fNumCaptureGroups (fPattern m) <? g) = true) as -> by lia.
  done.
Qed.

(** [C10] In a matching state, when the scan of the replacement text comes
    to a '$' followed by digits that name a group number above N,
    appendReplacement sets INDEX_OUTOFBOUNDS and stops there; dest is not
    restored: it is the initial dest, then the text between the matches,
    then everything the scan had expanded before that reference. *)
Theorem appendReplacement_bad_group_not_atomic
        (m : RegexMatcher) (dest repl : list Z) (status : UErrorCode)
        (i : Z) (d : list Z) (i' numDigits groupNum : Z) :
  U_FAILURE status = false ->
  fMatch m = true ->
  replReaches m repl status 0 (dest ++ betweenText m) i d ->
  i < length32 repl ->
  charAt repl i = DOLLARSIGN ->
  scanGroupNum (length repl) (fMaxCaptureDigits (fPattern m)) repl (i + 1) 0 0
  = (i', numDigits, groupNum) ->
  1 <= numDigits ->
  fNumCaptureGroups (fPattern m) < groupNum ->
  appendReplacement m dest repl status = (d, U_INDEX_OUTOFBOUNDS_ERROR)
  /\ exists expansions, d = dest ++ betweenText m ++ expansions.
Proof.
  intros Hst Hm Hreach Hlt Hdollar Hscan Hnd Hg.
  destruct (replReaches_prefix _ _ _ 0 _ _ _ ltac:(lia) Hreach) as (Hi & x & Hx).
  split; [|exists x; by rewrite Hx, app_assoc].
  unfold appendReplacement. rewrite Hst, Hm. simpl.
  assert (Hdest : (if 0 <? fMatchStart m - fLastMatchEnd m
                   then dest ++ substr (fInput m) (fLastMatchEnd m)
                                       (fMatchStart m - fLastMatchEnd m)
                   else dest) = dest ++ betweenText m).
  { unfold betweenText. destruct (0 <? _); [done|by rewrite app_nil_r]. }
  rewrite Hdest.
  destruct (replLoop_reaches _ _ _ 0 _ _ _ (length repl) ltac:(lia) Hreach)
    as (n' & Hn' & ->); [unfold length32; lia|].
  destruct n' as [|n']; [lia|].
  cbn [replLoop]. assert ((i <? length32 repl) = true) as -> by lia.
  unfold replIter. rewrite Hdollar. simpl. rewrite Hscan.
  assert ((numDigits =? 0) = false) as -> by lia.
  rewrite group_out_of_range by done. simpl. by rewrite app_nil_r.
Qed.

End Replacement.

(** ** replaceAll *)

Section ReplaceAll.
Context `{UnicodeData}.

Lemma MatchAt_loop_mono fuel fuel' m i p r :
  MatchAt_loop fuel m i p = Ret r -> (fuel <= fuel')%nat ->
  MatchAt_loop fuel' m i p = Ret r.
Proof.
  revert fuel' m i p. induction fuel as [|fuel IH]; intros fuel' m i p; simpl; [done|].
  intros Hrun Hle. destruct fuel' as [|fuel']; [lia|]. simpl.
  destruct (MatchAt_step m i p); try done. apply IH; [done|lia].
Qed.

Lemma MatchAt_mono fuel fuel' m startIdx status m' :
  MatchAt fuel m startIdx status = Ret m' -> (fuel <= fuel')%nat ->
  MatchAt fuel' m startIdx status = Ret m'.
Proof.
  unfold MatchAt. destruct (U_FAILURE status); [done|].
  destruct (MatchAt_loop fuel _ _ _) as [r| |] eqn:Hloop; try done.
  intros Hret Hle. by rewrite (MatchAt_loop_mono _ _ _ _ _ _ Hloop Hle).
Qed.

Lemma same_subject_refl m : same_subject m m.
Proof. by repeat split. Qed.

Lemma substr_then_drop (l : list Z) (a b : Z) :
  0 <= a <= b -> substr l a (b - a) ++ drop (Z.to_nat b) l = drop (Z.to_nat a) l.
Proof.
  intros Hab. unfold substr.
  replace (Z.to_nat b) with (Z.to_nat a + Z.to_nat (b - a))%nat by lia.
  rewrite <- drop_drop. apply take_drop.
Qed.

Lemma drop_all (l : list Z) (a : Z) :
  length32 l <= a -> drop (Z.to_nat a) l = [].
Proof. intros Hle. apply drop_ge. unfold length32 in Hle. lia. Qed.

(** appendTail copies the rest of the subject. *)
Lemma appendTail_drop m dest :
  fInputLength m = length32 (fInput m) -> 0 <= fMatchEnd m ->
  appendTail m dest = dest ++ drop (Z.to_nat (fMatchEnd m)) (fInput m).
Proof.
  intros Hwf He. unfold appendTail.
  destruct (Z.ltb_spec 0 (fInputLength m - fMatchEnd m)).
  - f_equal. unfold substr. apply take_ge. rewrite length_drop.
    unfold length32 in Hwf. lia.
  - rewrite drop_all; [by rewrite app_nil_r|lia].
Qed.

Lemma scanGroupNum_zero (maxDigits : Z) :
  u_isdigit 0x30 = true -> u_charDigitValue 0x30 = 0 ->
  scanGroupNum 2 maxDigits [DOLLARSIGN; 0x30] 1 0 0 = (2, 1, 0).
Proof.
  intros Hdig Hval. cbn [scanGroupNum].
  change (length32 [DOLLARSIGN; 48] <=? 1) with false. cbv iota.
  change (char32At [DOLLARSIGN; 48] 1) with 48. rewrite Hdig, Hval. cbv iota.
  change (negb true) with false. cbv iota.
  change (moveIndex32 [DOLLARSIGN; 48] 1 1) with 2.
  change (int32 (0 * 10 + 0)) with 0. change (0 + 1) with 1.
  change (length32 [DOLLARSIGN; 48] <=? 2) with true. cbv iota.
  by destruct (maxDigits <=? 1).
Qed.

Lemma group_whole_match m status :
  U_FAILURE status = false -> fMatch m = true ->
  0 <= fNumCaptureGroups (fPattern m) -> 0 <= fMatchStart m ->
  group m 0 status
  = (substr (fInput m) (fMatchStart m) (fMatchEnd m - fMatchStart m), status).
Proof.
  intros Hst Hm HN Hs. unfold group, start, end_. rewrite Hst, Hm. simpl.
  assert ((fNumCaptureGroups (fPattern m) <? 0) = false) as -> by lia.
  simpl. rewrite Hst. assert ((fMatchStart m <? 0) = false) as -> by lia.
  by rewrite Hst.
Qed.

(** The replacement text "$0" stands for the text of the match. *)
Lemma appendReplacement_group0 m dest status :
  U_FAILURE status = false -> fMatch m = true ->
  0 <= fNumCaptureGroups (fPattern m) -> 0 <= fMatchStart m ->
  u_isdigit 0x30 = true -> u_charDigitValue 0x30 = 0 ->
  appendReplacement m dest [DOLLARSIGN; 0x30] status
  = (dest ++ betweenText m
          ++ substr (fInput m) (fMatchStart m) (fMatchEnd m - fMatchStart m), status).
Proof.
  intros Hst Hm HN Hs Hdig Hval.
  unfold appendReplacement. rewrite Hst, Hm. cbv iota. change (negb true) with false.
  cbv iota.
  set (d := if 0 <? fMatchStart m - fLastMatchEnd m then _ else dest).
  assert (Hd : d = dest ++ betweenText m).
  { unfold d, betweenText. destruct (0 <? _); [done|by rewrite app_nil_r]. }
  assert (Hiter : replIter m [DOLLARSIGN; 0x30] 0 d status
                  = ReplNext 2 (d ++ substr (fInput m) (fMatchStart m)
                                            (fMatchEnd m - fMatchStart m))).
  { unfold replIter.
    change (charAt [DOLLARSIGN; 48] 0) with DOLLARSIGN.
    change (DOLLARSIGN =? BACKSLASH) with false.
    change (DOLLARSIGN =? DOLLARSIGN) with true. cbv iota.
    change (negb true) with false. cbv iota.
    change (length [DOLLARSIGN; 48]) with 2%nat. change (0 + 1) with 1.
    rewrite scanGroupNum_zero by done. cbv iota beta.
    change (1 =? 0) with false. cbv iota.
    rewrite group_whole_match by done. by rewrite Hst. }
  change (length [DOLLARSIGN; 48]) with 2%nat. cbn [replLoop].
  change (0 <? length32 [DOLLARSIGN; 48]) with true. cbv iota.
  rewrite Hiter. change (2 <? length32 [DOLLARSIGN; 48]) with false. cbv iota.
  by rewrite Hd, <- app_assoc.
Qed.

End ReplaceAll.

(** ** find() and the end of the subject *)

Section FindPositions.
Context `{UnicodeData}.

Lemma isWordBoundary_past_end m pos :
  fInputLength m <= pos -> isWordBoundary m pos = false.
Proof.
  intros Hle. unfold isWordBoundary.
  by assert ((fInputLength m <=? pos) = true) as -> by lia.
Qed.

(** A match that the scan of find() reports starts before the end of the
    subject. *)
Lemma find_loop_reports_inside n fuel m startPos m' :
  find_loop n fuel m startPos = Ret (true, m') ->
  fMatchStart m' < fInputLength m' /\ fInputLength m' = fInputLength m.
Proof.
  revert m startPos. induction n as [|n IH]; intros m startPos; cbn [find_loop].
  - by destruct (startPos <? fInputLength m).
  - destruct (Z.ltb_spec startPos (fInputLength m)) as [Hlt|_]; [|done].
    destruct (MatchAt fuel m startPos U_ZERO_ERROR) as [m1| |] eqn:Hrun; try done.
    simpl. pose proof (MatchAt_result _ _ _ U_ZERO_ERROR _ eq_refl Hrun) as (_ & _ & Hl & Hres).
    destruct (fMatch m1) eqn:Hm.
    + intros [= <-]. destruct Hres as [-> _]. lia.
    + intros Hloop. apply IH in Hloop. lia.
Qed.

Lemma find_reports_inside fuel m m' :
  find fuel m = Ret (true, m') -> fMatchStart m' < fInputLength m.
Proof. intros Hfind. apply find_loop_reports_inside in Hfind. lia. Qed.

End FindPositions.

(** ** Concrete runs *)

Section Concrete.
#[local] Existing Instance sample_data.

(** The scenarios of the specification, run on the embedding. *)

Example scenario_literal :
  outcome (find 8 (matcher pat_abc [0x78; 0x61; 0x62; 0x63; 0x79])) = Some (true, 1, 4).
Proof. by vm_compute. Qed.

Example scenario_capture_groups :
  outcome (matches 16 m_ab U_ZERO_ERROR) = Some (true, 0, 2)
  /\ start m_ab_matched 1 U_ZERO_ERROR = (0, U_ZERO_ERROR)
  /\ end_ m_ab_matched 1 U_ZERO_ERROR = (1, U_ZERO_ERROR)
  /\ start m_ab_matched 2 U_ZERO_ERROR = (1, U_ZERO_ERROR)
  /\ end_ m_ab_matched 2 U_ZERO_ERROR = (2, U_ZERO_ERROR).
Proof. split_and!; by vm_compute. Qed.

Example scenario_group_without_part :
  outcome (matches 16 (matcher pat_a_or_b [0x62]) U_ZERO_ERROR) = Some (true, 0, 1)
  /\ start m_a_or_b_matched 1 U_ZERO_ERROR = (-1, U_ZERO_ERROR)
  /\ group m_a_or_b_matched 1 U_ZERO_ERROR = ([], U_ZERO_ERROR)
  /\ start m_a_or_b_matched 2 U_ZERO_ERROR = (0, U_ZERO_ERROR)
  /\ end_ m_a_or_b_matched 2 U_ZERO_ERROR = (1, U_ZERO_ERROR).
Proof. split_and!; by vm_compute. Qed.

Example scenario_anchors :
  outcome (matches 16 m_line U_ZERO_ERROR) = Some (false, 0, 1)
  /\ outcome (lookingAt 16 m_line U_ZERO_ERROR) = Some (true, 0, 1).
Proof. split; by vm_compute. Qed.

Example scenario_replaceAll :
  replaced (replaceAll 16 (matcher pat_a [0x62; 0x61; 0x6e; 0x61; 0x6e; 0x61])
                       [0x78] U_ZERO_ERROR)
  = Some ([0x62; 0x78; 0x6e; 0x78; 0x6e; 0x78], U_ZERO_ERROR).
Proof. by vm_compute. Qed.

Example scenario_replaceFirst_backrefs :
  replaced (replaceFirst 16 (matcher pat_dot_dot [0x61; 0x62])
                         [DOLLARSIGN; 0x32; DOLLARSIGN; 0x31] U_ZERO_ERROR)
  = Some ([0x62; 0x61], U_ZERO_ERROR).
Proof. by vm_compute. Qed.

Example scenario_grapheme_cluster :
  outcome (find 8 (matcher pat_X [0x65; 0x301])) = Some (true, 0, 2).
Proof. by vm_compute. Qed.

Example scenario_crlf_dotall :
  outcome (matches 8 (matcher pat_dotall [0x0d; 0x0a]) U_ZERO_ERROR) = Some (true, 0, 2).
Proof. by vm_compute. Qed.

(** [C1, as amended] For pattern \b and subject "a b": the first find()
    after reset succeeds at position 0 with an empty match; the boundaries
    at 1 and 2 are found by a search that starts there (find(1), find(2));
    position 3, the input length, is never reported: isWordBoundary is false
    at and past the end of the subject, the match attempt at 3 fails, find(3)
    is refused with INDEX_OUTOFBOUNDS, and a match that find() reports
    starts before the input length. *)
Theorem word_boundary_scenario :
  (exists m1, find 8 m_wordb = Ret (true, m1)
              /\ fMatchStart m1 = 0 /\ fMatchEnd m1 = 0)
  /\ (exists m1, find_from 8 m_wordb 1 U_ZERO_ERROR = Ret (true, m1, U_ZERO_ERROR)
                 /\ fMatchStart m1 = 1 /\ fMatchEnd m1 = 1)
  /\ (exists m1, find_from 8 m_wordb 2 U_ZERO_ERROR = Ret (true, m1, U_ZERO_ERROR)
                 /\ fMatchStart m1 = 2 /\ fMatchEnd m1 = 2)
  /\ find_from 8 m_wordb 3 U_ZERO_ERROR = Ret (false, m_wordb, U_INDEX_OUTOFBOUNDS_ERROR)
  /\ (exists m1, MatchAt 8 m_wordb 3 U_ZERO_ERROR = Ret m1 /\ fMatch m1 = false)
  /\ (forall pos, 3 <= pos -> isWordBoundary m_wordb pos = false)
  /\ (forall fuel m m', fInputLength m = 3 -> find fuel m = Ret (true, m') ->
                        fMatchStart m' < 3).
Proof.
  split_and!.
  - eexists. split; [vm_compute; reflexivity|]. by vm_compute.
  - eexists. split; [vm_compute; reflexivity|]. by vm_compute.
  - eexists. split; [vm_compute; reflexivity|]. by vm_compute.
  - by vm_compute.
  - eexists. split; [vm_compute; reflexivity|]. by vm_compute.
  - intros pos Hpos. by apply isWordBoundary_past_end.
  - intros fuel m m' Hlen Hfind.
    apply find_reports_inside in Hfind. lia.
Qed.

(** Against [C1]: after the empty match at position 0 the next find() starts
    at matchEnd = 0 again and reports position 0, not 1; the fifth find()
    still answers true. *)
Lemma find_repeats_position_0 :
  exists m1 m2 m3 m4 m5,
    find 8 m_wordb = Ret (true, m1) /\ fMatchStart m1 = 0
    /\ find 8 m1 = Ret (true, m2) /\ fMatchStart m2 = 0
    /\ find 8 m2 = Ret (true, m3) /\ fMatchStart m3 = 0
    /\ find 8 m3 = Ret (true, m4) /\ fMatchStart m4 = 0
    /\ find 8 m4 = Ret (true, m5) /\ fMatchStart m5 = 0.
Proof.
  do 5 eexists.
  repeat (split; [vm_compute; reflexivity|]). vm_compute; reflexivity.
Qed.

(** Against [C2]: MatchAt(0) for pattern [a] on "a" is called with an empty
    stack and returns, with a match, while the bottom frame is still on the
    stack. *)
Lemma MatchAt_leaves_frame :
  MatchAt 8 m_a 0 U_ZERO_ERROR = Ret m_a_matched
  /\ fMatch m_a_matched = true
  /\ fBackTrackStack m_a = []
  /\ fBackTrackStack m_a_matched = [2; 0]
  /\ depth m_a_matched <> depth m_a.
Proof. split_and!; by vm_compute. Qed.

(** Against [C3]: pattern [a] without a bottom frame on "b": ONECHAR fails
    and calls backTrack on the empty stack; the call does not end the
    attempt with isMatch = false, it reads a frame that is not there. *)
Lemma backTrack_on_empty_stack :
  fBackTrackStack m_b_bare = []
  /\ MatchAt_step m_b_bare 0 0 = doBackTrack m_b_bare
  /\ backTrack m_b_bare = None
  /\ MatchAt 8 m_b_bare 0 U_ZERO_ERROR = Fault StackUnderflow.
Proof. split_and!; by vm_compute. Qed.

(** A run of [MatchAt_depth_mod_frame]: [(a)|(b)] on "b"; the bottom frame
    and the frame of the alternation are pushed, the second is popped when
    [a] fails, the first is still on the stack at the return. *)
Lemma MatchAt_depth_mod_frame_witness :
  MatchAt 16 (matcher pat_a_or_b [0x62]) 0 U_ZERO_ERROR = Ret m_a_or_b_matched
  /\ exists pushes pops : nat,
       Z.of_nat pushes - Z.of_nat pops = 1
       /\ depth m_a_or_b_matched
          = depth (matcher pat_a_or_b [0x62])
            + (Z.of_nat pushes - Z.of_nat pops)
              * fCaptureStateSize (fPattern (matcher pat_a_or_b [0x62])).
Proof.
  assert (Hrun : MatchAt 16 (matcher pat_a_or_b [0x62]) 0 U_ZERO_ERROR
                 = Ret m_a_or_b_matched) by (by vm_compute).
  split; [exact Hrun|].
  destruct (MatchAt_depth_mod_frame 16 (matcher pat_a_or_b [0x62]) 0 U_ZERO_ERROR
              m_a_or_b_matched) as [(pushes & pops & _ & Hd) _];
    [by vm_compute|exact Hrun|].
  exists pushes, pops. split; [|exact Hd].
  change (depth m_a_or_b_matched) with 6 in Hd.
  change (depth (matcher pat_a_or_b [98])) with 0 in Hd.
  change (fCaptureStateSize (fPattern (matcher pat_a_or_b [98]))) with 6 in Hd.
  lia.
Defined.

(** A run of [backTrack_fails_through_FAIL]: pattern [a] on "b"; ONECHAR
    at index 3 fails above the bottom frame, whose continuation is the FAIL
    at index 2. *)
Lemma backTrack_fails_through_FAIL_witness :
  MatchAt_step m_b_at_onechar 0 3 = doBackTrack m_b_at_onechar
  /\ backTrack m_b_at_onechar = Some (m_b_backtracked, 0, 2)
  /\ MatchAt_loop 2 m_b_at_onechar 0 3 = Ret (false, m_b_backtracked, 0)
  /\ fBackTrackStack m_b_at_onechar <> [].
Proof.
  split; [by vm_compute|]. split; [by vm_compute|].
  destruct (backTrack_fails_through_FAIL 0 m_b_at_onechar 0 3 m_b_backtracked 0 2
              (URX_BUILD URX_FAIL 0)) as (Hloop & Hstk & _);
    [by vm_compute..|].
  by split.
Defined.

(** A run of [stateSave_backTrack_roundtrip]: [(a)(b)] on "ab"; after the
    STATE_SAVE both capture vectors are overwritten. *)
Lemma stateSave_backTrack_roundtrip_witness :
  exists m2,
    backTrack (set_ends (set_starts (stateSave m_ab_matched 8 1) [-1; 5; 6]) [-1; 7; 8])
    = Some (m2, 1, 8)
    /\ fBackTrackStack m2 = fBackTrackStack m_ab_matched
    /\ same_binding (set_ends (set_starts (stateSave m_ab_matched 8 1) [-1; 5; 6]) [-1; 7; 8]) m2
    /\ forall g, 1 <= g <= fNumCaptureGroups (fPattern m_ab_matched) ->
         elementAti (fCaptureStarts m2) g = elementAti (fCaptureStarts m_ab_matched) g
         /\ elementAti (fCaptureEnds m2) g = elementAti (fCaptureEnds m_ab_matched) g.
Proof.
  apply (stateSave_backTrack_roundtrip m_ab_matched
           (set_ends (set_starts (stateSave m_ab_matched 8 1) [-1; 5; 6]) [-1; 7; 8]) 8 1);
    by vm_compute.
Defined.

(** A run of [matches_whole_input]: [(a)(b)] on "ab". *)
Lemma matches_whole_input_witness :
  matches 16 m_ab U_ZERO_ERROR = Ret (true, m_ab_matched)
  /\ fMatch m_ab_matched = true /\ fMatchStart m_ab_matched = 0
  /\ fMatchEnd m_ab_matched = fInputLength m_ab_matched.
Proof.
  destruct (matches_whole_input 16 m_ab U_ZERO_ERROR) as [_ Htrue]; [by vm_compute|].
  assert (Hrun : matches 16 m_ab U_ZERO_ERROR = Ret (true, m_ab_matched)) by (by vm_compute).
  split; [done|]. destruct (Htrue _ Hrun) as (? & ? & ? & _). by split_and!.
Defined.

(** A run of [DOLLAR_case_by_case]: [^.$] on "a\n" at position 1, one unit
    before the end, on a line feed. *)
Lemma DOLLAR_case_by_case_witness :
  DOLLAR_spec (fInput m_line) 1 (length32 (fInput m_line)) = true
  /\ MatchAt_step m_line 1 5 = Next m_line 1 6.
Proof.
  split; [by vm_compute|].
  destruct (DOLLAR_case_by_case m_line 1 5 (URX_BUILD URX_DOLLAR 0)) as [Hstep _];
    [by vm_compute..|].
  rewrite Hstep. by vm_compute.
Defined.

(** A run of [start_end_group_contract]: [(a)|(b)] on "b", group 1, which
    took no part in the match. *)
Lemma start_end_group_contract_witness :
  start m_a_or_b_matched 1 U_ZERO_ERROR = (-1, U_ZERO_ERROR)
  /\ end_ m_a_or_b_matched 1 U_ZERO_ERROR = (-1, U_ZERO_ERROR)
  /\ group m_a_or_b_matched 1 U_ZERO_ERROR = ([], U_ZERO_ERROR).
Proof.
  destruct (start_end_group_contract m_a_or_b_matched 1 U_ZERO_ERROR) as (_ & _ & _ & Hg);
    [by vm_compute|].
  destruct Hg as (_ & _ & Hnone & _); [by vm_compute..|].
  apply Hnone. by vm_compute.
Defined.

(** A run of [find_skips_empty_input]: the empty pattern on the empty
    subject; matches() and lookingAt() answer true, find() false. *)
Lemma find_skips_empty_input_witness :
  find 8 m_empty_input = Ret (false, m_empty_input)
  /\ matches 8 m_empty_input U_ZERO_ERROR = Ret (true, m_empty_input_matched)
  /\ lookingAt 8 m_empty_input U_ZERO_ERROR = Ret (true, m_empty_input_matched)
  /\ find 8 m_empty_input_matched = Ret (false, m_empty_input_matched).
Proof.
  destruct (find_skips_empty_input 8 m_empty_input U_ZERO_ERROR)
    as (Hfind & _ & _ & _ & Hagree); [by vm_compute..|].
  split; [done|]. apply Hagree; by vm_compute.
Defined.

(** A run of [appendReplacement_bad_group_not_atomic]: [(a)(b)] on "ab",
    replacement "x$1y$7z": "x", group 1 and "y" are in dest when "$7" is
    refused. *)
Lemma appendReplacement_bad_group_not_atomic_witness :
  appendReplacement m_ab_matched [0x2d] repl_x1y7z U_ZERO_ERROR
  = ([0x2d; 0x78; 0x61; 0x79], U_INDEX_OUTOFBOUNDS_ERROR)
  /\ exists expansions,
       [0x2d; 0x78; 0x61; 0x79] = [0x2d] ++ betweenText m_ab_matched ++ expansions.
Proof.
  apply (appendReplacement_bad_group_not_atomic m_ab_matched [0x2d] repl_x1y7z
           U_ZERO_ERROR 4 [0x2d; 0x78; 0x61; 0x79] 6 1 7); try by vm_compute.
  eapply replReaches_round; [by vm_compute|by vm_compute|].
  eapply replReaches_round; [by vm_compute|by vm_compute|].
  eapply replReaches_round; [by vm_compute|by vm_compute|].
  apply replReaches_here.
Defined.

(** The empty pattern on "a": an attempt at position 0 that returns has
    matched the empty string and left matchEnd at 0. *)
Lemma MatchAt_empty_pattern fuel m :
  fPattern m = pat_empty -> fInput m = [0x61] -> fInputLength m = 1 ->
  fMatchEnd m = 0 ->
  MatchAt fuel m 0 U_ZERO_ERROR = OutOfFuel
  \/ exists m', MatchAt fuel m 0 U_ZERO_ERROR = Ret m'
                /\ fPattern m' = pat_empty /\ fInput m' = [0x61]
                /\ fInputLength m' = 1 /\ fMatchEnd m' = 0
                /\ fMatch m' = true /\ fMatchStart m' = 0.
Proof.
  destruct m as [pat inp len mt ms me lme stk cs ce]. simpl.
  intros -> -> -> ->.
  destruct fuel as [|[|[|fuel]]]; [left; by vm_compute..|right].
  eexists. split; [vm_compute; reflexivity|]. by vm_compute.
Qed.

Lemma replaceAll_loop_empty_pattern n fuel m dest :
  fPattern m = pat_empty -> fInput m = [0x61] -> fInputLength m = 1 ->
  fMatchEnd m = 0 ->
  replaceAll_loop n fuel m dest [DOLLARSIGN; 0x30] U_ZERO_ERROR = OutOfFuel.
Proof.
  revert m dest. induction n as [|n IH]; intros m dest Hp Hi Hl He; [done|].
  cbn [replaceAll_loop]. unfold find. rewrite Hl, He.
  change (Z.to_nat (1 - 0)) with 1%nat. cbn [find_loop]. rewrite Hl.
  change (0 <? 1) with true. cbv iota.
  destruct (MatchAt_empty_pattern fuel m Hp Hi Hl He)
    as [-> | (m' & -> & Hp' & Hi' & Hl' & He' & Hm' & Hs')]; [done|].
  simpl. rewrite Hm'. simpl.
  rewrite appendReplacement_group0; try done.
  - simpl. by apply IH.
  - by rewrite Hp'.
  - by rewrite Hs'.
Qed.

(** Against [C4]: with the empty pattern on "a" every find() matches the
    empty string at position 0 and leaves matchEnd at 0, so the loop of
    replaceAll never ends: no amount of fuel makes replaceAll return. *)
Lemma replaceAll_empty_match_never_returns :
  ~ exists fuel r,
      replaceAll fuel m_empty_pat [DOLLARSIGN; 0x30] U_ZERO_ERROR = Ret r.
Proof.
  intros (fuel & r & Hr). unfold replaceAll in Hr.
  change (U_FAILURE U_ZERO_ERROR) with false in Hr. cbv iota in Hr.
  by rewrite replaceAll_loop_empty_pattern in Hr.
Qed.

End Concrete.

(* ========================================================================= *)
(** * Further properties of the matcher *)

(** ** reset and the capture vectors *)

Lemma clearing_lookup (k a : nat) (cs : list Z) (j : nat) :
  foldl (fun v i => setElementAt v (-1) (Z.of_nat i)) cs (seq a k) !! j
  = if decide ((a <= j < a + k)%nat /\ (j < length cs)%nat) then Some (-1) else cs !! j.
Proof.
  revert a cs. induction k as [|k IH]; intros a cs; simpl.
  - case_decide; [lia|done].
  - rewrite IH. unfold setElementAt.
    destruct (Z.ltb_spec (Z.of_nat a) 0); [lia|]. rewrite Nat2Z.id, length_insert.
    destruct (decide (a = j)) as [->|Hne].
    + case_decide; [lia|]. case_decide.
      * by rewrite list_lookup_insert_eq by lia.
      * rewrite list_insert_ge; [done|lia].
    + rewrite list_lookup_insert_ne by done.
      repeat case_decide; try done; lia.
Qed.

Lemma clearing_length (l : list nat) (cs : list Z) :
  length (foldl (fun v i => setElementAt v (-1) (Z.of_nat i)) cs l) = length cs.
Proof.
  revert cs. induction l as [|a l IH]; intros cs; simpl; [done|].
  rewrite IH. unfold setElementAt. case_match; [done|apply length_insert].
Qed.

Lemma clearStarts_length pat cs : length (clearStarts pat cs) = length cs.
Proof. apply clearing_length. Qed.

Lemma clearStarts_lookup pat cs (j : nat) :
  clearStarts pat cs !! j
  = if decide ((Z.of_nat j <= fNumCaptureGroups pat) /\ (j < length cs)%nat)
    then Some (-1) else cs !! j.
Proof.
  unfold clearStarts. rewrite clearing_lookup.
  repeat case_decide; try done; lia.
Qed.

Lemma clearStarts_cells pat cs len :
  0 <= len -> Forall (cell_ok len) cs -> Forall (cell_ok len) (clearStarts pat cs).
Proof.
  intros Hlen Hcs. apply Forall_lookup. intros j c. rewrite clearStarts_lookup.
  case_decide.
  - intros [= <-]. unfold cell_ok. lia.
  - intros Hj. by eapply Forall_lookup in Hcs.
Qed.

(** [X1] reset() zeroes the bounds of the match, clears the match flag and
    sets captureStarts[g] to -1 for every group g in 0..N that the vector
    holds; it leaves the subject, the capture ends and the backtrack stack
    as they are. *)
Theorem reset_postcondition (m : RegexMatcher) (g : Z) :
  0 <= g <= fNumCaptureGroups (fPattern m) ->
  g < Z.of_nat (length (fCaptureStarts m)) ->
  fMatch (reset m) = false
  /\ fMatchStart (reset m) = 0 /\ fMatchEnd (reset m) = 0 /\ fLastMatchEnd (reset m) = 0
  /\ elementAti (fCaptureStarts (reset m)) g = -1
  /\ length (fCaptureStarts (reset m)) = length (fCaptureStarts m)
  /\ fCaptureEnds (reset m) = fCaptureEnds m
  /\ fBackTrackStack (reset m) = fBackTrackStack m
  /\ fInput (reset m) = fInput m /\ fInputLength (reset m) = fInputLength m
  /\ fPattern (reset m) = fPattern m.
Proof.
  intros Hg Hlen. split_and!; try done.
  - simpl. replace g with (Z.of_nat (Z.to_nat g)) by lia.
    rewrite elementAti_lookup, clearStarts_lookup.
    case_decide; [done|lia].
  - simpl. apply clearStarts_length.
Qed.

(** ** The shape of one round of the dispatch loop *)

Lemma moveIndex32_ge (s : list Z) (i : Z) :
  i <= length32 s -> i <= moveIndex32 s i 1.
Proof.
  intros Hle. destruct (Z.ltb_spec i 0) as [Hneg|Hpos].
  - pose proof (moveIndex32_range s i). lia.
  - destruct (Z.ltb_spec i (length32 s)) as [Hlt|Hge].
    + pose proof (moveIndex32_fwd s i ltac:(lia)). lia.
    + assert (i = length32 s) as -> by lia.
      unfold moveIndex32. simpl.
      assert ((length32 s <? 0) = false) as -> by lia.
      rewrite Z.ltb_irrefl. simpl. by rewrite Z.ltb_irrefl.
Qed.

Section Shape.
Context `{UnicodeData}.

Lemma skipCombining_ge n m i :
  i <= length32 (fInput m) -> i <= skipCombining n m i.
Proof.
  revert i. induction n as [|n IH]; intros i Hi; simpl; [done|].
  destruct (negb _); [done|].
  pose proof (moveIndex32_ge (fInput m) i Hi).
  pose proof (moveIndex32_range (fInput m) i).
  destruct (_ <=? _); [done|].
  etrans; [|apply IH]; lia.
Qed.

#[local] Opaque skipCombining.

(** What a round that goes on has done: either it is the backTrack, or the
    input position has not moved back and the matcher is as it was but for
    a pushed frame or one capture slot set to the input position. *)
Lemma MatchAt_step_shape m i p m' i' p' :
  fInputLength m = length32 (fInput m) ->
  MatchAt_step m i p = Next m' i' p' ->
  backTrack m = Some (m', i', p')
  \/ (i <= i' /\ (i <= fInputLength m -> i' <= fInputLength m)
      /\ (m' = m
          \/ (exists v, m' = stateSave m v i /\ i' = i)
          \/ (exists g, (g < length (fCaptureStarts m))%nat
                        /\ m' = set_starts m (<[g := i]> (fCaptureStarts m)) /\ i' = i)
          \/ (exists g, (g < length (fCaptureEnds m))%nat
                        /\ m' = set_ends m (<[g := i]> (fCaptureEnds m)) /\ i' = i))).
Proof.
  intros Hwf.
  pose proof (moveIndex32_range (fInput m) i) as Hr1.
  pose proof (moveIndex32_ge (fInput m) i) as Hg1.
  pose proof (moveIndex32_range (fInput m) (moveIndex32 (fInput m) i 1)) as Hr2.
  pose proof (moveIndex32_ge (fInput m) (moveIndex32 (fInput m) i 1)) as Hg2.
  pose proof (skipCombining_range (S (length (fInput m))) m (moveIndex32 (fInput m) i 1)) as Hr3.
  pose proof (skipCombining_ge (S (length (fInput m))) m (moveIndex32 (fInput m) i 1)) as Hg3.
  unfold MatchAt_step, doBackTrack.
  repeat case_match; try done; intros [= <- <- <-];
    try (left; done); right;
    repeat match goal with
      | Hn : U16_NEXT _ _ _ = _ |- _ => apply U16_NEXT_range in Hn; [|lia]
      | Hs : _ && _ = true |- _ => apply andb_prop in Hs as [Hs _]
      end;
    try match goal with
      | |- context [URX_VAL ?op] => pose proof (URX_VAL_nonneg op)
      end.
  all: split; [lia|]; split; [lia|].
  all: first
    [ by left
    | right; left; eexists; done
    | right; right; left; eexists; split; [|done]; lia
    | right; right; right; eexists; split; [|done]; lia ].
Qed.
#[local] Transparent skipCombining.
End Shape.

(** ** The state the matcher keeps *)

Lemma saveCaptures_cells n cs ce len :
  0 <= len -> Forall (cell_ok len) cs -> Forall (cell_ok len) ce ->
  Forall (cell_ok len) (saveCaptures n cs ce).
Proof.
  intros Hlen Hcs Hce.
  assert (Hread : forall (v : list Z) (j : nat),
             Forall (cell_ok len) v -> cell_ok len (elementAti v (Z.of_nat j))).
  { intros v j Hv. rewrite elementAti_lookup.
    destruct (v !! j) as [c|] eqn:Hj; simpl.
    - by eapply Forall_lookup in Hv.
    - unfold cell_ok. lia. }
  induction n as [|n IH]; simpl; [constructor|].
  repeat constructor; try done; by apply Hread.
Qed.

Lemma restoreCaptures_cells n cs ce sp cs' ce' sp' len :
  restoreCaptures n cs ce sp = Some (cs', ce', sp') ->
  Forall (cell_ok len) (take (2 * n) sp) ->
  Forall (cell_ok len) cs -> Forall (cell_ok len) ce ->
  Forall (cell_ok len) cs' /\ Forall (cell_ok len) ce'.
Proof.
  revert cs ce sp. induction n as [|n IH]; intros cs ce sp; simpl.
  - by intros [= <- <- <-].
  - destruct sp as [|s [|e sp0]]; try done.
    replace (n + S (n + 0))%nat with (S (2 * n)) by lia. simpl.
    intros Hr Hsp Hcs Hce.
    inversion Hsp as [|? ? Hs Hsp1]; subst. inversion Hsp1 as [|? ? He Hsp2]; subst.
    eapply IH; [done|done| |]; by apply Forall_insert.
Qed.

Lemma backTrack_ok m m' i p :
  matcher_ok m -> backTrack m = Some (m', i, p) ->
  matcher_ok m' /\ 0 <= i <= fInputLength m.
Proof.
  intros [Hwf HN Hstk Hns Hne Hcs Hce Hms Hme Hml]. unfold backTrack.
  destruct (popBlock _ _) as [[rest sp]|] eqn:Hpop; [|done].
  destruct (restoreCaptures _ _ _ _) as [[[cs ce] [|p' [|i' sp']]]|] eqn:Hr; try done.
  intros [= <- <- <-].
  apply popBlock_Some in Hpop as (_ & Hstack & Hlen).
  pose proof (restoreCaptures_length _ _ _ _ _ _ _ Hr) as [Hlcs Hlce].
  pose proof (restoreCaptures_rest _ _ _ _ _ _ _ Hr) as [Hsp Hle].
  inversion Hstk as [Hnil|stk caps p0 i0 Hstk0 Hcaps Hsize Hi0 Heq].
  { rewrite Hstack in Hnil. symmetry in Hnil. apply app_eq_nil in Hnil as [_ ->].
    simpl in Hlen. unfold fCaptureStateSize in Hlen. lia. }
  rewrite Hstack in Heq. apply app_inj_2 in Heq as [-> Hfr]; cycle 1.
  { rewrite length_app. simpl. lia. }
  subst sp.
  assert (Hlc : length caps = (2 * Z.to_nat (fNumCaptureGroups (fPattern m)))%nat).
  { unfold fCaptureStateSize in Hsize. lia. }
  rewrite <- Hlc, drop_app_length in Hsp. injection Hsp as -> -> ->.
  apply restoreCaptures_cells with (len := fInputLength m) in Hr as [Hcs' Hce'];
    [|by rewrite <- Hlc, take_app_length|done|done].
  split; [|done].
  constructor; simpl; try done; congruence.
Qed.

Lemma stateSave_ok m v i :
  matcher_ok m -> 0 <= i <= fInputLength m -> matcher_ok (stateSave m v i).
Proof.
  intros [Hwf HN Hstk Hns Hne Hcs Hce Hms Hme Hml] Hi.
  constructor; simpl; try done.
  unfold reserveBlock. constructor; try done.
  - apply saveCaptures_cells; [lia|done|done].
  - rewrite length_saveCaptures. unfold fCaptureStateSize. lia.
Qed.

Section Kept.
Context `{UnicodeData}.

Lemma MatchAt_step_ok m i p m' i' p' :
  matcher_ok m -> 0 <= i <= fInputLength m ->
  MatchAt_step m i p = Next m' i' p' ->
  matcher_ok m' /\ 0 <= i' <= fInputLength m.
Proof.
  intros Hok Hi Hstep.
  apply MatchAt_step_shape in Hstep as [Hbt|(Hle & Hin & Hm')]; [| |apply Hok].
  - by apply backTrack_ok in Hbt.
  - split; [|lia].
    destruct Hm' as [->|[(v & -> & ->)|[(g & Hg & -> & ->)|(g & Hg & -> & ->)]]].
    + done.
    + by apply stateSave_ok.
    + destruct Hok as [Hwf HN Hstk Hns Hne Hcs Hce Hms Hme Hml].
      constructor; simpl; try done.
      * by rewrite length_insert.
      * apply Forall_insert; [done|]. unfold cell_ok. lia.
    + destruct Hok as [Hwf HN Hstk Hns Hne Hcs Hce Hms Hme Hml].
      constructor; simpl; try done.
      * by rewrite length_insert.
      * apply Forall_insert; [done|]. unfold cell_ok. lia.
Qed.

Lemma MatchAt_loop_ok fuel m i p b m' i' :
  matcher_ok m -> 0 <= i <= fInputLength m ->
  MatchAt_loop fuel m i p = Ret (b, m', i') ->
  matcher_ok m' /\ 0 <= i' <= fInputLength m.
Proof.
  revert m i p. induction fuel as [|fuel IH]; intros m i p Hok Hi; simpl; [done|].
  destruct (MatchAt_step m i p) as [m1 i1 p1|b1 m1 i1|f] eqn:Hstep; [| |done].
  - intros Hloop.
    pose proof (MatchAt_step_binding _ _ _ _ _ _ Hstep) as (_ & _ & Hl & _).
    apply MatchAt_step_ok in Hstep as [Hok1 Hi1]; try done.
    rewrite <- Hl. apply (IH m1 i1 p1); [done|by rewrite Hl|done].
  - intros [= -> -> ->]. by apply MatchAt_step_Break in Hstep as [-> ->].
Qed.

Lemma MatchAt_ok fuel m startIdx status m' :
  matcher_ok m -> 0 <= startIdx <= fInputLength m ->
  MatchAt fuel m startIdx status = Ret m' -> matcher_ok m'.
Proof.
  intros Hok Hs Hrun.
  apply MatchAt_Ret in Hrun as [[_ ->]|(_ & b & m1 & i & Hloop & ->)]; [done|].
  pose proof (MatchAt_loop_binding _ _ _ _ _ _ _ Hloop) as (_ & _ & Hl & _ & _ & He & _).
  apply MatchAt_loop_ok in Hloop as [Hok1 Hi]; [| |done].
  - destruct Hok as [_ _ _ _ _ _ _ _ Hme0 _].
    destruct Hok1 as [Hwf HN Hstk Hns Hne Hcs Hce Hms Hme Hml].
    simpl in *. destruct b; constructor; simpl; try done; lia.
  - destruct Hok as [Hwf HN Hstk Hns Hne Hcs Hce Hms Hme Hml].
    constructor; simpl; try done.
    + by rewrite clearStarts_length.
    + apply clearStarts_cells; [lia|done].
Qed.

End Kept.

Lemma reset_ok m : matcher_ok m -> matcher_ok (reset m).
Proof.
  intros [Hwf HN Hstk Hns Hne Hcs Hce Hms Hme Hml].
  constructor; simpl; try done; try lia.
  - by rewrite clearStarts_length.
  - apply clearStarts_cells; [lia|done].
Qed.

Lemma matcher_ok_new (pat : RegexPattern) (input : list Z) :
  0 <= fNumCaptureGroups pat -> matcher_ok (matcher pat input).
Proof.
  intros HN.
  assert (Hcells : forall k, Forall (cell_ok (length32 input)) (replicate k (-1))).
  { intros k. apply Forall_replicate. unfold cell_ok, length32. lia. }
  constructor; simpl; try done; try (unfold length32; lia).
  - constructor.
  - rewrite !clearStarts_length, length_replicate. lia.
  - rewrite length_replicate. lia.
  - do 2 (apply clearStarts_cells; [unfold length32; lia|]). apply Hcells.
Qed.

(** [X2] A new matcher bound to a subject is in order: its input length is
    the length of the subject, its stack is empty, the capture vectors have
    N+1 slots and the slot of every group reads -1, it holds no match and
    its match bounds are 0. *)
Theorem new_matcher_ok (pat : RegexPattern) (input : list Z) :
  0 <= fNumCaptureGroups pat ->
  matcher_ok (matcher pat input)
  /\ fInput (matcher pat input) = input
  /\ fPattern (matcher pat input) = pat
  /\ fBackTrackStack (matcher pat input) = []
  /\ fMatch (matcher pat input) = false
  /\ fMatchStart (matcher pat input) = 0 /\ fMatchEnd (matcher pat input) = 0
  /\ fLastMatchEnd (matcher pat input) = 0
  /\ (forall g, 0 <= g <= fNumCaptureGroups pat ->
                elementAti (fCaptureStarts (matcher pat input)) g = -1
                /\ elementAti (fCaptureEnds (matcher pat input)) g = -1).
Proof.
  intros HN. split_and!; try done; [by apply matcher_ok_new|].
  intros g Hg. simpl. replace g with (Z.of_nat (Z.to_nat g)) by lia.
  rewrite !elementAti_lookup, clearStarts_lookup.
  rewrite !clearStarts_length, length_replicate.
  split; [case_decide; [done|lia]|].
  rewrite lookup_replicate_2 by lia. done.
Qed.

Section KeptByOperations.
Context `{UnicodeData}.

Lemma find_loop_ok n fuel m startPos b m' :
  matcher_ok m -> 0 <= startPos ->
  find_loop n fuel m startPos = Ret (b, m') -> matcher_ok m'.
Proof.
  revert m startPos. induction n as [|n IH]; intros m startPos Hok Hpos; cbn [find_loop].
  - destruct (startPos <? fInputLength m); by intros [= _ <-].
  - destruct (Z.ltb_spec startPos (fInputLength m)) as [Hlt|_]; [|by intros [= _ <-]].
    destruct (MatchAt fuel m startPos U_ZERO_ERROR) as [m1| |] eqn:Hrun; try done.
    simpl. apply MatchAt_ok in Hrun; [|done|lia].
    destruct (fMatch m1); [by intros [= _ <-]|].
    apply IH; [done|]. apply moveIndex32_range.
Qed.

Lemma replaceAll_loop_ok n fuel m dest repl status dest' m' status' :
  matcher_ok m ->
  replaceAll_loop n fuel m dest repl status = Ret (dest', m', status') ->
  matcher_ok m'.
Proof.
  revert m dest status. induction n as [|n IH]; intros m dest status Hok; [done|].
  cbn [replaceAll_loop].
  destruct (find fuel m) as [[b m1]| |] eqn:Hfind; try done. simpl.
  apply find_loop_ok in Hfind; [|done|apply Hok].
  destruct b; [|by intros [= _ <- _]].
  destruct (appendReplacement m1 dest repl status) as [d st].
  destruct (U_FAILURE st); [by intros [= _ <- _]|]. by apply IH.
Qed.

(** [X3] The operations keep a matcher in order: after reset(), and after
    find(), find(start), lookingAt(), matches(), replaceAll() and
    replaceFirst() when they return, the input length is still the length
    of the subject, the stack is still a pile of whole frames whose saved
    positions are inside the subject, the capture vectors still have N+1
    slots, each -1 or a position of the subject, and matchStart, matchEnd
    and lastMatchEnd are still positions of the subject. *)
Theorem operations_keep_matcher_ok (m : RegexMatcher) :
  matcher_ok m ->
  matcher_ok (reset m)
  /\ (forall fuel startIdx status m',
        0 <= startIdx <= fInputLength m ->
        MatchAt fuel m startIdx status = Ret m' -> matcher_ok m')
  /\ (forall fuel b m', find fuel m = Ret (b, m') -> matcher_ok m')
  /\ (forall fuel start status b m' status',
        find_from fuel m start status = Ret (b, m', status') -> matcher_ok m')
  /\ (forall fuel status b m', lookingAt fuel m status = Ret (b, m') -> matcher_ok m')
  /\ (forall fuel status b m', matches fuel m status = Ret (b, m') -> matcher_ok m')
  /\ (forall fuel repl status dest m' status',
        replaceAll fuel m repl status = Ret (dest, m', status') -> matcher_ok m')
  /\ (forall fuel repl status dest m' status',
        replaceFirst fuel m repl status = Ret (dest, m', status') -> matcher_ok m').
Proof.
  intros Hok. pose proof (reset_ok m Hok) as Hreset.
  assert (Hlen : 0 <= fInputLength m).
  { destruct Hok as [-> _ _ _ _ _ _ _ _ _]. unfold length32. lia. }
  split_and!.
  - done.
  - intros fuel startIdx status m' Hs Hrun. exact (MatchAt_ok _ _ _ _ _ Hok Hs Hrun).
  - intros fuel b m' Hfind. exact (find_loop_ok _ _ _ _ _ _ Hok (proj1 (ok_mend _ Hok)) Hfind).
  - intros fuel start status b m' status'. unfold find_from.
    destruct (U_FAILURE status); [by intros [= _ <- _]|].
    destruct (Z.ltb_spec start 0); simpl; [by intros [= _ <- _]|].
    destruct (fInputLength m <=? start); [by intros [= _ <- _]|].
    destruct (find_loop _ _ _ _) as [[b1 m1]| |] eqn:Hloop; try done. simpl.
    intros [= _ <- _]. eapply find_loop_ok; [exact Hreset| |exact Hloop]. lia.
  - intros fuel status b m'. unfold lookingAt.
    destruct (U_FAILURE status) eqn:Hst; [by intros [= _ <-]|].
    destruct (MatchAt _ _ _ _) as [m1| |] eqn:Hrun; try done. simpl.
    intros [= _ <-]. eapply MatchAt_ok; [exact Hreset| |done]. simpl. lia.
  - intros fuel status b m'. unfold matches.
    destruct (U_FAILURE status) eqn:Hst; [by intros [= _ <-]|].
    destruct (MatchAt _ _ _ _) as [m1| |] eqn:Hrun; try done. simpl.
    intros [= _ <-]. eapply MatchAt_ok; [exact Hreset| |done]. simpl. lia.
  - intros fuel repl status dest m' status'. unfold replaceAll.
    destruct (U_FAILURE status); [by intros [= _ <- _]|].
    destruct (replaceAll_loop _ _ _ _ _ _) as [[[d m1] st]| |] eqn:Hloop; try done.
    simpl. intros [= _ <- _]. eapply replaceAll_loop_ok; [exact Hreset|exact Hloop].
  - intros fuel repl status dest m' status'. unfold replaceFirst.
    destruct (U_FAILURE status); [by intros [= _ <- _]|].
    destruct (find fuel (reset m)) as [[b m1]| |] eqn:Hfind; try done. simpl.
    apply find_loop_ok in Hfind; [|done|apply Hreset].
    destruct b; simpl; [|by intros [= _ <- _]].
    destruct (appendReplacement _ _ _ _). by intros [= _ <- _].
Qed.

End KeptByOperations.

(* ------------------------------------------------------------------------- *)
(** ** replaceAll with the text of the match *)

Section ReplaceAllTotal.
Context `{UnicodeData}.

Section Total.
Variable m : RegexMatcher.
Hypothesis Hattempts : attempts_return_nonempty m.

(** Under [attempts_return_nonempty] the scan of find() returns, and a
    match it reports is not empty. *)
Lemma find_loop_total (n : nat) (m1 : RegexMatcher) (startPos : Z) :
  same_subject m m1 -> matcher_ok m1 -> 0 <= startPos ->
  fInputLength m - startPos <= Z.of_nat n ->
  exists fuel0 (b : bool) m2,
    (forall fuel, (fuel0 <= fuel)%nat -> find_loop n fuel m1 startPos = Ret (b, m2))
    /\ same_subject m m2 /\ matcher_ok m2
    /\ (if b
        then fMatch m2 = true /\ startPos <= fMatchStart m2
             /\ fMatchStart m2 < fMatchEnd m2 <= fInputLength m
             /\ fLastMatchEnd m2 = fMatchEnd m1
        else fMatchEnd m2 = fMatchEnd m1).
Proof.
  revert m1 startPos. induction n as [|n IH]; intros m1 startPos Hsub Hok Hpos Hn.
  - exists 0%nat, false, m1. split_and!; [|done|done|done].
    intros fuel _. rewrite find_loop_empty; [done|].
    destruct Hsub as (_ & _ & ->). lia.
  - destruct (Z.ltb_spec startPos (fInputLength m)) as [Hlt|Hge].
    2:{ exists 0%nat, false, m1. split_and!; [|done|done|done].
        intros fuel _. rewrite find_loop_empty; [done|].
        destruct Hsub as (_ & _ & ->). lia. }
    destruct (Hattempts m1 startPos Hsub Hok ltac:(lia)) as (fuel1 & m1' & Hrun & Hne).
    pose proof (MatchAt_result _ _ _ U_ZERO_ERROR _ eq_refl Hrun) as (Hp & Hi & Hl & Hres).
    assert (Hl1 : fInputLength m1 = fInputLength m) by apply Hsub.
    assert (Hsub' : same_subject m m1').
    { destruct Hsub as (Hp0 & Hi0 & Hl0). split_and!; congruence. }
    assert (Hok' : matcher_ok m1').
    { apply (MatchAt_ok fuel1 m1 startPos U_ZERO_ERROR); [done|lia|done]. }
    assert (Hlt1 : (startPos <? fInputLength m1) = true) by lia.
    destruct (fMatch m1') eqn:Hm.
    + exists fuel1, true, m1'. destruct Hres as [Hs Hlast].
      specialize (Hne eq_refl).
      pose proof (ok_mend _ Hok') as Hend. rewrite Hl, Hl1 in Hend.
      split_and!; try done; try lia.
      intros fuel Hfuel. cbn [find_loop].
      rewrite Hlt1, (MatchAt_mono _ _ _ _ _ _ Hrun Hfuel). simpl. by rewrite Hm.
    + destruct Hres as (Hs & He & Hlast).
      pose proof (moveIndex32_fwd (fInput m1') startPos) as Hfwd.
      assert (Hlen' : length32 (fInput m1') = fInputLength m).
      { rewrite <- (ok_length _ Hok'). apply Hsub'. }
      rewrite Hlen' in Hfwd. specialize (Hfwd ltac:(lia)).
      destruct (IH m1' (moveIndex32 (fInput m1') startPos 1) Hsub' Hok'
                   ltac:(lia) ltac:(lia))
        as (fuel2 & b & m2 & Hfind & Hsub2 & Hok2 & Hb).
      exists (fuel1 `max` fuel2)%nat, b, m2. split_and!; [|done|done|].
      * intros fuel Hfuel. cbn [find_loop].
        assert (Hf1 : (fuel1 <= fuel)%nat) by lia.
        rewrite Hlt1, (MatchAt_mono _ _ _ _ _ _ Hrun Hf1). simpl.
        rewrite Hm. apply Hfind. lia.
      * destruct b; [|congruence].
        destruct Hb as (? & ? & ? & ?). split_and!; try done; try lia; congruence.
Qed.

Variable status : UErrorCode.
Hypothesis Hstatus : U_FAILURE status = false.
Hypothesis Hdigit : u_isdigit 0x30 = true.
Hypothesis Hvalue : u_charDigitValue 0x30 = 0.

(** The loop of replaceAll with "$0": what it has appended, followed by the
    subject from matchEnd on, is the subject from the first matchEnd on. *)
Lemma replaceAll_loop_total (k : nat) (m1 : RegexMatcher) (dest : list Z) :
  same_subject m m1 -> matcher_ok m1 ->
  fInputLength m - fMatchEnd m1 < Z.of_nat k ->
  exists n0 fuel0 dest' m2,
    (forall n fuel, (n0 <= n)%nat -> (fuel0 <= fuel)%nat ->
       replaceAll_loop n fuel m1 dest [DOLLARSIGN; 0x30] status = Ret (dest', m2, status))
    /\ same_subject m m2 /\ matcher_ok m2
    /\ dest' ++ drop (Z.to_nat (fMatchEnd m2)) (fInput m)
       = dest ++ drop (Z.to_nat (fMatchEnd m1)) (fInput m).
Proof.
  revert m1 dest. induction k as [|k IH]; intros m1 dest Hsub Hok Hk;
    assert (Hl1 : fInputLength m1 = fInputLength m) by apply Hsub;
    pose proof (ok_mend _ Hok) as He; rewrite Hl1 in He; [lia|].
  destruct (find_loop_total (Z.to_nat (fInputLength m1 - fMatchEnd m1)) m1 (fMatchEnd m1)
              Hsub Hok ltac:(lia) ltac:(lia))
    as (fuelA & b & m2 & Hfind & Hsub2 & Hok2 & Hb).
  assert (Hi2 : fInput m2 = fInput m) by apply Hsub2.
  destruct b.
  - destruct Hb as (Hm2 & Hs2 & [Hlt2 Hle2] & Hlast2).
    destruct (IH m2 (dest ++ betweenText m2
                          ++ substr (fInput m2) (fMatchStart m2)
                                    (fMatchEnd m2 - fMatchStart m2))
                 Hsub2 Hok2 ltac:(lia))
      as (n1 & fuelB & dest' & m3 & Hrest & Hsub3 & Hok3 & Heq).
    exists (S n1), (fuelA `max` fuelB)%nat, dest', m3. split_and!; [|done|done|].
    + intros n fuel Hn Hfuel. destruct n as [|n]; [lia|].
      cbn [replaceAll_loop]. unfold find. rewrite Hfind by lia. simpl.
      rewrite appendReplacement_group0; try done.
      * rewrite Hstatus. apply Hrest; lia.
      * apply Hok2.
      * lia.
    + rewrite Heq, <- !app_assoc. f_equal. rewrite Hi2.
      rewrite substr_then_drop by lia.
      unfold betweenText. rewrite Hlast2, Hi2.
      destruct (Z.ltb_spec 0 (fMatchStart m2 - fMatchEnd m1)).
      * apply substr_then_drop. lia.
      * simpl. f_equal. lia.
  - exists 1%nat, fuelA, dest, m2. split_and!; [|done|done|by rewrite Hb].
    intros n fuel Hn Hfuel. destruct n as [|n]; [lia|].
    cbn [replaceAll_loop]. unfold find. by rewrite Hfind by lia.
Qed.

End Total.

(** [C4, as amended] For every subject s and every pattern whose match
    attempts on s all return and, when they succeed, end after their start
    position (no empty match), replaceAll with the replacement text "$0"
    returns s.  The matcher is one in order, as a new matcher is; the
    attempts are those of the matchers in order on the pattern and s, with
    any number of capture groups. *)
Theorem replaceAll_group0_identity (m : RegexMatcher) (status : UErrorCode) :
  matcher_ok m ->
  U_FAILURE status = false ->
  u_isdigit 0x30 = true ->
  u_charDigitValue 0x30 = 0 ->
  attempts_return_nonempty m ->
  exists fuel0 m', forall fuel, (fuel0 <= fuel)%nat ->
    replaceAll fuel m [DOLLARSIGN; 0x30] status = Ret (fInput m, m', status).
Proof.
  intros Hok Hst Hdig Hval Hatt.
  destruct (replaceAll_loop_total m Hatt status Hst Hdig Hval
              (S (Z.to_nat (fInputLength m))) (reset m) [])
    as (n0 & fuel0 & dest' & m2 & Hloop & Hsub2 & Hok2 & Heq).
  { by repeat split. }
  { by apply reset_ok. }
  { simpl. pose proof (ok_mend _ Hok). lia. }
  exists (n0 `max` fuel0)%nat, m2. intros fuel Hfuel.
  unfold replaceAll. rewrite Hst, Hloop by lia. simpl.
  rewrite appendTail_drop; [| |apply Hok2].
  - destruct Hsub2 as (_ & -> & _). by rewrite Heq.
  - apply Hok2.
Qed.

End ReplaceAllTotal.

(** [X4] For a matcher in order that holds a match, start(g) and end(g) of
    every valid group are -1 or positions of the subject, the bounds of the
    whole match are positions of the subject, and group(g) is never longer
    than the subject. *)
Theorem accessors_stay_inside (m : RegexMatcher) (g : Z) (status : UErrorCode) :
  matcher_ok m -> fMatch m = true -> U_FAILURE status = false ->
  0 <= g <= fNumCaptureGroups (fPattern m) ->
  -1 <= (start m g status).1 <= fInputLength m
  /\ -1 <= (end_ m g status).1 <= fInputLength m
  /\ (g = 0 -> 0 <= (start m g status).1 /\ 0 <= (end_ m g status).1)
  /\ (start m g status).2 = status /\ (end_ m g status).2 = status
  /\ (length (group m g status).1 <= length (fInput m))%nat.
Proof.
  intros [Hwf HN Hstk Hns Hne Hcs Hce Hms Hme Hml] Hm Hst Hg.
  assert (Hread : forall (v : list Z),
             Forall (cell_ok (fInputLength m)) v ->
             Z.of_nat (length v) = fNumCaptureGroups (fPattern m) + 1 ->
             -1 <= elementAti v g <= fInputLength m).
  { intros v Hv Hlen. replace g with (Z.of_nat (Z.to_nat g)) by lia.
    rewrite elementAti_lookup.
    destruct (v !! Z.to_nat g) as [c|] eqn:Hj; simpl.
    - by eapply Forall_lookup in Hv.
    - apply lookup_ge_None in Hj. lia. }
  pose proof (Hread _ Hcs Hns) as Hs. pose proof (Hread _ Hce Hne) as He.
  assert (Hlen : (length (group m g status).1 <= length (fInput m))%nat).
  { unfold group. destruct (start m g status) as [s st1]. destruct (end_ m g st1) as [e st2].
    destruct (U_FAILURE st2); simpl; [lia|].
    destruct (s <? 0); simpl; [lia|].
    unfold substr. rewrite length_take, length_drop. lia. }
  unfold start, end_ in *. rewrite Hst, Hm in *. simpl in *.
  assert ((g <? 0) || (fNumCaptureGroups (fPattern m) <? g) = false) as Hr by lia.
  rewrite Hr in *.
  destruct (Z.eqb_spec g 0) as [->|Hne0]; simpl.
  - split_and!; try done; lia.
  - destruct (elementAti (fCaptureStarts m) g =? -1); simpl; split_and!; try done; lia.
Qed.

(* ------------------------------------------------------------------------- *)
(** ** find(), lookingAt() and one match attempt *)

Section Finding.
Context `{UnicodeData}.

Lemma find_loop_order n fuel m p m' :
  fInputLength m = length32 (fInput m) ->
  find_loop n fuel m p = Ret (true, m') ->
  fMatch m' = true /\ p <= fMatchStart m' < fInputLength m
  /\ fLastMatchEnd m' = fMatchEnd m.
Proof.
  revert m p. induction n as [|n IH]; intros m p Hwf; cbn [find_loop].
  - by destruct (p <? fInputLength m).
  - destruct (Z.ltb_spec p (fInputLength m)) as [Hlt|_]; [|done].
    destruct (MatchAt fuel m p U_ZERO_ERROR) as [m1| |] eqn:Hrun; try done. simpl.
    apply MatchAt_result in Hrun as (_ & Hin & Hlen & Hb); [|done].
    destruct (fMatch m1) eqn:Hm1.
    + intros [= <-]. destruct Hb as [-> ->]. done.
    + intros Hrec. apply IH in Hrec as (Hm & Hs & Hl); [|congruence].
      destruct Hb as (_ & He & _).
      destruct (Z.le_gt_cases p 0) as [Hneg|Hpos].
      * pose proof (moveIndex32_range (fInput m1) p). split_and!; [done|lia|lia|congruence].
      * pose proof (moveIndex32_ge (fInput m1) p ltac:(rewrite Hin; lia)).
        split_and!; [done|lia|lia|congruence].
Qed.

(** [X5] Successive matches of find() never overlap: a match reported by
    find() starts at or after the end of the previous match and before the
    end of the subject, and lastMatchEnd records the end of the previous
    match. *)
Theorem find_reports_next_match (fuel : nat) (m m' : RegexMatcher) :
  fInputLength m = length32 (fInput m) ->
  find fuel m = Ret (true, m') ->
  fMatch m' = true
  /\ fMatchEnd m <= fMatchStart m' < fInputLength m
  /\ fLastMatchEnd m' = fMatchEnd m.
Proof. intros Hwf Hfind. by eapply find_loop_order. Qed.

(** [X6] find(start) searches from start: a match it reports begins at or
    after start, lastMatchEnd is 0 since the matcher was reset, and the
    status is left as it was. *)
Theorem find_from_reports_from_start
    (fuel : nat) (m m' : RegexMatcher) (start : Z) (status status' : UErrorCode) :
  fInputLength m = length32 (fInput m) ->
  find_from fuel m start status = Ret (true, m', status') ->
  0 <= start <= fMatchStart m' /\ fMatchStart m' < fInputLength m
  /\ fMatch m' = true /\ fLastMatchEnd m' = 0
  /\ status' = status /\ U_FAILURE status = false.
Proof.
  intros Hwf. unfold find_from.
  destruct (U_FAILURE status) eqn:Hst; [done|].
  destruct (Z.ltb_spec start 0); simpl; [done|].
  destruct (fInputLength m <=? start); [done|].
  destruct (find_loop _ _ _ _) as [[b1 m1]| |] eqn:Hloop; try done. simpl.
  intros [= -> <- <-]. apply find_loop_order in Hloop as (Hm & Hs & Hl); [|done].
  simpl in *. split_and!; try done; lia.
Qed.

Lemma find_loop_false n fuel m p m' :
  find_loop n fuel m p = Ret (false, m') ->
  (m' = m \/ fMatch m' = false)
  /\ fMatchStart m' = fMatchStart m /\ fMatchEnd m' = fMatchEnd m
  /\ fLastMatchEnd m' = fLastMatchEnd m.
Proof.
  revert m p. induction n as [|n IH]; intros m p; cbn [find_loop].
  - destruct (p <? fInputLength m); intros [= <-]; auto.
  - destruct (Z.ltb_spec p (fInputLength m)) as [Hlt|_]; [|intros [= <-]; auto].
    destruct (MatchAt fuel m p U_ZERO_ERROR) as [m1| |] eqn:Hrun; try done. simpl.
    apply MatchAt_result in Hrun as (_ & Hin & Hlen & Hb); [|done].
    destruct (fMatch m1) eqn:Hm1; [done|].
    intros Hrec. apply IH in Hrec as (Hm & Hs & He & Hl).
    destruct Hb as (? & ? & ?).
    split_and!; try congruence. right. destruct Hm as [->|]; done.
Qed.

(** [X7] What a find() that reports no match leaves behind: the three match
    bounds are as before; if there was a position left to try, the matcher
    holds no match any more; if the previous match ended at the end of the
    subject, nothing is tried and the matcher is returned as it was, the
    previous match (if any) still held. *)
Theorem find_without_match (fuel : nat) (m m' : RegexMatcher) :
  find fuel m = Ret (false, m') ->
  fMatchStart m' = fMatchStart m /\ fMatchEnd m' = fMatchEnd m
  /\ fLastMatchEnd m' = fLastMatchEnd m
  /\ (fMatchEnd m < fInputLength m -> fMatch m' = false)
  /\ (fInputLength m <= fMatchEnd m -> m' = m).
Proof.
  intros Hfind. pose proof Hfind as Hf.
  apply find_loop_false in Hf as (_ & Hs & He & Hl).
  split_and!; try done.
  - intros Hlt. unfold find in Hfind.
    destruct (Z.to_nat (fInputLength m - fMatchEnd m)) as [|n] eqn:Hn; [lia|].
    cbn [find_loop] in Hfind.
    destruct (Z.ltb_spec (fMatchEnd m) (fInputLength m)) as [_|]; [|lia].
    destruct (MatchAt fuel m (fMatchEnd m) U_ZERO_ERROR) as [m1| |] eqn:Hrun; try done.
    simpl in Hfind. destruct (fMatch m1) eqn:Hm1; [done|].
    apply find_loop_false in Hfind as ([->|] & _); done.
  - intros Hge. unfold find in Hfind. rewrite find_loop_empty in Hfind by done.
    by injection Hfind as <-.
Qed.

(** [X8] lookingAt() and matches() run the same attempt: whatever lookingAt()
    returns, matches() returns the same matcher, and answers true exactly
    when lookingAt() does and the match ends at the end of the subject.  A
    match reported by lookingAt() starts at 0 with lastMatchEnd 0. *)
Theorem lookingAt_and_matches
    (fuel : nat) (m m' : RegexMatcher) (status : UErrorCode) (b : bool) :
  lookingAt fuel m status = Ret (b, m') ->
  matches fuel m status
    = Ret (b && (negb (U_FAILURE status) && (fMatchEnd m' =? fInputLength m')), m')
  /\ (b = true -> fMatch m' = true /\ fMatchStart m' = 0 /\ fLastMatchEnd m' = 0).
Proof.
  unfold lookingAt, matches.
  destruct (U_FAILURE status) eqn:Hst; [by intros [= <- <-]|].
  destruct (MatchAt fuel (reset m) 0 status) as [m1| |] eqn:Hrun; try done. simpl.
  intros [= <- <-]. split; [done|]. intros Hm.
  apply MatchAt_result in Hrun as (_ & _ & _ & Hb); [|done].
  rewrite Hm in Hb. by destruct Hb.
Qed.

(** [X9] The bookkeeping of one match attempt: MatchAt never changes the
    pattern, the subject or the input length; under a failing status it
    does nothing at all; a successful attempt sets matchStart to the start
    index and lastMatchEnd to the former matchEnd; a failed attempt leaves
    matchStart, matchEnd and lastMatchEnd as they were. *)
Theorem MatchAt_bookkeeping
    (fuel : nat) (m m' : RegexMatcher) (startIdx : Z) (status : UErrorCode) :
  MatchAt fuel m startIdx status = Ret m' ->
  fPattern m' = fPattern m /\ fInput m' = fInput m
  /\ fInputLength m' = fInputLength m
  /\ (U_FAILURE status = true -> m' = m)
  /\ (U_FAILURE status = false ->
      if fMatch m'
      then fMatchStart m' = startIdx /\ fLastMatchEnd m' = fMatchEnd m
      else fMatchStart m' = fMatchStart m /\ fMatchEnd m' = fMatchEnd m
           /\ fLastMatchEnd m' = fLastMatchEnd m).
Proof.
  intros Hrun. destruct (U_FAILURE status) eqn:Hst.
  - unfold MatchAt in Hrun. rewrite Hst in Hrun. injection Hrun as <-. split_and!; done.
  - apply MatchAt_result in Hrun as (? & ? & ? & ?); [|done]. split_and!; try done.
Qed.

(** [X10] Within a match attempt only backTrack moves the input position
    back: a round of the dispatch loop that goes on with a smaller input
    index is a round that popped a frame. *)
Theorem only_backTrack_moves_back (m m' : RegexMatcher) (i p i' p' : Z) :
  fInputLength m = length32 (fInput m) ->
  MatchAt_step m i p = Next m' i' p' ->
  i' < i ->
  backTrack m = Some (m', i', p').
Proof.
  intros Hwf Hstep Hlt.
  apply MatchAt_step_shape in Hstep as [Hbt|(Hle & _)]; [done|lia|done].
Qed.

End Finding.

(* ------------------------------------------------------------------------- *)
(** ** The direction of a match attempt *)

Lemma backTrack_frames_after m m' i p lo :
  0 <= fNumCaptureGroups (fPattern m) ->
  frames_at_or_after (fCaptureStateSize (fPattern m)) lo (fBackTrackStack m) ->
  backTrack m = Some (m', i, p) ->
  frames_at_or_after (fCaptureStateSize (fPattern m)) lo (fBackTrackStack m')
  /\ lo <= i.
Proof.
  intros HN Hfr. unfold backTrack.
  destruct (popBlock _ _) as [[rest sp]|] eqn:Hpop; [|done].
  destruct (restoreCaptures _ _ _ _) as [[[cs ce] [|p' [|i' sp']]]|] eqn:Hr; try done.
  intros [= <- <- <-]. simpl.
  apply popBlock_Some in Hpop as (_ & Hstk & Hlen).
  apply restoreCaptures_rest in Hr as [Hsp Hle].
  inversion Hfr as [Hnil|stk fr i0 Hfr0 Hsize Hi0 Heq].
  - rewrite Hstk in Hnil. symmetry in Hnil. apply app_eq_nil in Hnil as [_ ->].
    simpl in Hlen. unfold fCaptureStateSize in Hlen. lia.
  - rewrite Hstk in Heq. apply app_inj_2 in Heq as [-> Hfr_eq]; [|lia].
    subst sp. split; [done|].
    assert (Hl2 : length (p' :: i' :: sp') = 2%nat).
    { rewrite Hsp, length_drop. unfold fCaptureStateSize in Hlen. lia. }
    destruct sp' as [|? ?]; [|simpl in Hl2; lia].
    assert (Hlast : list.last (fr ++ [i0]) = Some i0) by apply last_snoc.
    rewrite <- (take_drop (2 * Z.to_nat (fNumCaptureGroups (fPattern m))) (fr ++ [i0])) in Hlast.
    rewrite <- Hsp in Hlast. rewrite last_app in Hlast. simpl in Hlast.
    by injection Hlast as ->.
Qed.

Lemma stateSave_frames_after m v i lo :
  0 <= fNumCaptureGroups (fPattern m) ->
  frames_at_or_after (fCaptureStateSize (fPattern m)) lo (fBackTrackStack m) ->
  lo <= i ->
  frames_at_or_after (fCaptureStateSize (fPattern m)) lo (fBackTrackStack (stateSave m v i)).
Proof.
  intros HN Hfr Hi. unfold stateSave, reserveBlock. simpl.
  set (caps := saveCaptures _ _ _).
  replace (caps ++ [v; i]) with ((caps ++ [v]) ++ [i]) by (by rewrite <- app_assoc).
  constructor; [done| |done].
  rewrite <- app_assoc. simpl. by apply fCaptureStateSize_frame.
Qed.

Section Forward.
Context `{UnicodeData}.

Lemma MatchAt_loop_after fuel m i p b m' i' lo :
  0 <= fNumCaptureGroups (fPattern m) ->
  fInputLength m = length32 (fInput m) ->
  frames_at_or_after (fCaptureStateSize (fPattern m)) lo (fBackTrackStack m) ->
  lo <= i ->
  MatchAt_loop fuel m i p = Ret (b, m', i') ->
  frames_at_or_after (fCaptureStateSize (fPattern m)) lo (fBackTrackStack m')
  /\ lo <= i'.
Proof.
  revert m i p. induction fuel as [|fuel IH]; intros m i p HN Hwf Hfr Hi; simpl; [done|].
  destruct (MatchAt_step m i p) as [m1 i1 p1|b1 m1 i1|f] eqn:Hstep; [| |done].
  - intros Hloop.
    pose proof (MatchAt_step_binding _ _ _ _ _ _ Hstep) as (Hp & Hin & Hl & _).
    assert (frames_at_or_after (fCaptureStateSize (fPattern m)) lo (fBackTrackStack m1)
            /\ lo <= i1) as [Hfr1 Hi1].
    { apply MatchAt_step_shape in Hstep as [Hbt|(Hle & _ & Hm')]; [| |done].
      - by eapply backTrack_frames_after.
      - split; [|lia].
        destruct Hm' as [->|[(v & -> & ->)|[(g & Hg & -> & ->)|(g & Hg & -> & ->)]]];
          try done.
        by apply stateSave_frames_after. }
    rewrite <- Hp. apply (IH m1 i1 p1); try done; congruence.
  - intros [= -> -> ->]. by apply MatchAt_step_Break in Hstep as [-> ->].
Qed.

(** [X11] A match never ends before it starts, as long as no frame left on
    the stack was saved before the start index (an empty stack, as in a new
    matcher, is such a stack): the attempt then keeps that property of the
    stack, and a successful one has matchStart <= matchEnd. *)
Theorem MatchAt_ends_after_start
    (fuel : nat) (m m' : RegexMatcher) (startIdx : Z) (status : UErrorCode) :
  0 <= fNumCaptureGroups (fPattern m) ->
  fInputLength m = length32 (fInput m) ->
  frames_at_or_after (fCaptureStateSize (fPattern m)) startIdx (fBackTrackStack m) ->
  U_FAILURE status = false ->
  MatchAt fuel m startIdx status = Ret m' ->
  frames_at_or_after (fCaptureStateSize (fPattern m)) startIdx (fBackTrackStack m')
  /\ (fMatch m' = true -> fMatchStart m' = startIdx /\ startIdx <= fMatchEnd m').
Proof.
  intros HN Hwf Hfr Hst Hrun.
  apply MatchAt_Ret in Hrun as [[Hf _]|(_ & b & m1 & i & Hloop & ->)]; [congruence|].
  apply MatchAt_loop_after with (lo := startIdx) in Hloop as [Hfr1 Hi]; try done.
  split.
  - by destruct b.
  - destruct b; simpl; [done|done].
Qed.

End Forward.

(* ------------------------------------------------------------------------- *)
(** ** Opcodes at the end of the subject and at a line end *)

Section Opcodes.
Context `{UnicodeData}.

(** [X12] At the end of the subject every opcode that takes a character
    backtracks: ONECHAR, SETREF, DOTANY, DOTANY_ALL, BACKSLASH_D,
    BACKSLASH_X and the plain STATIC_SETREF read nothing past the end. *)
Theorem takes_a_char_fails_at_end (m : RegexMatcher) (i p op : Z) :
  0 <= p ->
  fCompiledPat (fPattern m) !! Z.to_nat p = Some op ->
  takes_a_char op = true ->
  fInputLength m <= i ->
  MatchAt_step m i p = doBackTrack m.
Proof.
  intros Hp Hop Htake Hend. unfold MatchAt_step, takes_a_char in *.
  destruct (Z.ltb_spec p 0); [lia|]. rewrite Hop.
  destruct (Z.ltb_spec i (fInputLength m)); [lia|].
  destruct (Z.leb_spec (fInputLength m) i); [|lia].
  destruct (URX_TYPE op) as [[]|]; try done.
  apply negb_true_iff in Htake. by rewrite Htake.
Qed.

(** [X13] A negated STATIC_SETREF succeeds at the end of the subject: with
    the negation flag set and no input left the round goes on at the next
    instruction, the matcher and the input position as they were. *)
Theorem negated_static_set_at_end (m : RegexMatcher) (i p op : Z) :
  0 <= p ->
  fCompiledPat (fPattern m) !! Z.to_nat p = Some op ->
  URX_TYPE op = Some URX_STATIC_SETREF ->
  Z.land (URX_VAL op) URX_NEG_SET = URX_NEG_SET ->
  fInputLength m <= i ->
  MatchAt_step m i p = Next m i (p + 1).
Proof.
  intros Hp Hop Ht Hneg Hend. unfold MatchAt_step.
  destruct (Z.ltb_spec p 0); [lia|]. rewrite Hop, Ht.
  destruct (Z.ltb_spec i (fInputLength m)); [lia|].
  rewrite Hneg. by rewrite Z.eqb_refl.
Qed.

Lemma fast_path_keeps_terminators (c : Z) :
  (Z.land c 0x7f <=? 0x29) && isLineTerminator c
  = bool_decide (c ∈ [0x0a; 0x0d; 0x0c; 0x85; 0x2028; 0x2029]).
Proof.
  unfold isLineTerminator.
  destruct (Z.eqb_spec c 0x0a) as [->|]; [done|].
  destruct (Z.eqb_spec c 0x0d) as [->|]; [done|].
  destruct (Z.eqb_spec c 0x0c) as [->|]; [done|].
  destruct (Z.eqb_spec c 0x85) as [->|]; [done|].
  destruct (Z.eqb_spec c 0x2028) as [->|]; [done|].
  destruct (Z.eqb_spec c 0x2029) as [->|]; [done|].
  rewrite andb_false_r. symmetry. apply bool_decide_eq_false.
  rewrite !elem_of_cons, elem_of_nil. tauto.
Qed.

(** [X14] DOTANY with input left takes one code point and fails on exactly
    the six line terminators 0x0a, 0x0d, 0x0c, 0x85, 0x2028 and 0x2029: the
    quick test on the low seven bits that comes first lets every one of
    them through to the comparison. *)
Theorem DOTANY_fails_on_line_terminators (m : RegexMatcher) (i p op : Z) :
  0 <= p ->
  fCompiledPat (fPattern m) !! Z.to_nat p = Some op ->
  URX_TYPE op = Some URX_DOTANY ->
  i < fInputLength m ->
  MatchAt_step m i p
  = if bool_decide ((U16_NEXT (fInput m) i (fInputLength m)).1
                    ∈ [0x0a; 0x0d; 0x0c; 0x85; 0x2028; 0x2029])
    then doBackTrack m
    else Next m (U16_NEXT (fInput m) i (fInputLength m)).2 (p + 1).
Proof.
  intros Hp Hop Ht Hi. unfold MatchAt_step.
  destruct (Z.ltb_spec p 0); [lia|]. rewrite Hop, Ht.
  destruct (Z.leb_spec (fInputLength m) i); [lia|].
  destruct (U16_NEXT _ _ _) as [c i']. simpl.
  by rewrite fast_path_keeps_terminators.
Qed.

(** [X15] With input left, an opcode that takes a character either
    backtracks or goes on at the next instruction with the matcher as it
    was and the input position moved forward by at least one code unit and
    not past the end of the subject (SETREF may also stop on a set index
    that the pattern does not have). *)
Theorem takes_a_char_advances (m : RegexMatcher) (i p op : Z) :
  fInputLength m = length32 (fInput m) ->
  0 <= p ->
  fCompiledPat (fPattern m) !! Z.to_nat p = Some op ->
  takes_a_char op = true ->
  0 <= i < fInputLength m ->
  MatchAt_step m i p = doBackTrack m
  \/ MatchAt_step m i p = Abort BadIndex
  \/ exists i', MatchAt_step m i p = Next m i' (p + 1) /\ i < i' <= fInputLength m.
Proof.
  intros Hwf Hp Hop Htake Hi.
  pose proof (moveIndex32_fwd (fInput m) i ltac:(lia)) as Hf1.
  pose proof (moveIndex32_range (fInput m) (moveIndex32 (fInput m) i 1)) as Hr2.
  pose proof (moveIndex32_ge (fInput m) (moveIndex32 (fInput m) i 1) ltac:(lia)) as Hg2.
  pose proof (skipCombining_range (S (length (fInput m))) m (moveIndex32 (fInput m) i 1)
                ltac:(lia)) as Hr3.
  pose proof (skipCombining_ge (S (length (fInput m))) m (moveIndex32 (fInput m) i 1)
                ltac:(lia)) as Hg3.
  unfold MatchAt_step, takes_a_char in *.
  destruct (Z.ltb_spec p 0); [lia|]. rewrite Hop.
  destruct (Z.ltb_spec i (fInputLength m)); [|lia].
  destruct (Z.leb_spec (fInputLength m) i); [lia|].
  destruct (U16_NEXT (fInput m) i (fInputLength m)) as [c i'] eqn:Hnext.
  apply U16_NEXT_range in Hnext; [|done].
  destruct (URX_TYPE op) as [[]|]; try done;
    repeat case_match; auto;
    right; right; eexists; (split; [done|lia]).
Qed.

End Opcodes.

(* ------------------------------------------------------------------------- *)
(** ** The word boundary test *)

Lemma char32At_single s i :
  0 <= i < length32 s -> single_unit s i -> char32At s i = charAt s i.
Proof.
  intros Hi [Hl Ht]. unfold char32At.
  destruct (Z.leb_spec 0 i); [|lia]. destruct (Z.ltb_spec i (length32 s)); [|lia].
  simpl. by rewrite Hl, Ht.
Qed.

Lemma moveIndex32_back_single s i :
  0 < i <= length32 s -> single_unit s (i - 1) -> moveIndex32 s i (-1) = i - 1.
Proof.
  intros Hi [_ Ht]. unfold moveIndex32.
  destruct (Z.ltb_spec i 0); [lia|]. destruct (Z.ltb_spec (length32 s) i); [lia|].
  simpl. destruct (Z.ltb_spec 0 i); [|lia].
  unfold U16_BACK_1. by rewrite Ht.
Qed.

Section WordBoundary.
Context `{UnicodeData}.

Lemma prevIsWord_skips_marks (m : RegexMatcher) (k n : nat) (pos q : Z) :
  (k < n)%nat -> q = pos - 1 - Z.of_nat k -> 0 <= q ->
  pos <= length32 (fInput m) ->
  (forall j, q <= j < pos -> single_unit (fInput m) j) ->
  isCombining (u_charType (charAt (fInput m) q)) = false ->
  (forall j, q < j < pos -> isCombining (u_charType (charAt (fInput m) j)) = true) ->
  prevIsWord n m pos
  = contains (fStaticSets (fPattern m) URX_ISWORD_SET) (charAt (fInput m) q).
Proof.
  revert n pos. induction k as [|k IH]; intros n pos Hn Hq Hq0 Hpos Hsingle Hbase Hmarks;
    (destruct n as [|n]; [lia|]); cbn [prevIsWord].
  - assert (q = pos - 1) as -> by lia.
    destruct (Z.eqb_spec pos 0); [lia|].
    rewrite moveIndex32_back_single by (try apply Hsingle; lia).
    rewrite char32At_single by (try apply Hsingle; lia).
    by rewrite Hbase.
  - destruct (Z.eqb_spec pos 0); [lia|].
    rewrite moveIndex32_back_single by (try apply Hsingle; lia).
    rewrite char32At_single by (try apply Hsingle; lia).
    rewrite Hmarks by lia. simpl.
    apply IH; try lia; try done.
    + intros j Hj. apply Hsingle. lia.
    + intros j Hj. apply Hmarks. lia.
Qed.

(** [X16] The word boundary test looks through combining marks: when the
    character at pos is no combining mark, the characters between q and pos
    are combining marks and the one at q is not (all of them single code
    units), isWordBoundary(pos) says whether the characters at pos and at q
    differ in membership of the word set.  With q = pos - 1 this is the
    test on two neighbours. *)
Theorem isWordBoundary_skips_marks (m : RegexMatcher) (pos q : Z) :
  fInputLength m = length32 (fInput m) ->
  0 <= q < pos -> pos < fInputLength m ->
  (forall j, q <= j <= pos -> single_unit (fInput m) j) ->
  isCombining (u_charType (charAt (fInput m) pos)) = false ->
  isCombining (u_charType (charAt (fInput m) q)) = false ->
  (forall j, q < j < pos -> isCombining (u_charType (charAt (fInput m) j)) = true) ->
  isWordBoundary m pos
  = xorb (contains (fStaticSets (fPattern m) URX_ISWORD_SET) (charAt (fInput m) pos))
         (contains (fStaticSets (fPattern m) URX_ISWORD_SET) (charAt (fInput m) q)).
Proof.
  intros Hwf Hq Hpos Hsingle Hcur Hbase Hmarks. unfold isWordBoundary.
  destruct (Z.leb_spec (fInputLength m) pos); [lia|].
  rewrite char32At_single by (try apply Hsingle; lia).
  rewrite Hcur. f_equal.
  apply prevIsWord_skips_marks with (k := Z.to_nat (pos - 1 - q)); try done; try lia.
  intros j Hj. apply Hsingle. lia.
Qed.

(** [X17] Where isWordBoundary finds no previous character: at position 0,
    and after a run of combining marks that begins the subject, the
    position is a boundary exactly when its own character is a word
    character; and a position on a combining mark is never a boundary. *)
Theorem isWordBoundary_without_previous (m : RegexMatcher) (pos : Z) :
  fInputLength m = length32 (fInput m) ->
  0 <= pos < fInputLength m ->
  (forall j, 0 <= j < pos ->
     single_unit (fInput m) j
     /\ isCombining (u_charType (charAt (fInput m) j)) = true) ->
  isWordBoundary m pos
  = if isCombining (u_charType (char32At (fInput m) pos)) then false
    else contains (fStaticSets (fPattern m) URX_ISWORD_SET) (char32At (fInput m) pos).
Proof.
  intros Hwf Hpos Hmarks. unfold isWordBoundary.
  destruct (Z.leb_spec (fInputLength m) pos); [lia|].
  destruct (isCombining _); [done|].
  assert (Hprev : forall n p, 0 <= p <= pos -> prevIsWord n m p = false).
  { induction n as [|n IH]; intros p Hp; cbn [prevIsWord]; [done|].
    destruct (Z.eqb_spec p 0); [done|].
    destruct (Hmarks (p - 1) ltac:(lia)) as [Hs Hc].
    rewrite moveIndex32_back_single by (try done; lia).
    rewrite char32At_single by (try done; lia).
    rewrite Hc. simpl. apply IH. lia. }
  rewrite Hprev by lia. by rewrite xorb_false_r.
Qed.

End WordBoundary.

(* ------------------------------------------------------------------------- *)
(** ** Replacement text *)

Lemma charAt_app_head (pre rest : list Z) (x : Z) :
  charAt (pre ++ x :: rest) (length32 pre) = x.
Proof.
  unfold charAt, length32. destruct (Z.ltb_spec (Z.of_nat (length pre)) 0); [lia|].
  rewrite Nat2Z.id, lookup_app_r by lia. by rewrite Nat.sub_diag.
Qed.

Lemma charAt_app_second (pre rest : list Z) (x y : Z) :
  charAt (pre ++ x :: y :: rest) (length32 pre + 1) = y.
Proof.
  replace (pre ++ x :: y :: rest) with ((pre ++ [x]) ++ y :: rest)
    by (by rewrite <- app_assoc).
  replace (length32 pre + 1) with (length32 (pre ++ [x]))
    by (unfold length32; rewrite length_app; simpl; lia).
  apply charAt_app_head.
Qed.

Section Replacing.
Context `{UnicodeData}.

Lemma replLoop_escape m status (t : list Z) :
  forall (pre : list Z) (n : nat) (dest : list Z),
    (length (escape t) <= n)%nat ->
    replLoop n m (pre ++ escape t) (length32 pre) dest status = (dest ++ t, status).
Proof.
  induction t as [|c t IH]; intros pre n dest Hn.
  - simpl. rewrite app_nil_r.
    destruct n; simpl; destruct (Z.ltb_spec (length32 pre) (length32 pre)); try lia;
      by rewrite app_nil_r.
  - change (escape (c :: t))
      with ((if (c =? BACKSLASH) || (c =? DOLLARSIGN) then [BACKSLASH; c] else [c]) ++ escape t)
      in *.
    destruct ((c =? BACKSLASH) || (c =? DOLLARSIGN)) eqn:Hc.
    + simpl in Hn. destruct n as [|n]; [lia|].
      cbn [replLoop app].
      destruct (Z.ltb_spec (length32 pre) (length32 (pre ++ BACKSLASH :: c :: escape t))) as [_|Hge];
        cycle 1.
      { unfold length32 in Hge. rewrite length_app in Hge. simpl in Hge. lia. }
      unfold replIter. rewrite charAt_app_head.
      change (BACKSLASH =? BACKSLASH) with true. cbv iota.
      destruct (Z.leb_spec (length32 (pre ++ BACKSLASH :: c :: escape t)) (length32 pre + 1)) as [Hle|_].
      { unfold length32 in Hle. rewrite length_app in Hle. simpl in Hle. lia. }
      rewrite charAt_app_second.
      replace (pre ++ BACKSLASH :: c :: escape t)
        with ((pre ++ [BACKSLASH; c]) ++ escape t) by (by rewrite <- app_assoc).
      replace (length32 pre + 1 + 1) with (length32 (pre ++ [BACKSLASH; c]))
        by (unfold length32; rewrite !length_app; simpl; lia).
      rewrite IH by lia. by rewrite <- app_assoc.
    + apply orb_false_iff in Hc as [Hb Hd].
      simpl in Hn. destruct n as [|n]; [lia|].
      cbn [replLoop app].
      destruct (Z.ltb_spec (length32 pre) (length32 (pre ++ c :: escape t))) as [_|Hge];
        cycle 1.
      { unfold length32 in Hge. rewrite length_app in Hge. simpl in Hge. lia. }
      unfold replIter. rewrite charAt_app_head, Hb, Hd. cbv iota. simpl negb. cbv iota.
      replace (pre ++ c :: escape t)
        with ((pre ++ [c]) ++ escape t) by (by rewrite <- app_assoc).
      replace (length32 pre + 1) with (length32 (pre ++ [c]))
        by (unfold length32; rewrite length_app; simpl; lia).
      rewrite IH by lia. by rewrite <- app_assoc.
Qed.

Lemma escaped_text_appended m dest t status :
  U_FAILURE status = false -> fMatch m = true ->
  appendReplacement m dest (escape t) status = (dest ++ betweenText m ++ t, status).
Proof.
  intros Hst Hm. unfold appendReplacement. rewrite Hst, Hm. simpl.
  pose proof (replLoop_escape m status t [] (length (escape t))) as Hloop.
  simpl in Hloop. rewrite Hloop by lia.
  unfold betweenText. destruct (0 <? _); [by rewrite <- app_assoc|done].
Qed.

(** [X18] Escaping round trip: a text in which every backslash and every
    dollar sign is preceded by a backslash is appended as it was before the
    escaping, after the text between the previous match and this one; a
    text without backslash and dollar sign is its own escaped form, so it
    is appended as it is.  The status is not touched. *)
Theorem appendReplacement_escape
    (m : RegexMatcher) (dest t : list Z) (status : UErrorCode) :
  U_FAILURE status = false -> fMatch m = true ->
  appendReplacement m dest (escape t) status = (dest ++ betweenText m ++ t, status)
  /\ (Forall (fun c => c <> BACKSLASH /\ c <> DOLLARSIGN) t ->
      appendReplacement m dest t status = (dest ++ betweenText m ++ t, status)).
Proof.
  intros Hst Hm. split; [by apply escaped_text_appended|].
  intros Hplain. assert (escape t = t) as Hesc.
  { induction Hplain as [|c t0 [Hb Hd] _ IH]; [done|].
    change (escape (c :: t0))
      with ((if (c =? BACKSLASH) || (c =? DOLLARSIGN) then [BACKSLASH; c] else [c])
            ++ escape t0).
    destruct (Z.eqb_spec c BACKSLASH); [done|]. destruct (Z.eqb_spec c DOLLARSIGN); [done|].
    simpl. by rewrite IH. }
  rewrite <- Hesc at 1. by apply escaped_text_appended.
Qed.

Lemma replIter_Break m repl i d status d' status' :
  replIter m repl i d status = ReplBreak d' status' -> exists x, d' = d ++ x.
Proof.
  unfold replIter.
  destruct (_ =? BACKSLASH).
  - destruct (_ <=? _); [|done]. intros [= <- _]. exists []. by rewrite app_nil_r.
  - destruct (negb _); [done|].
    destruct (scanGroupNum _ _ _ _ _ _) as [[i1 nd] g].
    destruct (nd =? 0); [done|].
    destruct (group m g status) as [x st]. destruct (U_FAILURE st); [|done].
    intros [= <- _]. by exists x.
Qed.

Lemma replLoop_only_appends m repl status n :
  forall i d, 0 <= i -> exists x, (replLoop n m repl i d status).1 = d ++ x.
Proof.
  induction n as [|n IH]; intros i d Hi; cbn [replLoop].
  - destruct (_ <? _); exists []; by rewrite app_nil_r.
  - destruct (_ <? _); [|exists []; by rewrite app_nil_r].
    destruct (replIter m repl i d status) as [i1 d1|d1 st1] eqn:Hit.
    + apply replIter_Next in Hit as (Hlt & x & ->); [|done].
      destruct (IH i1 (d ++ x) ltac:(lia)) as (y & ->).
      exists (x ++ y). by rewrite app_assoc.
    + by apply replIter_Break in Hit.
Qed.

(** [X19] appendReplacement only ever appends: whatever the replacement
    text and the status, the destination afterwards begins with the
    destination before.  Under a failing status, and when the matcher holds
    no match, nothing is appended; without a match the status becomes
    REGEX_INVALID_STATE.  With a match, what is appended begins with the
    text between the previous match and this one. *)
Theorem appendReplacement_only_appends
    (m : RegexMatcher) (dest repl : list Z) (status : UErrorCode) :
  (exists added, (appendReplacement m dest repl status).1 = dest ++ added)
  /\ (U_FAILURE status = true -> appendReplacement m dest repl status = (dest, status))
  /\ (U_FAILURE status = false -> fMatch m = false ->
      appendReplacement m dest repl status = (dest, U_REGEX_INVALID_STATE))
  /\ (U_FAILURE status = false -> fMatch m = true ->
      exists expansions,
        (appendReplacement m dest repl status).1 = dest ++ betweenText m ++ expansions).
Proof.
  unfold appendReplacement, betweenText.
  destruct (U_FAILURE status); [|destruct (fMatch m)]; simpl.
  - split_and!; try done. exists []. by rewrite app_nil_r.
  - destruct (replLoop_only_appends m repl status (length repl) 0
                (if 0 <? fMatchStart m - fLastMatchEnd m
                 then dest ++ substr (fInput m) (fLastMatchEnd m)
                                     (fMatchStart m - fLastMatchEnd m)
                 else dest) ltac:(lia)) as (x & Hx).
    rewrite Hx. destruct (0 <? _).
    + split_and!; try done.
      * eexists. by rewrite <- app_assoc.
      * intros _ _. exists x. by rewrite <- app_assoc.
    + split_and!; try done; [by exists x|]. intros _ _. by exists x.
  - split_and!; try done. exists []. by rewrite app_nil_r.
Qed.

Lemma find_loop_subject n fuel m p b m' :
  find_loop n fuel m p = Ret (b, m') -> same_subject m m'.
Proof.
  revert m p. induction n as [|n IH]; intros m p; cbn [find_loop].
  - destruct (_ <? _); intros [= _ <-]; apply same_subject_refl.
  - destruct (_ <? _); [|intros [= _ <-]; apply same_subject_refl].
    destruct (MatchAt fuel m p U_ZERO_ERROR) as [m1| |] eqn:Hrun; try done. simpl.
    apply MatchAt_result in Hrun as (Hp & Hin & Hlen & _); [|done].
    destruct (fMatch m1).
    + by intros [= _ <-].
    + intros Hrec. apply IH in Hrec as (? & ? & ?). repeat split; congruence.
Qed.

(** [X20] Nothing to replace: when find() on the reset matcher reports no
    match, replaceFirst and replaceAll return the subject as it is, with
    the status unchanged and the matcher that find() left. *)
Theorem replace_without_match
    (fuel : nat) (m m' : RegexMatcher) (repl : list Z) (status : UErrorCode) :
  fInputLength m = length32 (fInput m) ->
  U_FAILURE status = false ->
  find fuel (reset m) = Ret (false, m') ->
  replaceFirst fuel m repl status = Ret (fInput m, m', status)
  /\ ((0 < fuel)%nat -> replaceAll fuel m repl status = Ret (fInput m, m', status)).
Proof.
  intros Hwf Hst Hfind.
  pose proof (find_loop_subject _ _ _ _ _ _ Hfind) as (_ & Hin & Hlen).
  pose proof (find_loop_false _ _ _ _ _ Hfind) as (_ & _ & He & _).
  simpl in Hin, Hlen, He. split.
  - unfold replaceFirst. rewrite Hst, Hfind. simpl. by rewrite Hin.
  - intros Hfuel. unfold replaceAll. rewrite Hst.
    destruct fuel as [|fuel]; [lia|]. cbn [replaceAll_loop].
    rewrite Hfind. simpl.
    rewrite appendTail_drop by (rewrite ?Hin, ?Hlen, ?He; done || lia).
    by rewrite He, Hin.
Qed.

(** [X21] replaceFirst with an escaped text: when find() on the reset
    matcher reports a match, the result is the subject up to the start of
    the match, the text, and the subject from the end of the match on. *)
Theorem replaceFirst_escape
    (fuel : nat) (m m' : RegexMatcher) (t : list Z) (status : UErrorCode) :
  matcher_ok m ->
  U_FAILURE status = false ->
  find fuel (reset m) = Ret (true, m') ->
  replaceFirst fuel m (escape t) status
  = Ret (take (Z.to_nat (fMatchStart m')) (fInput m) ++ t
         ++ drop (Z.to_nat (fMatchEnd m')) (fInput m), m', status).
Proof.
  intros Hok Hst Hfind.
  pose proof (find_loop_subject _ _ _ _ _ _ Hfind) as (_ & Hin & Hlen).
  pose proof (find_loop_order _ _ _ _ _ ltac:(apply (reset_ok _ Hok)) Hfind)
    as (Hm & Hs & Hl).
  assert (Hok' : matcher_ok m').
  { eapply find_loop_ok; [exact (reset_ok _ Hok)| |exact Hfind]. simpl. lia. }
  simpl in Hin, Hlen, Hs, Hl.
  unfold replaceFirst. rewrite Hst, Hfind. simpl.
  rewrite (escaped_text_appended m' [] t status Hst Hm).
  rewrite appendTail_drop; [|apply Hok'|apply Hok'].
  rewrite Hin. do 3 f_equal. simpl. rewrite <- app_assoc. f_equal.
  unfold betweenText. rewrite Hl.
  destruct (Z.ltb_spec 0 (fMatchStart m' - 0)).
  - unfold substr. rewrite Hin. simpl. by rewrite Z.sub_0_r.
  - by replace (Z.to_nat (fMatchStart m')) with 0%nat by lia.
Qed.

(** [X22] After matches() has answered true, group(0) is the whole
    subject. *)
Theorem matches_group0_is_subject
    (fuel : nat) (m m' : RegexMatcher) (status : UErrorCode) :
  fInputLength m = length32 (fInput m) ->
  0 <= fNumCaptureGroups (fPattern m) ->
  matches fuel m status = Ret (true, m') ->
  group m' 0 status = (fInput m, status)
  /\ start m' 0 status = (0, status)
  /\ end_ m' 0 status = (fInputLength m, status).
Proof.
  intros Hwf HN. unfold matches.
  destruct (U_FAILURE status) eqn:Hst; [done|].
  destruct (MatchAt fuel (reset m) 0 status) as [m1| |] eqn:Hrun; try done. simpl.
  intros [= Hb <-]. apply andb_true_iff in Hb as [Hm He]. apply Z.eqb_eq in He.
  apply MatchAt_result in Hrun as (Hp & Hin & Hlen & Hr); [|done].
  rewrite Hm in Hr. destruct Hr as [Hs _]. simpl in Hp, Hin, Hlen.
  split_and!.
  - rewrite group_whole_match; try done; [|congruence|lia].
    rewrite Hs, He, Hlen, Hin, Hwf. unfold substr, length32.
    rewrite Z.sub_0_r, Nat2Z.id. simpl. by rewrite firstn_all.
  - unfold start. rewrite Hst, Hm, Hp. simpl.
    destruct (Z.ltb_spec (fNumCaptureGroups (fPattern m)) 0); [lia|]. by rewrite Hs.
  - unfold end_. rewrite Hst, Hm, Hp. simpl.
    destruct (Z.ltb_spec (fNumCaptureGroups (fPattern m)) 0); [lia|]. congruence.
Qed.

End Replacing.

(* ------------------------------------------------------------------------- *)
(** ** The subject and the pattern of a matcher *)

Section Subject.
Context `{UnicodeData}.

Lemma replaceAll_loop_subject n fuel m dest repl status dest' m' status' :
  replaceAll_loop n fuel m dest repl status = Ret (dest', m', status') ->
  same_subject m m'.
Proof.
  revert m dest status. induction n as [|n IH]; intros m dest status; [done|].
  cbn [replaceAll_loop].
  destruct (find fuel m) as [[b m1]| |] eqn:Hfind; try done. simpl.
  apply find_loop_subject in Hfind as (Hp & Hin & Hlen).
  destruct b; [|intros [= _ <- _]; by repeat split].
  destruct (appendReplacement m1 dest repl status) as [d st].
  destruct (U_FAILURE st); [intros [= _ <- _]; by repeat split|].
  intros Hrec. apply IH in Hrec as (? & ? & ?). repeat split; congruence.
Qed.

(** [X23] Only reset(input) rebinds a matcher: input(), pattern() and
    groupCount() answer the same before and after reset(), find(),
    find(start), lookingAt(), matches(), replaceAll() and replaceFirst(),
    and after reset(s) input() is s, the pattern still the same. *)
Theorem operations_keep_subject (m : RegexMatcher) :
  let kept m' := input m' = input m /\ pattern m' = pattern m
                 /\ groupCount m' = groupCount m in
  kept (reset m)
  /\ (forall s, input (reset_input m s) = s /\ pattern (reset_input m s) = pattern m)
  /\ (forall fuel b m', find fuel m = Ret (b, m') -> kept m')
  /\ (forall fuel start status b m' status',
        find_from fuel m start status = Ret (b, m', status') -> kept m')
  /\ (forall fuel status b m', lookingAt fuel m status = Ret (b, m') -> kept m')
  /\ (forall fuel status b m', matches fuel m status = Ret (b, m') -> kept m')
  /\ (forall fuel repl status dest m' status',
        replaceAll fuel m repl status = Ret (dest, m', status') -> kept m')
  /\ (forall fuel repl status dest m' status',
        replaceFirst fuel m repl status = Ret (dest, m', status') -> kept m').
Proof.
  intros kept.
  assert (Hsub : forall m', same_subject (reset m) m' -> kept m').
  { intros m' (Hp & Hin & _). unfold kept, input, pattern, groupCount.
    rewrite Hp, Hin. done. }
  assert (Hsub0 : forall m', same_subject m m' -> kept m').
  { intros m' (Hp & Hin & _). unfold kept, input, pattern, groupCount.
    rewrite Hp, Hin. done. }
  split_and!.
  - done.
  - done.
  - intros fuel b m' Hfind. by apply find_loop_subject, Hsub0 in Hfind.
  - intros fuel start status b m' status'. unfold find_from.
    destruct (U_FAILURE status); [by intros [= _ <- _]|].
    destruct (_ || _); [by intros [= _ <- _]|].
    destruct (find_loop _ _ _ _) as [[b1 m1]| |] eqn:Hloop; try done. simpl.
    intros [= _ <- _]. by apply find_loop_subject, Hsub in Hloop.
  - intros fuel status b m'. unfold lookingAt.
    destruct (U_FAILURE status) eqn:Hst; [by intros [= _ <-]|].
    destruct (MatchAt _ _ _ _) as [m1| |] eqn:Hrun; try done. simpl.
    intros [= _ <-]. apply Hsub.
    apply MatchAt_result in Hrun as (? & ? & ? & _); done.
  - intros fuel status b m'. unfold matches.
    destruct (U_FAILURE status) eqn:Hst; [by intros [= _ <-]|].
    destruct (MatchAt _ _ _ _) as [m1| |] eqn:Hrun; try done. simpl.
    intros [= _ <-]. apply Hsub.
    apply MatchAt_result in Hrun as (? & ? & ? & _); done.
  - intros fuel repl status dest m' status'. unfold replaceAll.
    destruct (U_FAILURE status); [by intros [= _ <- _]|].
    destruct (replaceAll_loop _ _ _ _ _ _) as [[[d m1] st]| |] eqn:Hloop; try done.
    simpl. intros [= _ <- _]. by apply replaceAll_loop_subject, Hsub in Hloop.
  - intros fuel repl status dest m' status'. unfold replaceFirst.
    destruct (U_FAILURE status); [by intros [= _ <- _]|].
    destruct (find fuel (reset m)) as [[b m1]| |] eqn:Hfind; try done. simpl.
    apply find_loop_subject in Hfind.
    destruct b; simpl; [|intros [= _ <- _]; by apply Hsub].
    destruct (appendReplacement _ _ _ _). intros [= _ <- _]. by apply Hsub.
Qed.

End Subject.

(* ------------------------------------------------------------------------- *)
(** ** Runs of the further properties *)

Section FurtherRuns.
#[local] Existing Instance sample_data.

Lemma matcher_ok_m_ab_matched : matcher_ok m_ab_matched.
Proof.
  apply (MatchAt_ok 16 (reset m_ab) 0 U_ZERO_ERROR).
  - apply reset_ok, matcher_ok_new. by vm_compute.
  - by vm_compute.
  - by vm_compute.
Qed.

(** A run of [reset_postcondition]: after [(a)(b)] has matched "ab", group 1
    starts at 0; reset() puts -1 there and leaves the stack alone. *)
Lemma reset_postcondition_witness :
  elementAti (fCaptureStarts m_ab_matched) 1 = 0
  /\ elementAti (fCaptureStarts (reset m_ab_matched)) 1 = -1
  /\ fBackTrackStack (reset m_ab_matched) = fBackTrackStack m_ab_matched.
Proof.
  split; [by vm_compute|].
  destruct (reset_postcondition m_ab_matched 1) as (_ & _ & _ & _ & Hs & _ & _ & Hstk & _);
    [by vm_compute..|].
  by split.
Defined.

(** A run of [new_matcher_ok]: the matcher of [(a)(b)] on "ab". *)
Lemma new_matcher_ok_witness :
  matcher_ok m_ab /\ fBackTrackStack m_ab = []
  /\ elementAti (fCaptureEnds m_ab) 2 = -1.
Proof.
  destruct (new_matcher_ok pat_ab [0x61; 0x62]) as (Hok & _ & _ & Hstk & _ & _ & _ & _ & Hg);
    [by vm_compute|].
  split; [exact Hok|split; [exact Hstk|]]. apply Hg. by vm_compute.
Defined.

(** A run of [operations_keep_matcher_ok]: the matcher of [(a)(b)] on "ab"
    stays in order under reset() and find(). *)
Lemma operations_keep_matcher_ok_witness :
  matcher_ok (reset m_ab)
  /\ (forall fuel b m', find fuel m_ab = Ret (b, m') -> matcher_ok m').
Proof.
  destruct (operations_keep_matcher_ok m_ab) as (Hr & _ & Hf & _);
    [apply matcher_ok_new; by vm_compute|].
  by split.
Defined.

(** A run of [accessors_stay_inside]: group 2 of [(a)(b)] on "ab". *)
Lemma accessors_stay_inside_witness :
  -1 <= (start m_ab_matched 2 U_ZERO_ERROR).1 <= 2
  /\ -1 <= (end_ m_ab_matched 2 U_ZERO_ERROR).1 <= 2
  /\ (length (group m_ab_matched 2 U_ZERO_ERROR).1 <= 2)%nat.
Proof.
  destruct (accessors_stay_inside m_ab_matched 2 U_ZERO_ERROR) as (Hs & He & _ & _ & _ & Hl);
    [apply matcher_ok_m_ab_matched|by vm_compute..|].
  split; [exact Hs|split; [exact He|exact Hl]].
Defined.

(** A run of [find_reports_next_match]: [a] on "a". *)
Lemma find_reports_next_match_witness :
  find 8 m_a = Ret (true, m_a_matched)
  /\ fMatchEnd m_a <= fMatchStart m_a_matched < fInputLength m_a
  /\ fLastMatchEnd m_a_matched = fMatchEnd m_a.
Proof.
  assert (Hfind : find 8 m_a = Ret (true, m_a_matched)) by (by vm_compute).
  split; [exact Hfind|].
  destruct (find_reports_next_match 8 m_a m_a_matched) as (_ & Hs & Hl);
    [by vm_compute|exact Hfind|].
  by split.
Defined.

(** A run of [find_from_reports_from_start]: find(0) with [a] on "a". *)
Lemma find_from_reports_from_start_witness :
  find_from 8 m_a 0 U_ZERO_ERROR = Ret (true, m_a_matched, U_ZERO_ERROR)
  /\ 0 <= 0 <= fMatchStart m_a_matched
  /\ fLastMatchEnd m_a_matched = 0.
Proof.
  assert (Hfind : find_from 8 m_a 0 U_ZERO_ERROR = Ret (true, m_a_matched, U_ZERO_ERROR))
    by (by vm_compute).
  split; [exact Hfind|].
  destruct (find_from_reports_from_start 8 m_a m_a_matched 0 U_ZERO_ERROR U_ZERO_ERROR)
    as (Hs & _ & _ & Hl & _); [by vm_compute|exact Hfind|].
  by split.
Defined.

(** A run of [find_without_match]: [a] finds nothing in "b", and the
    matcher holds no match afterwards. *)
Lemma find_without_match_witness :
  find 8 m_b = Ret (false, m_b_searched)
  /\ fMatch m_b_searched = false
  /\ fMatchEnd m_b_searched = fMatchEnd m_b.
Proof.
  assert (Hfind : find 8 m_b = Ret (false, m_b_searched)) by (by vm_compute).
  split; [exact Hfind|].
  destruct (find_without_match 8 m_b m_b_searched Hfind) as (_ & He & _ & Hm & _).
  split; [apply Hm; by vm_compute|exact He].
Defined.

(** A run of [lookingAt_and_matches]: [a] on "a". *)
Lemma lookingAt_and_matches_witness :
  lookingAt 8 m_a U_ZERO_ERROR = Ret (true, m_a_matched)
  /\ matches 8 m_a U_ZERO_ERROR = Ret (true, m_a_matched)
  /\ fMatchStart m_a_matched = 0.
Proof.
  assert (Hlook : lookingAt 8 m_a U_ZERO_ERROR = Ret (true, m_a_matched)) by (by vm_compute).
  split; [exact Hlook|].
  destruct (lookingAt_and_matches 8 m_a m_a_matched U_ZERO_ERROR true Hlook) as (Hm & Hs).
  split; [exact Hm|]. by destruct (Hs eq_refl) as (_ & ? & _).
Defined.

(** A run of [MatchAt_bookkeeping]: the attempt of [a] at 0 in "a". *)
Lemma MatchAt_bookkeeping_witness :
  MatchAt 8 m_a 0 U_ZERO_ERROR = Ret m_a_matched
  /\ fInput m_a_matched = fInput m_a
  /\ fMatchStart m_a_matched = 0 /\ fLastMatchEnd m_a_matched = fMatchEnd m_a.
Proof.
  assert (Hrun : MatchAt 8 m_a 0 U_ZERO_ERROR = Ret m_a_matched) by (by vm_compute).
  split; [exact Hrun|].
  destruct (MatchAt_bookkeeping 8 m_a m_a_matched 0 U_ZERO_ERROR Hrun)
    as (_ & Hin & _ & _ & Hb).
  split; [exact Hin|]. exact (Hb eq_refl).
Defined.

(** A run of [only_backTrack_moves_back]: [a] at the end of "b", above the
    bottom frame that was saved at position 0. *)
Lemma only_backTrack_moves_back_witness :
  MatchAt_step m_b_at_onechar 1 3 = Next m_b_backtracked 0 2
  /\ backTrack m_b_at_onechar = Some (m_b_backtracked, 0, 2).
Proof.
  assert (Hstep : MatchAt_step m_b_at_onechar 1 3 = Next m_b_backtracked 0 2)
    by (by vm_compute).
  split; [exact Hstep|].
  apply (only_backTrack_moves_back m_b_at_onechar m_b_backtracked 1 3 0 2);
    [by vm_compute|exact Hstep|lia].
Defined.

(** A run of [MatchAt_ends_after_start]: [a] on "a" with an empty stack. *)
Lemma MatchAt_ends_after_start_witness :
  fBackTrackStack m_a = []
  /\ fMatchStart m_a_matched = 0 /\ 0 <= fMatchEnd m_a_matched.
Proof.
  split; [by vm_compute|].
  destruct (MatchAt_ends_after_start 8 m_a m_a_matched 0 U_ZERO_ERROR) as [_ Hm];
    [by vm_compute|by vm_compute|constructor|done|by vm_compute|].
  apply Hm. by vm_compute.
Defined.

(** A run of [takes_a_char_fails_at_end]: ONECHAR at the end of "b". *)
Lemma takes_a_char_fails_at_end_witness :
  MatchAt_step m_b_at_onechar 1 3 = doBackTrack m_b_at_onechar.
Proof.
  apply (takes_a_char_fails_at_end m_b_at_onechar 1 3 (URX_BUILD URX_ONECHAR 0x61));
    [lia|by vm_compute..].
Defined.

(** A run of [negated_static_set_at_end]: [\W] on the empty subject goes on
    to END without a character. *)
Lemma negated_static_set_at_end_witness :
  MatchAt_step m_nonword_empty 0 3 = Next m_nonword_empty 0 4.
Proof.
  apply (negated_static_set_at_end m_nonword_empty 0 3
           (URX_BUILD URX_STATIC_SETREF (Z.lor URX_NEG_SET URX_ISWORD_SET)));
    [lia|by vm_compute..].
Defined.

(** A run of [DOTANY_fails_on_line_terminators]: the dot of [^.$] on the
    line feed of "a\n". *)
Lemma DOTANY_fails_on_line_terminators_witness :
  MatchAt_step m_line 1 4 = doBackTrack m_line.
Proof.
  rewrite (DOTANY_fails_on_line_terminators m_line 1 4 (URX_BUILD URX_DOTANY 0));
    [|lia|by vm_compute..].
  by vm_compute.
Defined.

(** A run of [takes_a_char_advances]: ONECHAR at the start of "a". *)
Lemma takes_a_char_advances_witness :
  MatchAt_step m_a 0 3 = doBackTrack m_a
  \/ MatchAt_step m_a 0 3 = Abort BadIndex
  \/ exists i', MatchAt_step m_a 0 3 = Next m_a i' (3 + 1) /\ 0 < i' <= fInputLength m_a.
Proof.
  apply (takes_a_char_advances m_a 0 3 (URX_BUILD URX_ONECHAR 0x61));
    [by vm_compute|lia|by vm_compute|by vm_compute|by vm_compute].
Defined.

(** A run of [isWordBoundary_skips_marks]: in "a", U+0301, " " the space at
    2 is at a boundary, the accent at 1 being looked through. *)
Lemma isWordBoundary_skips_marks_witness :
  isWordBoundary m_mark 2 = true.
Proof.
  rewrite (isWordBoundary_skips_marks m_mark 2 0); [by vm_compute|by vm_compute|lia| | | | |].
  - by vm_compute.
  - intros j Hj. assert (j = 0 \/ j = 1 \/ j = 2) as Hcases by lia.
    destruct Hcases as [Hj0|[Hj1|Hj2]]; subst j; by vm_compute.
  - by vm_compute.
  - by vm_compute.
  - intros j Hj. assert (j = 1) as -> by lia. by vm_compute.
Defined.

(** A run of [isWordBoundary_without_previous]: position 0 of "a b". *)
Lemma isWordBoundary_without_previous_witness :
  isWordBoundary m_wordb 0 = true.
Proof.
  rewrite (isWordBoundary_without_previous m_wordb 0); [by vm_compute|by vm_compute| |].
  - by vm_compute.
  - intros j Hj. lia.
Defined.

(** A run of [appendReplacement_escape]: the replacement text "\$1" comes
    out as "$1", no group being read. *)
Lemma appendReplacement_escape_witness :
  appendReplacement m_a_matched [0x2d] [BACKSLASH; DOLLARSIGN; 0x31] U_ZERO_ERROR
  = ([0x2d; DOLLARSIGN; 0x31], U_ZERO_ERROR).
Proof.
  destruct (appendReplacement_escape m_a_matched [0x2d] [DOLLARSIGN; 0x31] U_ZERO_ERROR)
    as [Hesc _]; [by vm_compute..|].
  exact Hesc.
Defined.

(** A run of [replace_without_match]: [a] replaces nothing in "b". *)
Lemma replace_without_match_witness :
  replaceFirst 8 m_b [0x78] U_ZERO_ERROR = Ret ([0x62], m_b_searched, U_ZERO_ERROR)
  /\ replaceAll 8 m_b [0x78] U_ZERO_ERROR = Ret ([0x62], m_b_searched, U_ZERO_ERROR).
Proof.
  destruct (replace_without_match 8 m_b m_b_searched [0x78] U_ZERO_ERROR) as [Hfirst Hall];
    [by vm_compute..|].
  split; [exact Hfirst|]. apply Hall. lia.
Defined.

(** A run of [replaceFirst_escape]: [a] in "a" replaced by "\$", that is
    by a dollar sign. *)
Lemma replaceFirst_escape_witness :
  replaceFirst 8 m_a [BACKSLASH; DOLLARSIGN] U_ZERO_ERROR
  = Ret ([DOLLARSIGN], m_a_matched, U_ZERO_ERROR).
Proof.
  apply (replaceFirst_escape 8 m_a m_a_matched [DOLLARSIGN] U_ZERO_ERROR);
    [apply matcher_ok_new; by vm_compute|done|by vm_compute].
Defined.

(** A run of [matches_group0_is_subject]: [(a)(b)] on "ab". *)
Lemma matches_group0_is_subject_witness :
  matches 16 m_ab U_ZERO_ERROR = Ret (true, m_ab_matched)
  /\ group m_ab_matched 0 U_ZERO_ERROR = ([0x61; 0x62], U_ZERO_ERROR).
Proof.
  assert (Hm : matches 16 m_ab U_ZERO_ERROR = Ret (true, m_ab_matched)) by (by vm_compute).
  split; [exact Hm|].
  destruct (matches_group0_is_subject 16 m_ab m_ab_matched U_ZERO_ERROR) as (Hg & _);
    [by vm_compute|by vm_compute|exact Hm|].
  exact Hg.
Defined.

(** Every attempt of [(a)(b)] on "ab" returns, whatever frames an earlier
    attempt has left on the stack: at 0 it matches "ab"; at 1 the ONECHAR
    for [a] fails on "b", backTrack pops the frame the attempt has pushed
    itself and comes to the FAIL of the bottom frame. *)
Lemma attempts_of_m_ab : attempts_return_nonempty m_ab.
Proof.
  intros m' p (Hp & Hi & Hl) Hok Hrange. change (fInputLength m_ab) with 2 in *.
  pose proof (ok_nstarts _ Hok) as Hns. pose proof (ok_nends _ Hok) as Hne.
  destruct m' as [pat inp len mt ms me lme stk cs ce]. simpl in Hp, Hi, Hl, Hns, Hne.
  subst pat inp len. change (fNumCaptureGroups (fPattern m_ab)) with 2 in *.
  destruct cs as [|c0 [|c1 [|c2 [|? ?]]]]; simpl in Hns; try lia.
  destruct ce as [|e0 [|e1 [|e2 [|? ?]]]]; simpl in Hne; try lia.
  assert (p = 0 \/ p = 1) as [->| ->] by lia.
  - exists 16%nat. eexists. split; [vm_compute; reflexivity|].
    intros _. by vm_compute.
  - set (frame := [-1; e2; -1; e1; 2; 1]).
    set (M3 := mkMatcher (fPattern m_ab) (fInput m_ab) 2 mt ms me lme
                         (stk ++ frame) [-1; 1; -1] [e0; e1; e2]).
    set (M4 := mkMatcher (fPattern m_ab) (fInput m_ab) 2 mt ms me lme
                         stk [-1; -1; -1] [e0; e1; e2]).
    assert (Hback : backTrack M3 = Some (M4, 1, 2)).
    { unfold backTrack.
      change (fBackTrackStack M3) with (stk ++ frame).
      change (fCaptureStateSize (fPattern M3)) with (Z.of_nat (length frame)).
      by rewrite popBlock_app. }
    exists 5%nat, (set_match M4 false ms me lme). split; [|done].
    unfold MatchAt. change (U_FAILURE U_ZERO_ERROR) with false. cbv iota.
    cbn [MatchAt_loop].
    match goal with
    | |- context [MatchAt_step ?m0 1 0] =>
        assert (MatchAt_step m0 1 0
                = Next (mkMatcher (fPattern m_ab) (fInput m_ab) 2 mt ms me lme
                                  (stk ++ frame) [-1; -1; -1] [e0; e1; e2]) 1 1) as ->
          by (vm_compute; reflexivity)
    end.
    match goal with
    | |- context [MatchAt_step ?m0 1 1] =>
        assert (MatchAt_step m0 1 1 = Next m0 1 3) as -> by (vm_compute; reflexivity)
    end.
    match goal with
    | |- context [MatchAt_step ?m0 1 3] =>
        assert (MatchAt_step m0 1 3 = Next M3 1 4) as -> by (vm_compute; reflexivity)
    end.
    assert (MatchAt_step M3 1 4 = doBackTrack M3) as -> by (vm_compute; reflexivity).
    unfold doBackTrack. rewrite Hback.
    assert (MatchAt_step M4 1 2 = Break false M4 1) as -> by (vm_compute; reflexivity).
    done.
Qed.

(** A run of [replaceAll_group0_identity]: [(a)(b)] on "ab". *)
Lemma replaceAll_group0_identity_witness :
  attempts_return_nonempty m_ab
  /\ exists fuel0 m', forall fuel, (fuel0 <= fuel)%nat ->
       replaceAll fuel m_ab [DOLLARSIGN; 0x30] U_ZERO_ERROR
       = Ret ([0x61; 0x62], m', U_ZERO_ERROR).
Proof.
  split; [exact attempts_of_m_ab|].
  apply (replaceAll_group0_identity m_ab U_ZERO_ERROR);
    [apply matcher_ok_new; by vm_compute|done|by vm_compute|by vm_compute
    |exact attempts_of_m_ab].
Defined.

End FurtherRuns.
